(** * QueuedPool: a resizable pool of queue-fed workers

    A verification development for [QueuedPool.py].  The pool is a
    concurrent program: one manager thread (the caller of the public
    methods) and the worker processes of a [multiprocessing.Pool], which
    share two queues, three lock-protected counters and an event flag.

    The embedding is a labelled transition system.  Every access to a
    shared object (a queue operation, a counter operation, a flag
    operation, a pool operation) is one atomic step of the actor that
    performs it; the steps of the manager and of the workers interleave
    in any order.  The step functions are executable, so that a schedule
    (a list of actors) can be run on a concrete pool.

    What the model takes from the libraries the source uses:
    - of a [multiprocessing.Queue], in the first part, what it counts:
      the items that were put and not yet pulled, first in first out.
      This is what [qsize] reads, and so what the polls of [closePool]
      see; it is not what a reader finds, since an item that was put is
      written to the pipe of the queue later, by a thread of the process
      that put it.  The last part, [Wire], has the queue with its buffers,
      its pipe and its locks, and [getResults] and [closePool] as they go
      on it;
    - a counter is a C [int] behind a lock;
    - [Pool(n, initializer, initargs)] starts [n] processes that run the
      initializer and then idle; [terminate] stops every process of the
      pool where it stands, its threads with it.  A running pool replaces
      a process that an exception of the initializer has ended: [Wire]
      has this step, the first part leaves such a process as it is;
    - [multiprocessing.cpu_count()] returns the number of processors, or
      raises [NotImplementedError] when the platform cannot tell it;
    - the caller makes its calls one after the other, from one thread. *)

From Stdlib Require Import ZArith String Ascii.
From stdpp Require Import base numbers list.

Local Open Scope Z_scope.

(** ** Python values *)

(** The values that travel through the queues.  Only the distinctions the
    pool itself makes matter: [None] (the poison pill), lists (a job is a
    list of arguments), and the other values. *)
#[warnings="-register-all"] Inductive pyval : Type :=
  | PNone
  | PInt (z : Z)
  | PStr (s : string)
  | PTuple (l : list pyval)
  | PList (l : list pyval).

(** [x is None] *)
Definition is_None (x : pyval) : bool :=
  match x with PNone => true | _ => false end.

(** [isinstance(x, list)] *)
Definition isinstance_list (x : pyval) : bool :=
  match x with PList _ => true | _ => false end.

(** The sequence types among the modelled values: [list], [tuple], [str]. *)
Definition is_sequence (x : pyval) : bool :=
  match x with PList _ | PTuple _ | PStr _ => true | _ => false end.

(** The exceptions that the modelled code can meet. *)
Inductive exn : Type :=
  | Empty            (* queue.Empty, from a non-blocking get *)
  | AttributeError   (* a method called on None *)
  | ValueError       (* Pool(processes) with processes < 1 *)
  | TypeError        (* a non-integer stored in a c_int; a non-iterable unpacked *)
  | NotImplementedError (* multiprocessing.cpu_count(), the count unknown *)
  | Exception.       (* anything the user's worker function raises *)

(** Star-unpacking of [args] in a call: the argument list it produces.  A list
    or a tuple gives its elements, a string its characters; [None] and an
    integer are not iterable. *)
Definition unpack (args : pyval) : exn + list pyval :=
  match args with
  | PList l | PTuple l => inr l
  | PStr s => inr (map (fun a => PStr (String a EmptyString)) (list_ascii_of_string s))
  | PNone | PInt _ => inl TypeError
  end.

(** ** SafeValue *)

(** [multiprocessing.Value('i', initval)] is a C [int]: 32 bits, signed.
    ctypes stores an integer that is out of range without a check, keeping
    its low 32 bits. *)
Definition INT_MAX : Z := 2147483647.
Definition INT_MIN : Z := -2147483648.

Definition c_int (z : Z) : Z := (z + 2 ^ 31) mod 2 ^ 32 - 2 ^ 31.

Module SafeValue.

Record t : Type := mk { val : Z }.

(** [SafeValue(initval)] *)
Definition new (initval : Z) : t := mk (c_int initval).

(** [self.val.value += 1], under the lock *)
Definition increment (c : t) : t := mk (c_int (val c + 1)).

(** [self.val.value -= 1], under the lock *)
Definition decrement (c : t) : t := mk (c_int (val c - 1)).

(** [self.val.value = n], under the lock *)
Definition set (c : t) (n : Z) : t := mk (c_int n).

(** [return self.val.value], under the lock *)
Definition value (c : t) : Z := val c.

End SafeValue.


(** ** The pool object *)

(** Where a worker process is in [_workerFunc] (source lines 83-107).  The
    process then stays alive, idle in the task loop of
    [multiprocessing.Pool], until the pool is terminated. *)
Inductive wpc : Type :=
  | WStart                    (* line 86: before active_workers.increment() *)
  | WGet                      (* line 91: at input_queue.get(True) *)
  | WCall (args : pyval)      (* lines 94-98: args is not None, at the call of func *)
  | WPut (result : pyval)     (* line 101: at output_queue.put(result) *)
  | WKillCheck                (* line 104: at kill_workers.is_set() *)
  | WDecr                     (* line 107: at active_workers.decrement() *)
  | WDone                     (* _workerFunc has returned *)
  | WCrashed (e : exn).       (* an exception left _workerFunc *)

(** A worker process of the pool; [alive] is false once it was terminated. *)
Record proc : Type := mkProc { pc : wpc; alive : bool }.

Inductive pool_state : Type := RUN | CLOSE | TERMINATE.

(** A [multiprocessing.Pool]: its state and its worker processes. *)
Record Pool : Type := mkPool { pstate : pool_state; procs : list proc }.

(** The fields of a [QueuedPool] object, as [__init__] creates them.
    [func] is fixed for the life of the object and is a parameter below. *)
Record QueuedPool : Type := mkQueuedPool {
  cores : SafeValue.t;
  input_queue : list pyval;
  output_queue : list pyval;
  pool : option Pool;
  total_jobs : SafeValue.t;
  active_workers : SafeValue.t;
  kill_workers : bool
}.

Definition with_cores (c : SafeValue.t) (q : QueuedPool) : QueuedPool :=
  mkQueuedPool c (input_queue q) (output_queue q) (pool q)
    (total_jobs q) (active_workers q) (kill_workers q).
Definition with_input_queue (l : list pyval) (q : QueuedPool) : QueuedPool :=
  mkQueuedPool (cores q) l (output_queue q) (pool q)
    (total_jobs q) (active_workers q) (kill_workers q).
Definition with_output_queue (l : list pyval) (q : QueuedPool) : QueuedPool :=
  mkQueuedPool (cores q) (input_queue q) l (pool q)
    (total_jobs q) (active_workers q) (kill_workers q).
Definition with_pool (p : option Pool) (q : QueuedPool) : QueuedPool :=
  mkQueuedPool (cores q) (input_queue q) (output_queue q) p
    (total_jobs q) (active_workers q) (kill_workers q).
Definition with_total_jobs (c : SafeValue.t) (q : QueuedPool) : QueuedPool :=
  mkQueuedPool (cores q) (input_queue q) (output_queue q) (pool q)
    c (active_workers q) (kill_workers q).
Definition with_active_workers (c : SafeValue.t) (q : QueuedPool) : QueuedPool :=
  mkQueuedPool (cores q) (input_queue q) (output_queue q) (pool q)
    (total_jobs q) c (kill_workers q).
Definition with_kill_workers (b : bool) (q : QueuedPool) : QueuedPool :=
  mkQueuedPool (cores q) (input_queue q) (output_queue q) (pool q)
    (total_jobs q) (active_workers q) b.

(** ** Queues *)

(** What a [multiprocessing.Queue] counts, as a list: the items that were
    put and not yet pulled, in the order of the puts.  [put] appends,
    [get] takes the head, [qsize] is the length.  The pipe through which
    the items travel, and the threads that write to it, are in [Wire]
    below. *)
Definition put (x : pyval) (q : list pyval) : list pyval := q ++ [x].

(** [q.get(False)] when every item counted is in the pipe: the head, or
    [queue.Empty] raised. *)
Definition get_nowait (q : list pyval) : exn + (pyval * list pyval) :=
  match q with
  | [] => inl Empty
  | x :: q' => inr (x, q')
  end.

(** ** Events *)

(** The public methods, as the caller invokes them. *)
Inductive call : Type :=
  | AddJob (job : pyval)
  | GetResults
  | ClosePool
  | UpdateCoreNumber (cores : option Z).

(** What one atomic step does.  The label of a step names the operation on
    the shared object and what it read or wrote. *)
Inductive event : Type :=
  (* _workerFunc *)
  | EvActiveIncr                               (* active_workers.increment() *)
  | EvGet (x : pyval)                          (* input_queue.get(True) returned x *)
  | EvCall (args : pyval) (r : pyval)          (* func called on args, returned r *)
  | EvCallRaise (args : pyval) (e : exn)       (* func called on args, raised *)
  | EvResultPut (r : pyval)                    (* output_queue.put(r) *)
  | EvKillIsSet (b : bool)                     (* kill_workers.is_set() *)
  | EvActiveDecr                               (* active_workers.decrement() *)
  (* the manager *)
  | EvBegin (c : call)                         (* the caller enters a method *)
  | EvTotalIncr                                (* total_jobs.increment() *)
  | EvJobPut (x : pyval)                       (* input_queue.put(x) *)
  | EvOutEmpty (b : bool)                      (* output_queue.empty() *)
  | EvGetNoWait (o : exn + pyval)              (* output_queue.get(False) *)
  | EvPoolIsNone (b : bool)                    (* self.pool is None *)
  | EvCaughtUp (b : bool)                      (* output_queue.qsize() == total_jobs.value() *)
  | EvRangeDone                                (* the for loop over range is exhausted *)
  | EvInQsize (n : nat)                        (* input_queue.qsize() *)
  | EvTeardown                                 (* pool.close(); pool.terminate(); pool.join() *)
  | EvKillSet                                  (* kill_workers.set() *)
  | EvKillClear                                (* kill_workers.clear() *)
  | EvActiveRead (n : Z)                       (* active_workers.value() *)
  | EvCoresSet (n : Z)                         (* cores.set(n) *)
  | EvStartPool (n : Z)                        (* multiprocessing.Pool(n, ...) *)
  | EvRaise (e : exn).                         (* an exception leaves the method *)

(** ** The methods, one atomic step at a time *)

(** How a step of a method ends: at the next program point, by returning
    ([Some l] is a list, [None] is Python's [None]), or with an exception. *)
Inductive outcome (PC : Type) : Type :=
  | Next (p : PC)
  | Return (v : option (list pyval))
  | Raise (e : exn).
Arguments Next {PC} p.
Arguments Return {PC} v.
Arguments Raise {PC} e.

(** Program points of [addJob] (lines 185-197). *)
Inductive addJob_pc : Type :=
  | AddIncr      (* line 192: at total_jobs.increment() *)
  | AddPut.      (* lines 194-197: at input_queue.put(job) *)

(** Program points of [getResults] (lines 201-216). *)
Inductive getResults_pc : Type :=
  | GetEmpty                        (* line 208: at output_queue.empty() *)
  | GetLoop (results : list pyval). (* line 211: at output_queue.get(False) *)

(** Program points of [closePool] (lines 119-148). *)
Inductive closePool_pc : Type :=
  | CloseGuard         (* line 122: at the test of self.pool *)
  | ClosePoll          (* line 128: at the comparison of qsize and total_jobs *)
  | ClosePill (n : nat)(* lines 131-132: in the for loop, n iterations left *)
  | CloseWait          (* line 136: at input_queue.qsize() *)
  | CloseJoin.         (* lines 141-145: at pool.close() *)

(** Program points of [updateCoreNumber] (lines 152-181). *)
Inductive updateCoreNumber_pc : Type :=
  | UpdSetKill         (* line 161: at kill_workers.set() *)
  | UpdWait            (* line 164: at active_workers.value() *)
  | UpdJoin            (* lines 168-170: at pool.close() *)
  | UpdClear           (* line 172: at kill_workers.clear() *)
  | UpdSetCores        (* lines 175-178: at cores.set(cores) *)
  | UpdStart.          (* line 181: at startPool() *)

(** [pool.close(); pool.terminate(); pool.join()]: every worker process of
    the pool is stopped where it stands.  On a pool that is terminated
    already this changes nothing.  (What the processes had counted in
    stays counted; what becomes of the items that they had not written
    yet is in [Wire.teardown].) *)
Definition kill (w : proc) : proc := mkProc (pc w) false.

Definition teardown (p : Pool) : Pool := mkPool TERMINATE (map kill (procs p)).

(** [multiprocessing.Pool(n, initializer, initargs)]: [n] fresh processes,
    each about to run the initializer; [ValueError] when [n < 1]. *)
Definition new_Pool (n : Z) : exn + Pool :=
  if n <? 1 then inl ValueError
  else inr (mkPool RUN (repeat (mkProc WStart true) (Z.to_nat n))).

Section Methods.

(** The worker function given to the constructor; [inl e]: it raises. *)
Variable func : list pyval -> exn + pyval.

(** The number of processors that the platform reports; [None]: the
    platform cannot tell. *)
Variable cpu_count : option Z.

(** [multiprocessing.cpu_count()]: the number of processors, or
    [NotImplementedError] when the platform cannot tell.  It never returns
    [None]. *)
Definition call_cpu_count : exn + Z :=
  match cpu_count with
  | Some n => inr n
  | None => inl NotImplementedError
  end.

(** [_workerFunc] (lines 83-107).  [None]: the process cannot move, it is
    blocked in [get] on an empty queue or it has left the function. *)
Definition _workerFunc (self : QueuedPool) (at_ : wpc)
  : option (event * QueuedPool * wpc) :=
  match at_ with
  | WStart =>
      Some (EvActiveIncr,
            with_active_workers (SafeValue.increment (active_workers self)) self,
            WGet)
  | WGet =>
      match input_queue self with
      | [] => None
      | args :: q =>
          Some (EvGet args, with_input_queue q self,
                if is_None args then WDecr else WCall args)
      end
  | WCall args =>
      match unpack args with
      | inl e => Some (EvCallRaise args e, self, WCrashed e)
      | inr l =>
          match func l with
          | inl e => Some (EvCallRaise args e, self, WCrashed e)
          | inr result => Some (EvCall args result, self, WPut result)
          end
      end
  | WPut result =>
      Some (EvResultPut result,
            with_output_queue (put result (output_queue self)) self,
            WKillCheck)
  | WKillCheck =>
      Some (EvKillIsSet (kill_workers self), self,
            if kill_workers self then WDecr else WGet)
  | WDecr =>
      Some (EvActiveDecr,
            with_active_workers (SafeValue.decrement (active_workers self)) self,
            WDone)
  | WDone | WCrashed _ => None
  end.

(** [startPool] (lines 110-115).  When the pool constructor raises, the
    assignment to [self.pool] does not happen. *)
Definition startPool (self : QueuedPool) : exn + QueuedPool :=
  match new_Pool (SafeValue.value (cores self)) with
  | inl e => inl e
  | inr p => inr (with_pool (Some p) self)
  end.

(** [__init__] (lines 56-79).  No other process exists before
    [startPool], so the constructor is one step.  The second test of
    [cores is None] (line 62) never succeeds: [cpu_count()] returns a
    number or raises. *)
Definition __init__ (cores_arg : option Z) : exn + QueuedPool :=
  match (match cores_arg with
         | Some n => inr (Some n)
         | None =>
             match call_cpu_count with
             | inr n => inr (Some n)
             | inl e => inl e
             end
         end) with
  | inl e => inl e
  | inr cores_arg =>
      let cores_arg := match cores_arg with Some n => n | None => 1 end in
      startPool (mkQueuedPool (SafeValue.new cores_arg) [] [] None
                   (SafeValue.new 0) (SafeValue.new 0) false)
  end.

(** The job as [addJob] puts it in the queue (lines 194-195). *)
Definition wrap_job (job : pyval) : pyval :=
  if isinstance_list job then job else PList [job].

(** [addJob] (lines 185-197). *)
Definition addJob (job : pyval) (self : QueuedPool) (at_ : addJob_pc)
  : event * QueuedPool * outcome addJob_pc :=
  match at_ with
  | AddIncr =>
      (EvTotalIncr,
       with_total_jobs (SafeValue.increment (total_jobs self)) self,
       Next AddPut)
  | AddPut =>
      (EvJobPut (wrap_job job),
       with_input_queue (put (wrap_job job) (input_queue self)) self,
       Return None)
  end.

(** [getResults] (lines 201-216), when every result that the queue counts
    is in its pipe.  The bare [except] ends the loop on whatever the pull
    raises.  ([Wire.getResults] is the method on the pipe as it is.) *)
Definition getResults (self : QueuedPool) (at_ : getResults_pc)
  : event * QueuedPool * outcome getResults_pc :=
  match at_ with
  | GetEmpty =>
      match output_queue self with
      | [] => (EvOutEmpty true, self, Return (Some []))
      | _ :: _ => (EvOutEmpty false, self, Next (GetLoop []))
      end
  | GetLoop results =>
      match get_nowait (output_queue self) with
      | inr (x, q) =>
          (EvGetNoWait (inr x), with_output_queue q self,
           Next (GetLoop (results ++ [x])))
      | inl e => (EvGetNoWait (inl e), self, Return (Some results))
      end
  end.

(** [closePool] (lines 119-148).  The comparison of line 128 reads the
    result queue's size and then [total_jobs], and line 131 reads [cores];
    only the caller's own thread writes these two counters, so the three
    reads are one step here.  A step that ends in [time.sleep] stays at
    its program point. *)
Definition closePool (self : QueuedPool) (at_ : closePool_pc)
  : event * QueuedPool * outcome closePool_pc :=
  match at_ with
  | CloseGuard =>
      match pool self with
      | Some _ => (EvPoolIsNone false, self, Next ClosePoll)
      | None => (EvPoolIsNone true, self, Return None)
      end
  | ClosePoll =>
      if Z.of_nat (length (output_queue self)) =? SafeValue.value (total_jobs self)
      then (EvCaughtUp true, self,
            Next (ClosePill (Z.to_nat (SafeValue.value (cores self)))))
      else (EvCaughtUp false, self, Next ClosePoll)
  | ClosePill (S n) =>
      (EvJobPut PNone, with_input_queue (put PNone (input_queue self)) self,
       Next (ClosePill n))
  | ClosePill O => (EvRangeDone, self, Next CloseWait)
  | CloseWait =>
      match input_queue self with
      | [] => (EvInQsize 0, self, Next CloseJoin)
      | _ :: _ => (EvInQsize (length (input_queue self)), self, Next CloseWait)
      end
  | CloseJoin =>
      match pool self with
      | Some p => (EvTeardown, with_pool (Some (teardown p)) self, Return None)
      | None => (EvRaise AttributeError, self, Raise AttributeError)
      end
  end.

(** [updateCoreNumber] (lines 152-181). *)
Definition updateCoreNumber (cores_arg : option Z) (self : QueuedPool)
    (at_ : updateCoreNumber_pc)
  : event * QueuedPool * outcome updateCoreNumber_pc :=
  match at_ with
  | UpdSetKill => (EvKillSet, with_kill_workers true self, Next UpdWait)
  | UpdWait =>
      (EvActiveRead (SafeValue.value (active_workers self)), self,
       if 0 <? SafeValue.value (active_workers self)
       then Next UpdWait else Next UpdJoin)
  | UpdJoin =>
      match pool self with
      | Some p => (EvTeardown, with_pool (Some (teardown p)) self, Next UpdClear)
      | None => (EvRaise AttributeError, self, Raise AttributeError)
      end
  | UpdClear => (EvKillClear, with_kill_workers false self, Next UpdSetCores)
  | UpdSetCores =>
      match (match cores_arg with Some n => inr n | None => call_cpu_count end) with
      | inr n =>
          (EvCoresSet n, with_cores (SafeValue.set (cores self) n) self,
           Next UpdStart)
      | inl e => (EvRaise e, self, Raise e)
      end
  | UpdStart =>
      match startPool self with
      | inr self' =>
          (EvStartPool (SafeValue.value (cores self)), self', Return None)
      | inl e => (EvRaise e, self, Raise e)
      end
  end.

End Methods.

(** ** The running system *)

(** Where the caller's thread is: between two calls, inside a method, or
    stopped by an exception that left a method. *)
Inductive mgr_pc : Type :=
  | MIdle
  | MAddJob (job : pyval) (at_ : addJob_pc)
  | MGetResults (at_ : getResults_pc)
  | MClosePool (at_ : closePool_pc)
  | MUpdateCoreNumber (cores_arg : option Z) (at_ : updateCoreNumber_pc)
  | MRaised (e : exn).

(** The pool object, the caller's position, the calls the caller has still
    to make, and the lists that [getResults] has returned to it so far. *)
Record system : Type := mkSystem {
  workpool : QueuedPool;
  mpc : mgr_pc;
  script : list call;
  returned : list (list pyval)
}.

Inductive actor : Type :=
  | Manager
  | Worker (i : nat).

(** The first program point of a method. *)
Definition entry (c : call) : mgr_pc :=
  match c with
  | AddJob job => MAddJob job AddIncr
  | GetResults => MGetResults GetEmpty
  | ClosePool => MClosePool CloseGuard
  | UpdateCoreNumber c => MUpdateCoreNumber c UpdSetKill
  end.

(** The caller's side of a method step. *)
Definition resume {PC : Type} (inside : PC -> mgr_pc) (s : system)
    (r : event * QueuedPool * outcome PC) : event * system :=
  match r with
  | (e, self', Next p) => (e, mkSystem self' (inside p) (script s) (returned s))
  | (e, self', Return (Some l)) => (e, mkSystem self' MIdle (script s) (returned s ++ [l]))
  | (e, self', Return None) => (e, mkSystem self' MIdle (script s) (returned s))
  | (e, self', Raise x) => (e, mkSystem self' (MRaised x) (script s) (returned s))
  end.

Section System.

Variable func : list pyval -> exn + pyval.
Variable cpu_count : option Z.

(** One step of the caller's thread.  It is never blocked: every wait in
    the source is a poll.  [None]: the script is over, or was aborted. *)
Definition manager_step (s : system) : option (event * system) :=
  match mpc s with
  | MIdle =>
      match script s with
      | [] => None
      | c :: rest => Some (EvBegin c, mkSystem (workpool s) (entry c) rest (returned s))
      end
  | MAddJob job at_ => Some (resume (MAddJob job) s (addJob job (workpool s) at_))
  | MGetResults at_ => Some (resume MGetResults s (getResults (workpool s) at_))
  | MClosePool at_ => Some (resume MClosePool s (closePool (workpool s) at_))
  | MUpdateCoreNumber c at_ =>
      Some (resume (MUpdateCoreNumber c) s (updateCoreNumber cpu_count c (workpool s) at_))
  | MRaised _ => None
  end.

(** One step of the [i]-th process of the current pool. *)
Definition worker_step (i : nat) (s : system) : option (event * system) :=
  match pool (workpool s) with
  | None => None
  | Some p =>
      match procs p !! i with
      | None => None
      | Some w =>
          if alive w then
            match _workerFunc func (workpool s) (pc w) with
            | None => None
            | Some (e, self', pc') =>
                Some (e, mkSystem
                           (with_pool
                              (Some (mkPool (pstate p) (<[i := mkProc pc' true]> (procs p))))
                              self')
                           (mpc s) (script s) (returned s))
            end
          else None
      end
  end.

Definition step (a : actor) (s : system) : option (event * system) :=
  match a with
  | Manager => manager_step s
  | Worker i => worker_step i s
  end.

(** A schedule is the list of the actors that move, in order.  [run]
    gives the trace and the final state, or [None] when the schedule
    names an actor that cannot move. *)
Fixpoint run (sched : list actor) (s : system)
  : option (list (actor * event) * system) :=
  match sched with
  | [] => Some ([], s)
  | a :: sched' =>
      match step a s with
      | None => None
      | Some (e, s') =>
          match run sched' s' with
          | None => None
          | Some (tr, s'') => Some ((a, e) :: tr, s'')
          end
      end
  end.

(** The caller constructs the pool and then makes the calls of [calls]. *)
Definition program (cores_arg : option Z) (calls : list call) : exn + system :=
  match __init__ cpu_count cores_arg with
  | inl e => inl e
  | inr q => inr (mkSystem q MIdle calls [])
  end.

End System.

(** ** A method under arbitrary interference *)

(** Between two steps of one actor the other actors may change the pool
    object at will.  [worker_run] and [method_run] give the trace of one
    actor when the object it finds at each of its steps is the next one of
    [envs]: what holds of these traces holds under every interleaving. *)
Fixpoint worker_run (func : list pyval -> exn + pyval)
    (envs : list QueuedPool) (at_ : wpc) : option (list event * wpc) :=
  match envs with
  | [] => Some ([], at_)
  | self :: envs' =>
      match _workerFunc func self at_ with
      | None => None
      | Some (e, _, at') =>
          match worker_run func envs' at' with
          | None => None
          | Some (tr, at'') => Some (e :: tr, at'')
          end
      end
  end.

(** The trace of a method until it returns or raises, or until [envs] is
    used up ([Next]: the method is still running). *)
Fixpoint method_run {PC : Type}
    (method : QueuedPool -> PC -> event * QueuedPool * outcome PC)
    (envs : list QueuedPool) (at_ : PC) : list event * outcome PC :=
  match envs with
  | [] => ([], Next at_)
  | self :: envs' =>
      match method self at_ with
      | (e, _, Next at') =>
          let (tr, o) := method_run method envs' at' in (e :: tr, o)
      | (e, _, o) => ([e], o)
      end
  end.

(** The number of events of a trace that satisfy [p]. *)
Definition count_if (p : event -> bool) (tr : list event) : nat :=
  length (List.filter p tr).

Definition is_EvActiveIncr (e : event) : bool :=
  match e with EvActiveIncr => true | _ => false end.
Definition is_EvActiveDecr (e : event) : bool :=
  match e with EvActiveDecr => true | _ => false end.
Definition is_EvCall (e : event) : bool :=
  match e with EvCall _ _ => true | _ => false end.
Definition is_EvResultPut (e : event) : bool :=
  match e with EvResultPut _ => true | _ => false end.
Definition is_EvGet_job (e : event) : bool :=
  match e with EvGet x => negb (is_None x) | _ => false end.
Definition is_EvGet_pill (e : event) : bool :=
  match e with EvGet x => is_None x | _ => false end.

(** What a worker step does to the pool object, read off its event. *)
Definition worker_effect (e : event) (self : QueuedPool) : QueuedPool :=
  match e with
  | EvActiveIncr => with_active_workers (SafeValue.increment (active_workers self)) self
  | EvActiveDecr => with_active_workers (SafeValue.decrement (active_workers self)) self
  | EvGet _ => with_input_queue (tail (input_queue self)) self
  | EvResultPut r => with_output_queue (output_queue self ++ [r]) self
  | _ => self
  end.

(** The worker loop of the specification, as the traces it allows between
    the increment and the decrement: rounds of pull, call, push and flag
    test; the last round is the pull of a pill, or a round whose flag test
    finds the stop flag set. *)
Inductive loop_trace (func : list pyval -> exn + pyval) : list event -> Prop :=
  | loop_pill : loop_trace func [EvGet PNone]
  | loop_last args l r :
      is_None args = false -> unpack args = inr l -> func l = inr r ->
      loop_trace func [EvGet args; EvCall args r; EvResultPut r; EvKillIsSet true]
  | loop_again args l r tr :
      is_None args = false -> unpack args = inr l -> func l = inr r ->
      loop_trace func tr ->
      loop_trace func
        (EvGet args :: EvCall args r :: EvResultPut r :: EvKillIsSet false :: tr).

(** The shape of what is left of a complete worker run, from each program
    point. *)
Definition rest_of_run (func : list pyval -> exn + pyval) (at_ : wpc) (tr : list event) : Prop :=
  match at_ with
  | WStart =>
      exists body, tr = EvActiveIncr :: body ++ [EvActiveDecr] /\ loop_trace func body
  | WGet =>
      exists body, tr = body ++ [EvActiveDecr] /\ loop_trace func body
  | WCall args =>
      exists body, tr = body ++ [EvActiveDecr] /\
        (is_None args = false -> loop_trace func (EvGet args :: body))
  | WPut r =>
      exists body, tr = body ++ [EvActiveDecr] /\
        forall args l, is_None args = false -> unpack args = inr l -> func l = inr r ->
          loop_trace func (EvGet args :: EvCall args r :: body)
  | WKillCheck =>
      exists body, tr = body ++ [EvActiveDecr] /\
        forall args l r, is_None args = false -> unpack args = inr l -> func l = inr r ->
          loop_trace func (EvGet args :: EvCall args r :: EvResultPut r :: body)
  | WDecr => tr = [EvActiveDecr]
  | WDone => tr = []
  | WCrashed _ => False
  end.


(** A method run by the caller alone, the object threaded from step to
    step, for at most [fuel] steps. *)
Fixpoint method_solo {PC : Type}
    (method : QueuedPool -> PC -> event * QueuedPool * outcome PC)
    (fuel : nat) (self : QueuedPool) (at_ : PC)
  : list event * QueuedPool * outcome PC :=
  match fuel with
  | O => ([], self, Next at_)
  | S fuel' =>
      match method self at_ with
      | (e, self', Next at') =>
          match method_solo method fuel' self' at' with
          | (tr, self'', o) => (e :: tr, self'', o)
          end
      | (e, self', o) => ([e], self', o)
      end
  end.

(** The values that the pulls of a [getResults] trace obtained, in order. *)
Fixpoint pulled (tr : list event) : list pyval :=
  match tr with
  | [] => []
  | EvGetNoWait (inr x) :: tr' => x :: pulled tr'
  | _ :: tr' => pulled tr'
  end.

(** ** The worker function on a job *)

(** The call of line 98 on a value pulled from the job queue. *)
Definition star_call (func : list pyval -> exn + pyval) (args : pyval) : exn + pyval :=
  match unpack args with
  | inl e => inl e
  | inr l => func l
  end.

(** ** Quantities of a system state *)

Definition is_job (x : pyval) : bool := negb (is_None x).

(** Jobs (not pills) waiting in a queue. *)
Definition jobs_queued (q : list pyval) : nat := length (List.filter is_job q).

(** A live worker that has pulled a job and not yet pushed its result. *)
Definition in_flight (w : proc) : nat :=
  if alive w then match pc w with WCall _ | WPut _ => 1%nat | _ => 0%nat end
  else 0%nat.

Definition pool_in_flight (o : option Pool) : nat :=
  match o with
  | Some p => sum_list_with in_flight (procs p)
  | None => 0%nat
  end.

(** Results that the caller holds: returned by a finished [getResults], or
    collected so far by the one that is running. *)
Definition fetched (s : system) : nat :=
  (length (concat (returned s)) +
   match mpc s with MGetResults (GetLoop results) => length results | _ => 0 end)%nat.

(** A job counted by [addJob] and not yet in the queue. *)
Definition pending_put (s : system) : nat :=
  match mpc s with MAddJob _ AddPut => 1%nat | _ => 0%nat end.

Definition is_AddJob (c : call) : bool :=
  match c with AddJob _ => true | _ => false end.

(** Calls of [addJob] that have still to count their job. *)
Definition adds_left (s : system) : nat :=
  (length (List.filter is_AddJob (script s)) +
   match mpc s with MAddJob _ AddIncr => 1 | _ => 0 end)%nat.

(** The accounting invariant of a pool that is to receive [N] jobs in all:
    the counter of submitted jobs is exact and has not wrapped, every job
    counted is at most once in the job queue, in a worker's hands, in the
    result queue or with the caller, and the pool handle is set. *)
Definition accounted (N : nat) (s : system) : Prop :=
  let T := SafeValue.value (total_jobs (workpool s)) in
  0 <= T /\
  T + Z.of_nat (adds_left s) = Z.of_nat N /\
  Z.of_nat N <= INT_MAX /\
  Z.of_nat (jobs_queued (input_queue (workpool s)) +
            pool_in_flight (pool (workpool s)) +
            length (output_queue (workpool s)) +
            fetched s + pending_put s) <= T /\
  pool (workpool s) <> None.

(** Every submitted job has its result in the result queue or with the
    caller. *)
Definition settled (s : system) : Prop :=
  Z.of_nat (length (output_queue (workpool s)) + fetched s) =
  SafeValue.value (total_jobs (workpool s)).



Definition all_dead (p : Pool) : Prop := Forall (fun w => alive w = false) (procs p).

(** The pool has as many processes as the core counter says, unless all of
    them are dead; they are all dead while [updateCoreNumber] changes the
    counter. *)
Definition staffed (s : system) : Prop :=
  match pool (workpool s) with
  | None => True
  | Some p =>
      all_dead p \/
      (length (procs p) = Z.to_nat (SafeValue.value (cores (workpool s))) /\
       match mpc s with
       | MUpdateCoreNumber _ UpdClear
       | MUpdateCoreNumber _ UpdSetCores
       | MUpdateCoreNumber _ UpdStart => False
       | _ => True
       end)
  end.






(** The caller is in a [closePool] that cannot end: the pool's processes
    are dead and a pill is, or will be, in the job queue. *)
Definition close_stuck (s : system) : Prop :=
  (match pool (workpool s) with Some p => all_dead p | None => False end) /\
  1 <= SafeValue.value (cores (workpool s)) /\
  match mpc s with
  | MClosePool ClosePoll => True
  | MClosePool (ClosePill n) => (1 <= n + length (input_queue (workpool s)))%nat
  | MClosePool CloseWait => (1 <= length (input_queue (workpool s)))%nat
  | _ => False
  end.


(** ** Concrete pools *)

(** A worker function for the examples: the square of its one integer
    argument. *)
Definition square (args : list pyval) : exn + pyval :=
  match args with
  | [PInt x] => inr (PInt (x * x))
  | _ => inl TypeError
  end.

(** Three jobs for a pool of two cores, then [closePool] and two calls of
    [getResults]; and a schedule of it in three parts: up to the poll of
    [closePool], from there to its teardown, and the rest. *)
Definition demo_jobs : list pyval := [PInt 1; PList [PInt 2]; PInt 3].

Definition demo_calls : list call :=
  map AddJob demo_jobs ++ ClosePool :: repeat GetResults 2.

Definition demo_sched0 : list actor :=
  [Manager; Worker 0; Worker 1; Manager; Manager; Worker 0; Manager; Worker 0;
   Manager; Worker 0; Manager; Worker 0; Worker 1; Manager; Worker 1; Manager;
   Worker 1; Manager; Worker 0; Worker 1; Manager; Worker 0; Manager].

Definition demo_sched1 : list actor :=
  [Worker 0; Manager; Worker 0; Manager; Worker 0; Manager; Worker 0; Worker 1;
   Manager; Worker 1; Manager].

Definition demo_sched2 : list actor := repeat Manager 9.

(** A pool object as [__init__] has it just before [startPool]: no pool
    handle yet.  The public methods never meet it. *)
Definition no_pool : QueuedPool :=
  mkQueuedPool (SafeValue.new 2) [] [] None (SafeValue.new 0) (SafeValue.new 0) false.

(** The objects that a worker finds at its seven steps when it processes
    the job [[3]] and then meets a pill. *)
Definition demo_envs : list QueuedPool :=
  [no_pool;
   with_input_queue [PList [PInt 3]; PNone] no_pool;
   no_pool; no_pool; no_pool;
   with_input_queue [PNone] no_pool;
   no_pool].

(** The objects that a worker finds at its six steps when it processes the
    job [[3]] and finds the stop flag set at its test. *)
Definition flag_envs : list QueuedPool :=
  [no_pool;
   with_input_queue [PList [PInt 3]; PList [PInt 4]] no_pool;
   no_pool; no_pool;
   with_kill_workers true (with_input_queue [PList [PInt 4]] no_pool);
   no_pool].

(** One core, no job: [closePool] at once, and the schedule in which the
    worker has pulled its pill but not yet decremented the counter when the
    caller sees the job queue empty and tears the pool down. *)
Definition race_sched : list actor :=
  [Worker 0; Manager; Manager; Manager; Manager; Manager; Worker 0; Manager; Manager].

(** The states and traces of these schedules, computed once. *)
Definition demo_s0 : system :=
  Eval vm_compute in
    match program (Some 4) (Some 2) demo_calls with
    | inr s => s
    | inl _ => mkSystem no_pool MIdle [] []
    end.

Definition demo_mid : list (actor * event) * system :=
  Eval vm_compute in
    match run square (Some 4) demo_sched0 demo_s0 with
    | Some r => r
    | None => ([], demo_s0)
    end.


Definition demo_end : list (actor * event) * system :=
  Eval vm_compute in
    match run square (Some 4) (demo_sched0 ++ demo_sched1 ++ demo_sched2) demo_s0 with
    | Some r => r
    | None => ([], demo_s0)
    end.

Definition race_s0 : system :=
  Eval vm_compute in
    match program (Some 4) (Some 1) [ClosePool] with
    | inr s => s
    | inl _ => mkSystem no_pool MIdle [] []
    end.

Definition race_end : list (actor * event) * system :=
  Eval vm_compute in
    match run square (Some 4) race_sched race_s0 with
    | Some r => r
    | None => ([], race_s0)
    end.

(** ** More quantities of a system state *)

(** The calls of [addJob] in a script. *)
Definition count_adds (calls : list call) : nat :=
  length (List.filter is_AddJob calls).

(** A submitted job is missing: it is neither queued, nor in a worker's
    hands, nor (as its result) in the result queue, nor about to be
    queued.  Its result was fetched, or the job was lost. *)
Definition short (s : system) : Prop :=
  Z.of_nat (jobs_queued (input_queue (workpool s)) +
            pool_in_flight (pool (workpool s)) +
            length (output_queue (workpool s)) +
            pending_put s) <
  SafeValue.value (total_jobs (workpool s)).

(** The caller is in [closePool], past its poll. *)
Definition past_poll (m : mgr_pc) : bool :=
  match m with
  | MClosePool (ClosePill _) | MClosePool CloseWait | MClosePool CloseJoin => true
  | _ => false
  end.

(** The result queue is as long as the counter of submitted jobs says. *)
Definition caught_up (s : system) : Prop :=
  Z.of_nat (length (output_queue (workpool s))) =
  SafeValue.value (total_jobs (workpool s)).

(** Past the poll of [closePool] the result queue is complete. *)
Definition poll_inv (s : system) : Prop :=
  past_poll (mpc s) = true -> caught_up s.

(** A call of the worker function that raised.  The worker's process ends
    with it; as the model has it, no process takes its place. *)
Definition is_failed_call (ae : actor * event) : bool :=
  match ae with (Worker _, EvCallRaise _ _) => true | _ => false end.

Definition is_caught_up_event (ae : actor * event) : bool :=
  match ae with (Manager, EvCaughtUp true) => true | _ => false end.

(** ** More concrete pools *)

(** One core, one job; [getResults] once the result is there, and then
    [closePool], which polls three times. *)
Definition fetch_calls : list call := [AddJob (PInt 3); GetResults; ClosePool].

Definition fetch_sched0 : list actor :=
  [Manager; Manager; Manager; Worker 0; Worker 0; Worker 0; Worker 0; Worker 0;
   Manager; Manager; Manager; Manager].

Definition fetch_sched1 : list actor := repeat Manager 5.

Definition fetch_s0 : system :=
  Eval vm_compute in
    match program (Some 4) (Some 1) fetch_calls with
    | inr s => s
    | inl _ => mkSystem no_pool MIdle [] []
    end.

Definition fetch_mid : list (actor * event) * system :=
  Eval vm_compute in
    match run square (Some 4) fetch_sched0 fetch_s0 with
    | Some r => r
    | None => ([], fetch_s0)
    end.

Definition fetch_end : list (actor * event) * system :=
  Eval vm_compute in
    match run square (Some 4) fetch_sched1 (snd fetch_mid) with
    | Some r => r
    | None => ([], fetch_s0)
    end.

(** One core, and a job on which [square] raises; then [closePool], which
    polls twice. *)
Definition fail_calls : list call := [AddJob (PStr "a"); ClosePool].

Definition fail_sched0 : list actor :=
  [Manager; Manager; Manager; Worker 0; Worker 0; Worker 0].

Definition fail_sched1 : list actor := repeat Manager 4.

Definition fail_s0 : system :=
  Eval vm_compute in
    match program (Some 4) (Some 1) fail_calls with
    | inr s => s
    | inl _ => mkSystem no_pool MIdle [] []
    end.

Definition fail_mid : list (actor * event) * system :=
  Eval vm_compute in
    match run square (Some 4) fail_sched0 fail_s0 with
    | Some r => r
    | None => ([], fail_s0)
    end.

Definition fail_end : list (actor * event) * system :=
  Eval vm_compute in
    match run square (Some 4) fail_sched1 (snd fail_mid) with
    | Some r => r
    | None => ([], fail_s0)
    end.

(** ** A resize on an idle pool *)

(** A live worker that has not yet made its increment. *)
Definition is_starting (w : proc) : bool :=
  alive w && match pc w with WStart => true | _ => false end.

(** A worker that is dead, at its start, or at its pull. *)
Definition starting_or_waiting (w : proc) : bool :=
  negb (alive w) || match pc w with WStart | WGet => true | _ => false end.

(** The caller is in [updateCoreNumber], before the teardown; the job
    queue is empty; every live worker is at its start or at its pull; the
    counter of active workers is at least 1 and has room for the workers
    that have still to start. *)
Definition idle_resize (s : system) : Prop :=
  (exists c at_, mpc s = MUpdateCoreNumber c at_ /\ (at_ = UpdSetKill \/ at_ = UpdWait)) /\
  input_queue (workpool s) = [] /\
  exists p,
    pool (workpool s) = Some p /\
    List.forallb starting_or_waiting (procs p) = true /\
    1 <= SafeValue.value (active_workers (workpool s)) /\
    SafeValue.value (active_workers (workpool s)) +
      Z.of_nat (length (List.filter is_starting (procs p))) <= INT_MAX.

(** Two cores, no job, [updateCoreNumber(3)]: the first worker has started
    when the caller enters the method; then the caller and the second
    worker move. *)
Definition idle_calls : list call := [UpdateCoreNumber (Some 3)].

Definition idle_s0 : system :=
  Eval vm_compute in
    match program (Some 4) (Some 2) idle_calls with
    | inr s => s
    | inl _ => mkSystem no_pool MIdle [] []
    end.

Definition idle_mid : list (actor * event) * system :=
  Eval vm_compute in
    match run square (Some 4) [Worker 0; Manager] idle_s0 with
    | Some r => r
    | None => ([], idle_s0)
    end.

Definition idle_sched : list actor :=
  [Manager; Manager; Worker 1; Manager; Manager; Manager].

Definition idle_end : list (actor * event) * system :=
  Eval vm_compute in
    match run square (Some 4) idle_sched (snd idle_mid) with
    | Some r => r
    | None => ([], idle_s0)
    end.

(** ** The outcomes of the submitted jobs *)

(** The jobs that the calls of [addJob] in a script submit, in order. *)
Fixpoint jobs_of (calls : list call) : list pyval :=
  match calls with
  | [] => []
  | AddJob job :: rest => job :: jobs_of rest
  | _ :: rest => jobs_of rest
  end.

(** What the worker function gives on a job as [addJob] queues it: a
    result, or an exception. *)
Definition outcome_of (func : list pyval -> exn + pyval) (job : pyval) : exn + pyval :=
  star_call func (wrap_job job).

(** What a live worker holds: the outcome of the job that it has pulled
    and is about to call the worker function on, or the result that it is
    about to push. *)
Definition held (func : list pyval -> exn + pyval) (w : proc) : list (exn + pyval) :=
  if alive w then
    match pc w with
    | WCall args => [star_call func args]
    | WPut r => [inr r]
    | _ => []
    end
  else [].

Definition pool_held (func : list pyval -> exn + pyval) (o : option Pool)
  : list (exn + pyval) :=
  match o with
  | Some p => concat (map (held func) (procs p))
  | None => []
  end.

(** The results that the running [getResults] has collected so far. *)
Definition collecting (m : mgr_pc) : list pyval :=
  match m with MGetResults (GetLoop results) => results | _ => [] end.

(** The job of the running [addJob]. *)
Definition submitting (m : mgr_pc) : list pyval :=
  match m with MAddJob job _ => [job] | _ => [] end.

(** Where the outcomes of the submitted jobs are, oldest first: returned to
    the caller, collected by the running [getResults], in the result queue,
    in the hands of the workers, still to come from the jobs in the job
    queue, and from the job that [addJob] is about to queue. *)
Definition owed (func : list pyval -> exn + pyval) (s : system) : list (exn + pyval) :=
  map inr (concat (returned s)) ++
  map inr (collecting (mpc s)) ++
  map inr (output_queue (workpool s)) ++
  pool_held func (pool (workpool s)) ++
  map (star_call func) (List.filter is_job (input_queue (workpool s))) ++
  map (outcome_of func) (submitting (mpc s)).

(** A call that leaves the pool with one process at most: every call but a
    resize to more than one core. *)
Definition one_core (cpu_count : option Z) (c : call) : bool :=
  match c with
  | UpdateCoreNumber (Some n) => c_int n <=? 1
  | UpdateCoreNumber None =>
      match cpu_count with Some n => c_int n <=? 1 | None => true end
  | _ => true
  end.

(** The pool has one process at most, and the caller will not ask for
    more. *)
Definition single (cpu_count : option Z) (s : system) : Prop :=
  SafeValue.value (cores (workpool s)) <= 1 /\
  (forall p, pool (workpool s) = Some p -> (length (procs p) <= 1)%nat) /\
  forallb (one_core cpu_count) (script s) = true /\
  match mpc s with
  | MUpdateCoreNumber c _ => one_core cpu_count (UpdateCoreNumber c) = true
  | _ => True
  end.

(** ** More concrete runs *)

(** One core, two jobs, [closePool], [getResults]: the worker does both
    jobs, then the pool is closed and the results are fetched. *)
Definition order_calls : list call :=
  [AddJob (PInt 3); AddJob (PInt 4); ClosePool; GetResults].

Definition order_sched : list actor :=
  repeat Manager 6 ++ repeat (Worker 0) 9 ++ repeat Manager 5 ++
  repeat (Worker 0) 2 ++ repeat Manager 7.

Definition order_s0 : system :=
  Eval vm_compute in
    match program (Some 4) (Some 1) order_calls with
    | inr s => s
    | inl _ => mkSystem no_pool MIdle [] []
    end.

Definition order_end : list (actor * event) * system :=
  Eval vm_compute in
    match run square (Some 4) order_sched order_s0 with
    | Some r => r
    | None => ([], order_s0)
    end.

(** ** The arguments of the calls *)

(** The arguments that the worker function gets for a job: the elements of
    a list, and any other value as the one argument. *)
Definition args_of (job : pyval) : list pyval :=
  match job with
  | PList l => l
  | _ => [job]
  end.

(** A value of the job queue or in a worker's hands that is the queued
    form of a job of [jobs]. *)
Definition queued_form_of (jobs : list pyval) (x : pyval) : Prop :=
  exists job, In job jobs /\ x = wrap_job job.

(** What a call event of a worker says, for the jobs [jobs]: the call was
    the worker function on the arguments of one of the jobs, and the
    exception, if any, is the one of the worker function. *)
Definition call_of_a_job (func : list pyval -> exn + pyval) (jobs : list pyval)
    (ae : actor * event) : Prop :=
  match snd ae with
  | EvCall args r =>
      exists job, In job jobs /\ args = wrap_job job /\ func (args_of job) = inr r
  | EvCallRaise args x =>
      exists job, In job jobs /\ args = wrap_job job /\ func (args_of job) = inl x
  | _ => True
  end.

(** The job queue holds pills and jobs of the script, the workers that are
    at their call have jobs of the script, and so has the caller. *)
Definition jobs_known (calls : list call) (s : system) : Prop :=
  Forall (fun x => x = PNone \/ queued_form_of (jobs_of calls) x)
         (input_queue (workpool s)) /\
  (forall p, pool (workpool s) = Some p ->
     Forall (fun w => forall args, pc w = WCall args ->
                        queued_form_of (jobs_of calls) args) (procs p)) /\
  (forall job, In job (jobs_of (script s)) -> In job (jobs_of calls)) /\
  (forall job at_, mpc s = MAddJob job at_ -> In job (jobs_of calls)).

(** ** A resize after a worker was stopped before its decrement *)

(** The caller is in [updateCoreNumber], before the teardown; every process
    of the pool is stopped, and the counter of active workers is above
    0. *)
Definition resize_blocked (s : system) : Prop :=
  (exists c at_, mpc s = MUpdateCoreNumber c at_ /\ (at_ = UpdSetKill \/ at_ = UpdWait)) /\
  0 < SafeValue.value (active_workers (workpool s)) /\
  exists p, pool (workpool s) = Some p /\ all_dead p.

(** One core, [closePool] at once with the schedule [race_sched], in which
    the worker is stopped before its decrement; then [updateCoreNumber(2)],
    which polls the counter. *)
Definition blocked_calls : list call := [ClosePool; UpdateCoreNumber (Some 2)].

Definition blocked_s0 : system :=
  Eval vm_compute in
    match program (Some 4) (Some 1) blocked_calls with
    | inr s => s
    | inl _ => mkSystem no_pool MIdle [] []
    end.

Definition blocked_mid : list (actor * event) * system :=
  Eval vm_compute in
    match run square (Some 4) (race_sched ++ [Manager]) blocked_s0 with
    | Some r => r
    | None => ([], blocked_s0)
    end.

Definition blocked_end : list (actor * event) * system :=
  Eval vm_compute in
    match run square (Some 4) (repeat Manager 4) (snd blocked_mid) with
    | Some r => r
    | None => ([], blocked_s0)
    end.

(** ** A resize that overtakes a starting worker *)

(** One core and one job, then [updateCoreNumber(2)] at once: the caller
    reads 0 from the counter of active workers before the worker has
    started; the worker starts and pulls the job; the teardown stops it.
    Then [closePool], which polls. *)
Definition lost_calls : list call :=
  [AddJob (PInt 3); UpdateCoreNumber (Some 2); ClosePool].

Definition lost_sched0 : list actor := repeat Manager 6 ++ repeat (Worker 0) 2.

Definition lost_sched1 : list actor := repeat Manager 8.

Definition lost_s0 : system :=
  Eval vm_compute in
    match program (Some 4) (Some 1) lost_calls with
    | inr s => s
    | inl _ => mkSystem no_pool MIdle [] []
    end.

Definition lost_mid : list (actor * event) * system :=
  Eval vm_compute in
    match run square (Some 4) lost_sched0 lost_s0 with
    | Some r => r
    | None => ([], lost_s0)
    end.

Definition lost_end : list (actor * event) * system :=
  Eval vm_compute in
    match run square (Some 4) lost_sched1 (snd lost_mid) with
    | Some r => r
    | None => ([], lost_s0)
    end.

(** ** A second closePool, and a resize that drops a job *)

(** One core; [closePool], with every step of the worker before the
    teardown, and then [closePool] again. *)
Definition twice_calls : list call := [ClosePool; ClosePool].

Definition twice_sched : list actor :=
  [Worker 0; Manager; Manager; Manager; Manager; Manager; Worker 0; Worker 0;
   Manager; Manager; Manager].

Definition twice_s0 : system :=
  Eval vm_compute in
    match program (Some 4) (Some 1) twice_calls with
    | inr s => s
    | inl _ => mkSystem no_pool MIdle [] []
    end.

Definition twice_mid : list (actor * event) * system :=
  Eval vm_compute in
    match run square (Some 4) twice_sched twice_s0 with
    | Some r => r
    | None => ([], twice_s0)
    end.

Definition twice_end : list (actor * event) * system :=
  Eval vm_compute in
    match run square (Some 4) (repeat Manager 6) (snd twice_mid) with
    | Some r => r
    | None => ([], twice_s0)
    end.

(** The run of [lost_calls] when [updateCoreNumber] has just been called,
    and when it has returned. *)
Definition drop_start : list (actor * event) * system :=
  Eval vm_compute in
    match run square (Some 4) (repeat Manager 4) lost_s0 with
    | Some r => r
    | None => ([], lost_s0)
    end.

Definition drop_end : list (actor * event) * system :=
  Eval vm_compute in
    match run square (Some 4) (lost_sched0 ++ repeat Manager 4) lost_s0 with
    | Some r => r
    | None => ([], lost_s0)
    end.

(* ===================================================================== *)
(** * The queues as the library has them *)

(** The definitions above take a queue as the list of the items that were
    put and not yet pulled: that is what [qsize] counts, and it bounds
    what can ever be pulled.  It is not what a reader finds.  In
    [multiprocessing.Queue] (queues.py) [put] only counts the item and
    appends it to a buffer of the putting process; a feeder thread of that
    process writes the buffer to a pipe; [get] and [empty] look at the
    pipe.  A process that is terminated takes its buffer with it, and
    leaves in the pipe the first part of a message that it was writing.

    [Wire] has the queues at this level, and the pool on top of them.  Its
    steps are steps of the program, and every run of it is a run of the
    program; it does not have all of them: a worker takes the read lock of
    the job queue and receives in one step (so that the teardown never
    finds the lock held), the pipe is taken to have room for every message
    but an overlong one, and the rest of an overlong message is written in
    one step, when the reader has come to it. *)

Module Wire.

(** A message in a pipe. *)
Inductive message : Type :=
  | Whole (x : pyval)   (* all its bytes are in the pipe *)
  | Part (x : pyval).   (* its first bytes are; the sender has not finished *)

(** The shared part of a [multiprocessing.Queue]: the semaphore [_sem] (as
    the number of items put and not yet got), the pipe, and the two
    locks. *)
Record Queue : Type := mkQueue {
  sem : nat;
  pipe : list message;
  rlock : bool;
  wlock : bool
}.

(** One process's side of a queue that it puts to: [_buffer], and the
    object that its feeder thread has taken from the buffer and is
    sending, the write lock held. *)
Record feeder : Type := mkFeeder {
  buffer : list pyval;
  sending : option pyval
}.

Definition new_Queue : Queue := mkQueue 0 [] false false.
Definition new_feeder : feeder := mkFeeder [] None.

(** [q.qsize()] (queues.py 124-126): the semaphore. *)
Definition qsize (q : Queue) : nat := sem q.

(** [q.empty()] (queues.py 128-129): [not self._poll()], whether the pipe
    has no bytes. *)
Definition empty (q : Queue) : bool :=
  match pipe q with
  | [] => true
  | _ :: _ => false
  end.

(** [q.put(obj)] (queues.py 86-96): the semaphore is taken and the object
    is appended to the buffer of the calling process.  (The semaphore has
    room for [SEM_VALUE_MAX] items, 2^31 - 1; the bound is left out.) *)
Definition put (x : pyval) (q : Queue) (f : feeder) : Queue * feeder :=
  (mkQueue (S (sem q)) (pipe q) (rlock q) (wlock q),
   mkFeeder (buffer f ++ [x]) (sending f)).

(** How a call of [get] stands. *)
Inductive got : Type :=
  | Got (x : pyval) (q : Queue)    (* it returns x, and leaves the queue q *)
  | Raised (e : exn) (q : Queue)   (* it raises e, and leaves the queue q *)
  | Waits.                         (* it cannot go on as the queue is *)

(** [q.get(block)] with no timeout (queues.py 98-122).  With [block] it
    waits for the read lock and then in [_recv_bytes] for a whole message.
    Without, it raises [Empty] when the read lock is taken or the pipe has
    no bytes; when the pipe has bytes it goes into [_recv_bytes] all the
    same, and waits there for the rest of a message that is in the pipe
    only in part.  After the message the semaphore is released, which
    raises [ValueError] when nothing is counted (the semaphore is a
    bounded one); the message is lost then. *)
Definition get (block : bool) (q : Queue) : got :=
  if rlock q then (if block then Waits else Raised Empty q)
  else
    match pipe q with
    | [] => if block then Waits else Raised Empty q
    | Whole x :: rest =>
        match sem q with
        | S n => Got x (mkQueue n rest false (wlock q))
        | O => Raised ValueError (mkQueue 0 rest false (wlock q))
        end
    | Part _ :: _ => Waits
    end.

(** The capacity of a pipe, in bytes (Linux). *)
Definition PIPE_CAPACITY : nat := (2 ^ 16)%nat.

(** A value whose pickle is longer than the pipe: a string of as many
    characters as the pipe has bytes. *)
Definition overlong (x : pyval) : bool :=
  match x with
  | PStr s => (PIPE_CAPACITY <=? String.length s)%nat
  | _ => false
  end.

(** What the feeder thread does ([Queue._feed], queues.py 212-272): it
    takes the head of its buffer, takes the write lock, writes the message
    and releases the lock.  The write of an overlong message stops after a
    part, the pipe full and the lock held ([SendBegin]); it goes on only
    as a reader takes what is in the pipe, and ends when a thread is
    receiving from the queue and has come to this message ([SendEnd]). *)
Inductive feed_action : Type :=
  | SendWhole
  | SendBegin
  | SendEnd.

(** A step of the feeder thread: the object written, and the queue and the
    thread's side of it afterwards.  [reader]: a thread is receiving from
    the queue.  (A part in the pipe is of the message that the thread
    which holds the write lock is sending.) *)
Definition _feed (a : feed_action) (reader : bool) (q : Queue) (f : feeder)
  : option (pyval * Queue * feeder) :=
  match a, sending f, buffer f with
  | SendWhole, None, x :: b =>
      if wlock q || overlong x then None
      else Some (x, mkQueue (sem q) (pipe q ++ [Whole x]) (rlock q) false,
                 mkFeeder b None)
  | SendBegin, None, x :: b =>
      if wlock q || negb (overlong x) then None
      else Some (x, mkQueue (sem q) (pipe q ++ [Part x]) (rlock q) true,
                 mkFeeder b (Some x))
  | SendEnd, Some _, b =>
      if reader then
        match pipe q with
        | [Part x] => Some (x, mkQueue (sem q) [Whole x] (rlock q) false, mkFeeder b None)
        | _ => None
        end
      else None
  | _, _, _ => None
  end.

(** A worker process: where it is in [_workerFunc], whether it lives, and
    its side of the result queue. *)
Record proc : Type := mkProc { pc : wpc; alive : bool; out : feeder }.

Record Pool : Type := mkPool { pstate : pool_state; procs : list proc }.

(** The fields of a [QueuedPool] object; [input_feeder] is the caller's
    side of the job queue. *)
Record QueuedPool : Type := mkQueuedPool {
  cores : SafeValue.t;
  input_queue : Queue;
  input_feeder : feeder;
  output_queue : Queue;
  pool : option Pool;
  total_jobs : SafeValue.t;
  active_workers : SafeValue.t;
  kill_workers : bool
}.

Definition with_cores (c : SafeValue.t) (q : QueuedPool) : QueuedPool :=
  mkQueuedPool c (input_queue q) (input_feeder q) (output_queue q) (pool q)
    (total_jobs q) (active_workers q) (kill_workers q).
Definition with_input (l : Queue) (f : feeder) (q : QueuedPool) : QueuedPool :=
  mkQueuedPool (cores q) l f (output_queue q) (pool q)
    (total_jobs q) (active_workers q) (kill_workers q).
Definition with_output_queue (l : Queue) (q : QueuedPool) : QueuedPool :=
  mkQueuedPool (cores q) (input_queue q) (input_feeder q) l (pool q)
    (total_jobs q) (active_workers q) (kill_workers q).
Definition with_pool (p : option Pool) (q : QueuedPool) : QueuedPool :=
  mkQueuedPool (cores q) (input_queue q) (input_feeder q) (output_queue q) p
    (total_jobs q) (active_workers q) (kill_workers q).
Definition with_total_jobs (c : SafeValue.t) (q : QueuedPool) : QueuedPool :=
  mkQueuedPool (cores q) (input_queue q) (input_feeder q) (output_queue q) (pool q)
    c (active_workers q) (kill_workers q).
Definition with_active_workers (c : SafeValue.t) (q : QueuedPool) : QueuedPool :=
  mkQueuedPool (cores q) (input_queue q) (input_feeder q) (output_queue q) (pool q)
    (total_jobs q) c (kill_workers q).
Definition with_kill_workers (b : bool) (q : QueuedPool) : QueuedPool :=
  mkQueuedPool (cores q) (input_queue q) (input_feeder q) (output_queue q) (pool q)
    (total_jobs q) (active_workers q) b.

(** [pool.close(); pool.terminate(); pool.join()]: every worker process is
    stopped where it stands, and its feeder thread with it: what is in its
    buffer is never written, and a message that it was writing stays in
    the pipe in part, the write lock held. *)
Definition kill (w : proc) : proc := mkProc (pc w) false (out w).

Definition teardown (p : Pool) : Pool := mkPool TERMINATE (map kill (procs p)).

(** [multiprocessing.Pool(n, initializer, initargs)]: [n] fresh processes,
    their buffers empty. *)
Definition new_Pool (n : Z) : exn + Pool :=
  if n <? 1 then inl ValueError
  else inr (mkPool RUN (repeat (mkProc WStart true new_feeder) (Z.to_nat n))).

Section Methods.

Variable func : list pyval -> exn + pyval.
Variable cpu_count : option Z.

(** [_workerFunc] (lines 83-107), in a process whose side of the result
    queue is [f]. *)
Definition _workerFunc (self : QueuedPool) (f : feeder) (at_ : wpc)
  : option (event * QueuedPool * feeder * wpc) :=
  match at_ with
  | WStart =>
      Some (EvActiveIncr,
            with_active_workers (SafeValue.increment (active_workers self)) self,
            f, WGet)
  | WGet =>
      match get true (input_queue self) with
      | Got args q =>
          Some (EvGet args, with_input q (input_feeder self) self, f,
                if is_None args then WDecr else WCall args)
      | Raised e q =>
          Some (EvRaise e, with_input q (input_feeder self) self, f, WCrashed e)
      | Waits => None
      end
  | WCall args =>
      match unpack args with
      | inl e => Some (EvCallRaise args e, self, f, WCrashed e)
      | inr l =>
          match func l with
          | inl e => Some (EvCallRaise args e, self, f, WCrashed e)
          | inr result => Some (EvCall args result, self, f, WPut result)
          end
      end
  | WPut result =>
      match put result (output_queue self) f with
      | (q, f') => Some (EvResultPut result, with_output_queue q self, f', WKillCheck)
      end
  | WKillCheck =>
      Some (EvKillIsSet (kill_workers self), self, f,
            if kill_workers self then WDecr else WGet)
  | WDecr =>
      Some (EvActiveDecr,
            with_active_workers (SafeValue.decrement (active_workers self)) self,
            f, WDone)
  | WDone | WCrashed _ => None
  end.

Definition startPool (self : QueuedPool) : exn + QueuedPool :=
  match new_Pool (SafeValue.value (cores self)) with
  | inl e => inl e
  | inr p => inr (with_pool (Some p) self)
  end.

Definition __init__ (cores_arg : option Z) : exn + QueuedPool :=
  match (match cores_arg with
         | Some n => inr (Some n)
         | None =>
             match call_cpu_count cpu_count with
             | inr n => inr (Some n)
             | inl e => inl e
             end
         end) with
  | inl e => inl e
  | inr cores_arg =>
      let cores_arg := match cores_arg with Some n => n | None => 1 end in
      startPool (mkQueuedPool (SafeValue.new cores_arg) new_Queue new_feeder new_Queue
                   None (SafeValue.new 0) (SafeValue.new 0) false)
  end.

(** [addJob] (lines 185-197). *)
Definition addJob (job : pyval) (self : QueuedPool) (at_ : addJob_pc)
  : event * QueuedPool * outcome addJob_pc :=
  match at_ with
  | AddIncr =>
      (EvTotalIncr,
       with_total_jobs (SafeValue.increment (total_jobs self)) self,
       Next AddPut)
  | AddPut =>
      match put (wrap_job job) (input_queue self) (input_feeder self) with
      | (q, f) => (EvJobPut (wrap_job job), with_input q f self, Return None)
      end
  end.

(** [getResults] (lines 201-216).  [None]: the call waits in
    [output_queue.get(False)]. *)
Definition getResults (self : QueuedPool) (at_ : getResults_pc)
  : option (event * QueuedPool * outcome getResults_pc) :=
  match at_ with
  | GetEmpty =>
      if empty (output_queue self)
      then Some (EvOutEmpty true, self, Return (Some []))
      else Some (EvOutEmpty false, self, Next (GetLoop []))
  | GetLoop results =>
      match get false (output_queue self) with
      | Got x q =>
          Some (EvGetNoWait (inr x), with_output_queue q self,
                Next (GetLoop (results ++ [x])))
      | Raised e q =>
          Some (EvGetNoWait (inl e), with_output_queue q self, Return (Some results))
      | Waits => None
      end
  end.

(** [closePool] (lines 119-148). *)
Definition closePool (self : QueuedPool) (at_ : closePool_pc)
  : event * QueuedPool * outcome closePool_pc :=
  match at_ with
  | CloseGuard =>
      match pool self with
      | Some _ => (EvPoolIsNone false, self, Next ClosePoll)
      | None => (EvPoolIsNone true, self, Return None)
      end
  | ClosePoll =>
      if Z.of_nat (qsize (output_queue self)) =? SafeValue.value (total_jobs self)
      then (EvCaughtUp true, self,
            Next (ClosePill (Z.to_nat (SafeValue.value (cores self)))))
      else (EvCaughtUp false, self, Next ClosePoll)
  | ClosePill (S n) =>
      match put PNone (input_queue self) (input_feeder self) with
      | (q, f) => (EvJobPut PNone, with_input q f self, Next (ClosePill n))
      end
  | ClosePill O => (EvRangeDone, self, Next CloseWait)
  | CloseWait =>
      match qsize (input_queue self) with
      | O => (EvInQsize 0, self, Next CloseJoin)
      | S n => (EvInQsize (S n), self, Next CloseWait)
      end
  | CloseJoin =>
      match pool self with
      | Some p => (EvTeardown, with_pool (Some (teardown p)) self, Return None)
      | None => (EvRaise AttributeError, self, Raise AttributeError)
      end
  end.

(** [updateCoreNumber] (lines 152-181). *)
Definition updateCoreNumber (cores_arg : option Z) (self : QueuedPool)
    (at_ : updateCoreNumber_pc)
  : event * QueuedPool * outcome updateCoreNumber_pc :=
  match at_ with
  | UpdSetKill => (EvKillSet, with_kill_workers true self, Next UpdWait)
  | UpdWait =>
      (EvActiveRead (SafeValue.value (active_workers self)), self,
       if 0 <? SafeValue.value (active_workers self)
       then Next UpdWait else Next UpdJoin)
  | UpdJoin =>
      match pool self with
      | Some p => (EvTeardown, with_pool (Some (teardown p)) self, Next UpdClear)
      | None => (EvRaise AttributeError, self, Raise AttributeError)
      end
  | UpdClear => (EvKillClear, with_kill_workers false self, Next UpdSetCores)
  | UpdSetCores =>
      match (match cores_arg with
             | Some n => inr n
             | None => call_cpu_count cpu_count
             end) with
      | inr n =>
          (EvCoresSet n, with_cores (SafeValue.set (cores self) n) self,
           Next UpdStart)
      | inl e => (EvRaise e, self, Raise e)
      end
  | UpdStart =>
      match startPool self with
      | inr self' =>
          (EvStartPool (SafeValue.value (cores self)), self', Return None)
      | inl e => (EvRaise e, self, Raise e)
      end
  end.

End Methods.

(** The pool object, the caller's position, the calls still to make, and
    the lists that [getResults] has returned. *)
Record system : Type := mkSystem {
  workpool : QueuedPool;
  mpc : mgr_pc;
  script : list call;
  returned : list (list pyval)
}.

(** Who moves: the caller's thread, a worker's main thread, or the feeder
    thread of the caller or of a worker. *)
Inductive actor : Type :=
  | Manager
  | Worker (i : nat)
  | ManagerFeeder (a : feed_action)
  | WorkerFeeder (i : nat) (a : feed_action).

(** What a step shows: an event of the caller or of a worker, the object
    that a feeder thread writes, or that the pool has replaced a
    process. *)
Inductive shown : Type :=
  | Did (e : event)
  | Wrote (a : feed_action) (x : pyval)
  | Replaced.

Definition resume {PC : Type} (inside : PC -> mgr_pc) (s : system)
    (r : event * QueuedPool * outcome PC) : shown * system :=
  match r with
  | (e, self', Next p) => (Did e, mkSystem self' (inside p) (script s) (returned s))
  | (e, self', Return (Some l)) =>
      (Did e, mkSystem self' MIdle (script s) (returned s ++ [l]))
  | (e, self', Return None) => (Did e, mkSystem self' MIdle (script s) (returned s))
  | (e, self', Raise x) => (Did e, mkSystem self' (MRaised x) (script s) (returned s))
  end.

Section System.

Variable func : list pyval -> exn + pyval.
Variable cpu_count : option Z.

Definition manager_step (s : system) : option (shown * system) :=
  match mpc s with
  | MIdle =>
      match script s with
      | [] => None
      | c :: rest =>
          Some (Did (EvBegin c), mkSystem (workpool s) (entry c) rest (returned s))
      end
  | MAddJob job at_ => Some (resume (MAddJob job) s (addJob job (workpool s) at_))
  | MGetResults at_ =>
      match getResults (workpool s) at_ with
      | Some r => Some (resume MGetResults s r)
      | None => None
      end
  | MClosePool at_ => Some (resume MClosePool s (closePool (workpool s) at_))
  | MUpdateCoreNumber c at_ =>
      Some (resume (MUpdateCoreNumber c) s (updateCoreNumber cpu_count c (workpool s) at_))
  | MRaised _ => None
  end.

(** One step of a process of the pool: a step of [_workerFunc]; or, when
    an exception has left [_workerFunc], the process has written what it
    had put and has exited, and the pool is running, a fresh process in
    its place ([Pool._maintain_pool], pool.py 333-343). *)
Definition process_step (running : bool) (self : QueuedPool) (f : feeder) (at_ : wpc)
  : option (shown * QueuedPool * feeder * wpc) :=
  match _workerFunc func self f at_ with
  | Some (e, self', f', at') => Some (Did e, self', f', at')
  | None =>
      match at_, buffer f, sending f with
      | WCrashed _, [], None =>
          if running then Some (Replaced, self, new_feeder, WStart) else None
      | _, _, _ => None
      end
  end.

Definition is_RUN (st : pool_state) : bool :=
  match st with RUN => true | _ => false end.

(** One step of the [i]-th process of the pool. *)
Definition worker_step (i : nat) (s : system) : option (shown * system) :=
  match pool (workpool s) with
  | None => None
  | Some p =>
      match procs p !! i with
      | None => None
      | Some w =>
          if alive w then
            match process_step (is_RUN (pstate p)) (workpool s) (out w) (pc w) with
            | None => None
            | Some (e, self', f', pc') =>
                Some (e,
                      mkSystem
                        (with_pool
                           (Some (mkPool (pstate p) (<[i := mkProc pc' true f']> (procs p))))
                           self')
                        (mpc s) (script s) (returned s))
            end
          else None
      end
  end.

(** A live worker is at its pull: it receives from the job queue. *)
Definition pulling (w : proc) : bool :=
  alive w && match pc w with WGet => true | _ => false end.

Definition input_reader (s : system) : bool :=
  match pool (workpool s) with
  | Some p => existsb pulling (procs p)
  | None => false
  end.

(** The caller is at a pull of [getResults], the read lock free: it
    receives from the result queue. *)
Definition output_reader (s : system) : bool :=
  match mpc s with
  | MGetResults (GetLoop _) => negb (rlock (output_queue (workpool s)))
  | _ => false
  end.

(** One step of the caller's feeder thread, on the job queue. *)
Definition manager_feeder_step (a : feed_action) (s : system) : option (shown * system) :=
  match _feed a (input_reader s) (input_queue (workpool s)) (input_feeder (workpool s)) with
  | Some (x, q, f) =>
      Some (Wrote a x, mkSystem (with_input q f (workpool s)) (mpc s) (script s) (returned s))
  | None => None
  end.

(** One step of the feeder thread of the [i]-th process, on the result
    queue. *)
Definition worker_feeder_step (i : nat) (a : feed_action) (s : system)
  : option (shown * system) :=
  match pool (workpool s) with
  | None => None
  | Some p =>
      match procs p !! i with
      | None => None
      | Some w =>
          if alive w then
            match _feed a (output_reader s) (output_queue (workpool s)) (out w) with
            | Some (x, q, f) =>
                Some (Wrote a x,
                      mkSystem
                        (with_pool
                           (Some (mkPool (pstate p)
                                    (<[i := mkProc (pc w) true f]> (procs p))))
                           (with_output_queue q (workpool s)))
                        (mpc s) (script s) (returned s))
            | None => None
            end
          else None
      end
  end.

Definition step (a : actor) (s : system) : option (shown * system) :=
  match a with
  | Manager => manager_step s
  | Worker i => worker_step i s
  | ManagerFeeder f => manager_feeder_step f s
  | WorkerFeeder i f => worker_feeder_step i f s
  end.

Fixpoint run (sched : list actor) (s : system)
  : option (list (actor * shown) * system) :=
  match sched with
  | [] => Some ([], s)
  | a :: sched' =>
      match step a s with
      | None => None
      | Some (e, s') =>
          match run sched' s' with
          | None => None
          | Some (tr, s'') => Some ((a, e) :: tr, s'')
          end
      end
  end.

Definition program (cores_arg : option Z) (calls : list call) : exn + system :=
  match __init__ cpu_count cores_arg with
  | inl e => inl e
  | inr q => inr (mkSystem q MIdle calls [])
  end.

End System.

(** [getResults] under arbitrary interference: the trace and the outcome
    of the method when the object it finds at each of its steps is the
    next one of [envs]; [None]: it waits at one of them. *)
Fixpoint getResults_run (envs : list QueuedPool) (at_ : getResults_pc)
  : option (list event * outcome getResults_pc) :=
  match envs with
  | [] => Some ([], Next at_)
  | self :: envs' =>
      match getResults self at_ with
      | None => None
      | Some (e, _, Next at') =>
          match getResults_run envs' at' with
          | None => None
          | Some (tr, o) => Some (e :: tr, o)
          end
      | Some (e, _, o) => Some ([e], o)
      end
  end.

(** [getResults] alone, for at most [fuel] steps; [None]: it waits. *)
Fixpoint getResults_solo (fuel : nat) (self : QueuedPool) (at_ : getResults_pc)
  : option (list event * QueuedPool * outcome getResults_pc) :=
  match fuel with
  | O => Some ([], self, Next at_)
  | S fuel' =>
      match getResults self at_ with
      | None => None
      | Some (e, self', Next at') =>
          match getResults_solo fuel' self' at' with
          | None => None
          | Some (tr, self'', o) => Some (e :: tr, self'', o)
          end
      | Some (e, self', o) => Some ([e], self', o)
      end
  end.

(** ** Quantities of a state *)

(** The value that a message carries. *)
Definition payload (m : message) : pyval :=
  match m with Whole x | Part x => x end.

(** The jobs (not pills) that were put to the job queue and that no worker
    has pulled: in the pipe, or still in the buffer of the caller. *)
Definition jobs_waiting (q : Queue) (f : feeder) : nat :=
  jobs_queued (map payload (pipe q) ++ buffer f).

(** A live worker that has pulled a job and not yet put its result. *)
Definition in_flight (w : proc) : nat :=
  if alive w then match pc w with WCall _ | WPut _ => 1%nat | _ => 0%nat end
  else 0%nat.

Definition pool_in_flight (o : option Pool) : nat :=
  match o with
  | Some p => sum_list_with in_flight (procs p)
  | None => 0%nat
  end.

(** Results that the caller holds: returned by a finished [getResults], or
    collected so far by the one that is running. *)
Definition fetched (s : system) : nat :=
  (length (concat (returned s)) +
   match mpc s with MGetResults (GetLoop results) => length results | _ => 0 end)%nat.

(** A job counted by [addJob] and not yet put. *)
Definition pending_put (s : system) : nat :=
  match mpc s with MAddJob _ AddPut => 1%nat | _ => 0%nat end.

(** Calls of [addJob] that have still to count their job. *)
Definition adds_left (s : system) : nat :=
  (length (List.filter is_AddJob (script s)) +
   match mpc s with MAddJob _ AddIncr => 1 | _ => 0 end)%nat.

(** The accounting invariant of a pool that is to receive [N] jobs in all:
    the counter of submitted jobs is exact and has not wrapped, every job
    counted is at most once waiting in the job queue, in a worker's hands,
    counted by the result queue or with the caller, and the pool handle is
    set. *)
Definition accounted (N : nat) (s : system) : Prop :=
  let T := SafeValue.value (total_jobs (workpool s)) in
  0 <= T /\
  T + Z.of_nat (adds_left s) = Z.of_nat N /\
  Z.of_nat N <= INT_MAX /\
  Z.of_nat (jobs_waiting (input_queue (workpool s)) (input_feeder (workpool s)) +
            pool_in_flight (pool (workpool s)) +
            qsize (output_queue (workpool s)) +
            fetched s + pending_put s) <= T /\
  pool (workpool s) <> None.

(** Past the poll of [closePool] the result queue counts as many results
    as jobs were submitted. *)
Definition poll_inv (s : system) : Prop :=
  past_poll (mpc s) = true ->
  Z.of_nat (qsize (output_queue (workpool s))) =
  SafeValue.value (total_jobs (workpool s)).

(** ** Three runs *)

(** One job for a pool of one core, then [closePool] and [getResults]. *)
Definition late_calls : list call := [AddJob (PInt 3); ClosePool; GetResults].

Definition late_s0 : system :=
  Eval vm_compute in
    match program (Some 4) (Some 1) late_calls with
    | inr s => s
    | inl _ => mkSystem (mkQueuedPool (SafeValue.new 1) new_Queue new_feeder new_Queue
                           None (SafeValue.new 0) (SafeValue.new 0) false) MIdle [] []
    end.

(** A schedule of it in which the feeder thread of the worker does not
    get to run between the worker's [put] and the teardown: the caller
    adds the job and its feeder thread writes it; the worker pulls it,
    calls the function, puts the result and tests the flag; the caller
    enters [closePool] and goes as far as the wait of line 136, and its
    feeder thread writes the pill; the worker pulls the pill and
    decrements; the caller finishes [closePool] and calls [getResults]. *)
Definition late_sched0 : list actor :=
  repeat Manager 3 ++ [ManagerFeeder SendWhole] ++ repeat (Worker 0) 5 ++
  repeat Manager 5 ++ [ManagerFeeder SendWhole] ++ repeat (Worker 0) 2 ++
  [Manager].

Definition late_sched : list actor := late_sched0 ++ repeat Manager 3.

(** The run at the teardown of [closePool]. *)
Definition late_to_join : list (actor * shown) * system :=
  Eval vm_compute in
    match run square (Some 4) late_sched0 late_s0 with
    | Some r => r
    | None => ([], late_s0)
    end.

Definition late_end : list (actor * shown) * system :=
  Eval vm_compute in
    match run square (Some 4) late_sched late_s0 with
    | Some r => r
    | None => ([], late_s0)
    end.

(** The threads that there are in a pool of one core, each with the steps
    that it can try. *)
Definition late_actors : list actor :=
  [Manager; Worker 0;
   ManagerFeeder SendWhole; ManagerFeeder SendBegin; ManagerFeeder SendEnd;
   WorkerFeeder 0 SendWhole; WorkerFeeder 0 SendBegin; WorkerFeeder 0 SendEnd].

(** A worker function whose result is a string as long as the pipe. *)
Definition long_str : string :=
  string_of_list_ascii (repeat "x"%char PIPE_CAPACITY).

Definition long_result (args : list pyval) : exn + pyval := inr (PStr long_str).

(** The same calls when the result of the job is [x], an overlong one, and
    the feeder thread of the worker has begun to write it when the pool is
    torn down: the schedule up to there, and the rest of it. *)
Definition torn_sched0 : list actor :=
  repeat Manager 3 ++ [ManagerFeeder SendWhole] ++ repeat (Worker 0) 5.

Definition torn_sched1 : list actor :=
  repeat Manager 5 ++ [ManagerFeeder SendWhole] ++ repeat (Worker 0) 2 ++
  repeat Manager 4.

Definition torn_sched : list actor :=
  torn_sched0 ++ WorkerFeeder 0 SendBegin :: torn_sched1.

(** The pool of these runs: one core, one job counted, the job queue and
    the caller's buffer empty. *)
Definition late_pool (st : pool_state) (w : proc) (results : Queue) (active : Z)
  : QueuedPool :=
  mkQueuedPool (SafeValue.mk 1) new_Queue new_feeder results
    (Some (mkPool st [w])) (SafeValue.mk 1) (SafeValue.mk active) false.

(** The worker has put [x]. *)
Definition torn_mid (x : pyval) : system :=
  mkSystem
    (late_pool RUN (mkProc WGet true (mkFeeder [x] None)) (mkQueue 1 [] false false) 1)
    MIdle [ClosePool; GetResults] [].

(** Its feeder thread has written a part of [x]. *)
Definition torn_begun (x : pyval) : system :=
  mkSystem
    (late_pool RUN (mkProc WGet true (mkFeeder [] (Some x)))
       (mkQueue 1 [Part x] false true) 1)
    MIdle [ClosePool; GetResults] [].

(** [closePool] has returned and [getResults] is at its first pull. *)
Definition torn_state (x : pyval) : system :=
  mkSystem
    (late_pool TERMINATE (mkProc WDone false (mkFeeder [] (Some x)))
       (mkQueue 1 [Part x] false true) 0)
    (MGetResults (GetLoop [])) [] [].

Definition torn_trace (x : pyval) : list (actor * shown) :=
  [(Manager, Did (EvBegin (AddJob (PInt 3))));
   (Manager, Did EvTotalIncr);
   (Manager, Did (EvJobPut (PList [PInt 3])));
   (ManagerFeeder SendWhole, Wrote SendWhole (PList [PInt 3]));
   (Worker 0, Did EvActiveIncr);
   (Worker 0, Did (EvGet (PList [PInt 3])));
   (Worker 0, Did (EvCall (PList [PInt 3]) x));
   (Worker 0, Did (EvResultPut x));
   (Worker 0, Did (EvKillIsSet false));
   (WorkerFeeder 0 SendBegin, Wrote SendBegin x);
   (Manager, Did (EvBegin ClosePool));
   (Manager, Did (EvPoolIsNone false));
   (Manager, Did (EvCaughtUp true));
   (Manager, Did (EvJobPut PNone));
   (Manager, Did EvRangeDone);
   (ManagerFeeder SendWhole, Wrote SendWhole PNone);
   (Worker 0, Did (EvGet PNone));
   (Worker 0, Did EvActiveDecr);
   (Manager, Did (EvInQsize 0));
   (Manager, Did EvTeardown);
   (Manager, Did (EvBegin GetResults));
   (Manager, Did (EvOutEmpty false))].

(** The worker lives on: [getResults] in place of [closePool].  The caller
    comes to its pull and waits there ([through_wait]); the feeder thread
    of the worker writes the rest of the result; the pull returns it and
    the next one finds the pipe empty. *)
Definition through_calls : list call := [AddJob (PInt 3); GetResults].

Definition through_s0 : system :=
  mkSystem (workpool late_s0) MIdle through_calls [].

Definition through_sched0 : list actor :=
  torn_sched0 ++ WorkerFeeder 0 SendBegin :: repeat Manager 2.

Definition through_sched1 : list actor :=
  WorkerFeeder 0 SendEnd :: repeat Manager 2.

Definition through_wait (x : pyval) : system :=
  mkSystem
    (late_pool RUN (mkProc WGet true (mkFeeder [] (Some x)))
       (mkQueue 1 [Part x] false true) 1)
    (MGetResults (GetLoop [])) [] [].

Definition through_end (x : pyval) : system :=
  mkSystem
    (late_pool RUN (mkProc WGet true new_feeder) (mkQueue 0 [] false false) 1)
    MIdle [] [[x]].

(** A pool object for [getResults]: two whole results in the pipe of the
    result queue, and then what is in [rest]. *)
Definition pulls_pool (rest : list message) : QueuedPool :=
  late_pool RUN (mkProc WGet true new_feeder)
    (mkQueue 3 (Whole (PInt 1) :: Whole (PInt 4) :: rest) false false) 1.

End Wire.

(* ===================================================================== *)
(** * Properties *)
(* ===================================================================== *)

(** ** The counter *)

Lemma c_int_id (z : Z) : INT_MIN <= z <= INT_MAX -> c_int z = z.
Proof.
  unfold c_int, INT_MIN, INT_MAX. intros H.
  rewrite Z.mod_small; lia.
Qed.

Lemma c_int_range (z : Z) : INT_MIN <= c_int z <= INT_MAX.
Proof.
  unfold c_int, INT_MIN, INT_MAX.
  pose proof (Z.mod_pos_bound (z + 2 ^ 31) (2 ^ 32)). lia.
Qed.

(** ** The worker loop *)

Section WorkerLoop.

Variable func : list pyval -> exn + pyval.

Lemma loop_trace_counts (body : list event) :
  loop_trace func body ->
  count_if is_EvActiveIncr body = 0%nat /\
  count_if is_EvActiveDecr body = 0%nat /\
  count_if is_EvCall body = count_if is_EvGet_job body /\
  count_if is_EvResultPut body = count_if is_EvCall body /\
  count_if is_EvGet_pill body = (1 - count_if (fun e => match e with EvKillIsSet true => true | _ => false end) body)%nat.
Proof.
  unfold count_if.
  induction 1 as [| args l r Hn Hu Hf | args l r tr Hn Hu Hf Htr IH]; simpl.
  - repeat split; reflexivity.
  - rewrite Hn. simpl. repeat split; reflexivity.
  - rewrite Hn. simpl. destruct IH as (? & ? & ? & ? & ?). repeat split; lia.
Qed.

Lemma worker_run_shape (envs : list QueuedPool) :
  forall at_ tr, worker_run func envs at_ = Some (tr, WDone) -> rest_of_run func at_ tr.
Proof.
  induction envs as [| self envs IH]; intros at_ tr H; simpl in H.
  - inversion H; subst. reflexivity.
  - destruct (_workerFunc func self at_) as [[[e self'] at']|] eqn:Hstep; [|discriminate].
    destruct (worker_run func envs at') as [[tr' at'']|] eqn:Hrun; [|discriminate].
    inversion H; subst at'' tr; clear H.
    apply IH in Hrun.
    destruct at_; simpl in Hstep.
    + (* WStart *)
      inversion Hstep; subst. destruct Hrun as (body & -> & Hb).
      exists body. split; [reflexivity | assumption].
    + (* WGet *)
      destruct (input_queue self) as [| args q]; [discriminate|].
      inversion Hstep; subst. destruct (is_None args) eqn:Hn.
      * destruct args; try discriminate. simpl in Hrun. subst tr'.
        exists [EvGet PNone]. split; [reflexivity | constructor].
      * destruct Hrun as (body & -> & Hb).
        exists (EvGet args :: body). split; [reflexivity | auto].
    + (* WCall *)
      destruct (unpack args) as [x | l] eqn:Hu.
      { inversion Hstep; subst. destruct Hrun. }
      destruct (func l) as [x | r] eqn:Hf.
      { inversion Hstep; subst. destruct Hrun. }
      inversion Hstep; subst. destruct Hrun as (body & -> & Hb).
      exists (EvCall args r :: body). split; [reflexivity | eauto].
    + (* WPut *)
      inversion Hstep; subst. destruct Hrun as (body & -> & Hb).
      exists (EvResultPut result :: body). split; [reflexivity | eauto].
    + (* WKillCheck *)
      destruct (kill_workers self); inversion Hstep; subst.
      * simpl in Hrun. subst tr'.
        exists [EvKillIsSet true]. split; [reflexivity|].
        intros. eapply loop_last; eauto.
      * destruct Hrun as (body & -> & Hb).
        exists (EvKillIsSet false :: body). split; [reflexivity|].
        intros. eapply loop_again; eauto.
    + (* WDecr *)
      inversion Hstep; subst. simpl in Hrun. subst. reflexivity.
    + discriminate.
    + discriminate.
Qed.

Lemma count_if_app (p : event -> bool) (l1 l2 : list event) :
  count_if p (l1 ++ l2) = (count_if p l1 + count_if p l2)%nat.
Proof. unfold count_if. rewrite List.filter_app, length_app. reflexivity. Qed.

(** C3.  A worker that runs [_workerFunc] to its end, whatever the other
    actors do meanwhile, produces the trace of the specified loop: one
    increment of the active-worker counter first and one decrement last;
    in between, rounds of a pull, a call of the worker function on the
    unpacked value, one push of its result and one test of the stop flag.
    A pulled pill ends the loop with no call and no push; a round ends the
    loop exactly when its test finds the flag set.  Each step writes to
    the pool object what its event says, a pull takes the head of the
    job queue, and the flag test reports the pool's stop flag.

    And the worker does run to its end: it always has a next step, except
    at the pull, where it waits for a value, and once it has left the
    function.  From the test of the stop flag it decrements and leaves
    when the flag is set, and goes back to the pull when it is not; when
    the pull gives a pill it decrements and leaves; when the pull gives a
    job it calls the worker function and pushes the result, unless the
    call raises. *)
Theorem workerFunc_follows_loop (envs : list QueuedPool) (tr : list event) :
  (worker_run func envs WStart = Some (tr, WDone) ->
   (exists body,
       tr = EvActiveIncr :: body ++ [EvActiveDecr] /\ loop_trace func body) /\
   count_if is_EvActiveIncr tr = 1%nat /\
   count_if is_EvActiveDecr tr = 1%nat /\
   count_if is_EvCall tr = count_if is_EvGet_job tr /\
   count_if is_EvResultPut tr = count_if is_EvCall tr /\
   (count_if is_EvGet_pill tr <= 1)%nat) /\
  (forall self at_ e self' at',
      _workerFunc func self at_ = Some (e, self', at') ->
      self' = worker_effect e self /\
      (forall x, e = EvGet x -> input_queue self = x :: input_queue self') /\
      (forall b, e = EvKillIsSet b -> b = kill_workers self)) /\
  (forall self at_,
      _workerFunc func self at_ = None ->
      at_ = WGet \/ at_ = WDone \/ exists e, at_ = WCrashed e) /\
  (forall self self',
      kill_workers self = true ->
      worker_run func [self; self'] WKillCheck =
        Some ([EvKillIsSet true; EvActiveDecr], WDone)) /\
  (forall self,
      kill_workers self = false ->
      worker_run func [self] WKillCheck = Some ([EvKillIsSet false], WGet)) /\
  (forall self self' q,
      input_queue self = PNone :: q ->
      worker_run func [self; self'] WGet = Some ([EvGet PNone; EvActiveDecr], WDone)) /\
  (forall self self' self'' args q l,
      input_queue self = args :: q -> is_None args = false -> unpack args = inr l ->
      match func l with
      | inr r =>
          worker_run func [self; self'; self''] WGet =
            Some ([EvGet args; EvCall args r; EvResultPut r], WKillCheck)
      | inl e =>
          worker_run func [self; self'] WGet =
            Some ([EvGet args; EvCallRaise args e], WCrashed e)
      end).
Proof.
  split; [|repeat apply conj].
  - intros H. apply worker_run_shape in H. destruct H as (body & -> & Hb).
    pose proof (loop_trace_counts body Hb) as (Hi & Hd & Hc & Hp & Hg).
    split; [exists body; auto|].
    change (EvActiveIncr :: body ++ [EvActiveDecr])
      with ([EvActiveIncr] ++ body ++ [EvActiveDecr]).
    rewrite !count_if_app.
    repeat apply conj; unfold count_if in *; simpl; lia.
  - intros self at_ e self' at' H.
    destruct at_; simpl in H;
      repeat match type of H with
             | match ?x with _ => _ end = _ => destruct x eqn:?; try discriminate
             end;
      inversion H; subst;
      (split; [try reflexivity | split; [try discriminate | try discriminate]]).
    + unfold worker_effect.
      match goal with E : input_queue _ = _ |- _ => rewrite E end. reflexivity.
    + intros x Hx. inversion Hx; subst. reflexivity.
    + intros b Hk. inversion Hk; subst. reflexivity.
  - intros self at_ H. destruct at_; simpl in H; try discriminate;
      repeat match type of H with
             | match ?x with _ => _ end = _ => destruct x eqn:?; try discriminate
             end; eauto.
  - intros self self' E. simpl. rewrite E. reflexivity.
  - intros self E. simpl. rewrite E. reflexivity.
  - intros self self' q E. simpl. rewrite E. reflexivity.
  - intros self self' self'' args q l E Hn Hu.
    destruct (func l) as [e | r] eqn:Hf; simpl; rewrite E, Hn; simpl; rewrite Hu, Hf;
      reflexivity.
Qed.

End WorkerLoop.

(** ** addJob *)

Lemma wrap_job_not_None (job : pyval) : is_None (wrap_job job) = false.
Proof. destruct job; reflexivity. Qed.

Lemma increment_exact (c : SafeValue.t) :
  INT_MIN <= SafeValue.value c < INT_MAX ->
  SafeValue.value (SafeValue.increment c) = SafeValue.value c + 1.
Proof.
  intros H. simpl. apply c_int_id.
  unfold SafeValue.value, INT_MIN, INT_MAX in *. lia.
Qed.

(** C6.  Whatever the other actors do meanwhile, a call of [addJob] makes
    two steps and returns: one increment of the total-submitted counter
    (by exactly one, as long as the C int has room) and one push of the
    job at the tail of the job queue.  A job that is not a list (so every
    value that is not a sequence, and [None] too) is pushed as the
    one-element list that holds it; what is pushed is never [None]. *)
Theorem addJob_counts_then_pushes (job : pyval) :
  (forall envs tr v,
      method_run (addJob job) envs AddIncr = (tr, Return v) ->
      tr = [EvTotalIncr; EvJobPut (wrap_job job)] /\ v = None) /\
  (forall self,
      addJob job self AddIncr =
        (EvTotalIncr,
         with_total_jobs (SafeValue.increment (total_jobs self)) self,
         Next AddPut) /\
      addJob job self AddPut =
        (EvJobPut (wrap_job job),
         with_input_queue (input_queue self ++ [wrap_job job]) self,
         Return None)) /\
  (forall c, INT_MIN <= SafeValue.value c < INT_MAX ->
             SafeValue.value (SafeValue.increment c) = SafeValue.value c + 1) /\
  wrap_job job <> PNone /\
  (is_sequence job = false -> wrap_job job = PList [job]) /\
  (isinstance_list job = false -> wrap_job job = PList [job]) /\
  (isinstance_list job = true -> wrap_job job = job) /\
  wrap_job PNone = PList [PNone].
Proof.
  repeat apply conj.
  - intros envs tr v H.
    destruct envs as [| self1 [| self2 envs]]; simpl in H; inversion H; auto.
  - intros self. split; reflexivity.
  - apply increment_exact.
  - intros H. pose proof (wrap_job_not_None job) as Hn. rewrite H in Hn. discriminate.
  - destruct job; simpl; intros; try reflexivity; discriminate.
  - unfold wrap_job. intros ->. reflexivity.
  - unfold wrap_job. intros ->. reflexivity.
  - reflexivity.
Qed.

(** Case analysis on the innermost tests of a step, in hypothesis [H]. *)
Ltac break_step H :=
  repeat match type of H with
         | context [match ?x with _ => _ end] =>
             lazymatch x with
             | context [match _ with _ => _ end] => fail
             | _ => destruct x eqn:?; simpl in H; try discriminate
             end
         end.

(** ** Runs of the system *)

Section Runs.

Variable func : list pyval -> exn + pyval.
Variable cpu_count : option Z.

(** A property that every step keeps holds at the end of every run. *)
Lemma run_preserves (P : system -> Prop) :
  (forall a s e s', P s -> step func cpu_count a s = Some (e, s') -> P s') ->
  forall sched s tr s',
    P s -> run func cpu_count sched s = Some (tr, s') -> P s'.
Proof.
  intros Hstep. induction sched as [| a sched IH]; intros s tr s' HP Hrun; simpl in Hrun.
  - inversion Hrun; subst. assumption.
  - destruct (step func cpu_count a s) as [[e s1]|] eqn:Hs; [|discriminate].
    destruct (run func cpu_count sched s1) as [[tr1 s2]|] eqn:Hr; [|discriminate].
    inversion Hrun; subst. eapply IH; [|eassumption]. eapply Hstep; eassumption.
Qed.


(** A worker step changes neither the caller's position nor what the
    caller alone writes, and leaves the pool handle set. *)
Lemma worker_step_frame (i : nat) (s : system) (e : event) (s' : system) :
  worker_step func i s = Some (e, s') ->
  mpc s' = mpc s /\ script s' = script s /\ returned s' = returned s /\
  cores (workpool s') = cores (workpool s) /\
  total_jobs (workpool s') = total_jobs (workpool s) /\
  kill_workers (workpool s') = kill_workers (workpool s) /\
  pool (workpool s') <> None /\
  exists p w at' self',
    pool (workpool s) = Some p /\ procs p !! i = Some w /\ alive w = true /\
    _workerFunc func (workpool s) (pc w) = Some (e, self', at') /\
    input_queue (workpool s') = input_queue self' /\
    output_queue (workpool s') = output_queue self' /\
    active_workers (workpool s') = active_workers self' /\
    pool (workpool s') = Some (mkPool (pstate p) (<[i := mkProc at' true]> (procs p))).
Proof.
  unfold worker_step. intros H.
  destruct (pool (workpool s)) as [p|] eqn:Hp; [|discriminate].
  destruct (procs p !! i) as [w|] eqn:Hw; [|discriminate].
  destruct (alive w) eqn:Ha; [|discriminate].
  destruct (_workerFunc func (workpool s) (pc w)) as [[[e' self'] at']|] eqn:Hf; [|discriminate].
  inversion H; subst; clear H. simpl.
  assert (cores self' = cores (workpool s) /\
          total_jobs self' = total_jobs (workpool s) /\
          kill_workers self' = kill_workers (workpool s)) as (Hc & Ht & Hk).
  { destruct (pc w); simpl in Hf;
      repeat match type of Hf with
             | match ?x with _ => _ end = _ => destruct x eqn:?; try discriminate
             end;
      inversion Hf; subst; auto. }
  repeat apply conj; auto.
  exists p, w, at', self'. repeat apply conj; auto.
Qed.

(** The pool handle, once set, stays set. *)
Lemma pool_stays_set (a : actor) (s : system) (e : event) (s' : system) :
  pool (workpool s) <> None ->
  step func cpu_count a s = Some (e, s') ->
  pool (workpool s') <> None.
Proof.
  intros Hp H. destruct a as [| i]; simpl in H.
  - unfold manager_step in H. destruct s as [q m sc ret]; simpl in *.
    destruct m as [| job [] | [] | [] | c [] |]; simpl in H;
      repeat match type of H with
             | context [match ?x with _ => _ end] => destruct x eqn:?; simpl in H
             end;
      inversion H; subst; simpl; try assumption; try discriminate; try congruence.
    unfold startPool in *.
    destruct (new_Pool (SafeValue.value (cores q))); inversion Heqs; subst.
    simpl. discriminate.
  - apply worker_step_frame in H. tauto.
Qed.

Lemma init_sets_pool (c : option Z) (q : QueuedPool) :
  __init__ cpu_count c = inr q ->
  exists p, pool q = Some p /\ pstate p = RUN /\
    procs p = repeat (mkProc WStart true) (Z.to_nat (SafeValue.value (cores q))) /\
    1 <= SafeValue.value (cores q) /\
    input_queue q = [] /\ output_queue q = [] /\
    SafeValue.value (total_jobs q) = 0 /\
    SafeValue.value (active_workers q) = 0 /\
    kill_workers q = false.
Proof.
  unfold __init__, call_cpu_count, startPool, new_Pool.
  destruct c as [m|]; [|destruct cpu_count as [m|]; [|discriminate]]; simpl.
  all: set (n := c_int _); destruct (n <? 1) eqn:Hn; [discriminate|].
  all: intros H; inversion H; subst; clear H; simpl.
  all: eexists; repeat apply conj; try reflexivity; lia.
Qed.

End Runs.

(** ** Accounting of jobs and results *)

Lemma sum_list_with_insert {A : Type} (f : A -> nat) (l : list A) :
  forall i w w', l !! i = Some w ->
    (sum_list_with f (<[i := w']> l) + f w = sum_list_with f l + f w')%nat.
Proof.
  induction l as [| x l IH]; intros [| i] w w' H; simpl in *; try discriminate.
  - inversion H; subst. lia.
  - specialize (IH i w w' H). lia.
Qed.

Lemma in_flight_killed (l : list proc) : sum_list_with in_flight (map kill l) = 0%nat.
Proof. induction l as [| w l IH]; simpl; [reflexivity | rewrite IH; reflexivity]. Qed.

Lemma in_flight_fresh (n : nat) :
  sum_list_with in_flight (repeat (mkProc WStart true) n) = 0%nat.
Proof. induction n as [| n IH]; simpl; [reflexivity | assumption]. Qed.

Lemma jobs_queued_put (x : pyval) (q : list pyval) :
  jobs_queued (put x q) = (jobs_queued q + if is_job x then 1 else 0)%nat.
Proof.
  unfold jobs_queued, put. rewrite List.filter_app, length_app. simpl.
  destruct (is_job x); reflexivity.
Qed.

Lemma length_concat_snoc (ll : list (list pyval)) (l : list pyval) :
  length (concat (ll ++ [l])) = (length (concat ll) + length l)%nat.
Proof. rewrite concat_app, length_app. simpl. rewrite app_nil_r. reflexivity. Qed.

Lemma wrap_job_is_job (job : pyval) : is_job (wrap_job job) = true.
Proof. destruct job; reflexivity. Qed.

Section Accounting.

Variable func : list pyval -> exn + pyval.
Variable cpu_count : option Z.

Lemma accounted_manager (N : nat) (s : system) (e : event) (s' : system) :
  accounted N s -> manager_step cpu_count s = Some (e, s') -> accounted N s'.
Proof.
  unfold accounted, fetched, pending_put, adds_left, manager_step.
  destruct s as [q m sc ret]; simpl.
  intros (H0 & HN & HM & Hacc & Hp) H.
  destruct m as [| job [] | [] | [] | c [] |]; simpl in H;
    unfold get_nowait, startPool, new_Pool in H;
    break_step H;
    inversion H; subst; clear H; simpl in *.
  all: repeat match goal with E : _ = _ |- _ => rewrite E end.
  all: unfold SafeValue.value, INT_MAX in *; simpl in *.
  all: rewrite ?length_concat_snoc, ?jobs_queued_put, ?length_app, ?in_flight_killed,
         ?in_flight_fresh, ?wrap_job_is_job; simpl.
  all: try (rewrite c_int_id by (unfold INT_MIN, INT_MAX; lia)).
  all: repeat apply conj; try assumption; try discriminate; try lia.
  all: destruct c; simpl in *; lia.
Qed.

Lemma in_flight_le (l : list proc) (i : nat) (w : proc) :
  l !! i = Some w -> (in_flight w <= sum_list_with in_flight l)%nat.
Proof.
  revert i. induction l as [| x l IH]; intros [| i] H; simpl in *; try discriminate.
  - inversion H; subst. lia.
  - specialize (IH i H). lia.
Qed.

Lemma in_flight_mk (at_ : wpc) (al : bool) :
  in_flight (mkProc at_ al) =
  if al then match at_ with WCall _ | WPut _ => 1%nat | _ => 0%nat end else 0%nat.
Proof. reflexivity. Qed.

Lemma accounted_worker (N : nat) (i : nat) (s : system) (e : event) (s' : system) :
  accounted N s -> worker_step func i s = Some (e, s') -> accounted N s'.
Proof.
  unfold accounted, fetched, pending_put, adds_left.
  intros (H0 & HN & HM & Hacc & Hp) H.
  apply worker_step_frame in H.
  destruct H as (Hm & Hsc & Hret & Hc & Ht & Hk & Hp' & p & w & at' & self' &
                 Epool & Ew & Ealive & Estep & Ein & Eout & Eact & Epool').
  rewrite Hm, Hsc, Hret, Ht, Ein, Eout, Epool'. rewrite Epool in Hacc.
  simpl in *.
  pose proof (sum_list_with_insert in_flight (procs p) i w (mkProc at' true) Ew) as Hsum.
  repeat apply conj; try assumption; try discriminate.
  destruct w as [at_ al]; simpl in *; subst al.
  rewrite !in_flight_mk in Hsum.
  destruct at_; simpl in Estep; break_step Estep; inversion Estep; subst; clear Estep;
    simpl in *;
    repeat match goal with E : input_queue _ = _ |- _ => rewrite E in * end;
    unfold jobs_queued, put in *; simpl in *;
    repeat match goal with E : is_None _ = _ |- _ => unfold is_job in *; rewrite E in * end;
    simpl in *; rewrite ?length_app in *; simpl in *; try lia.
Qed.

Lemma accounted_step (N : nat) (a : actor) (s : system) (e : event) (s' : system) :
  accounted N s -> step func cpu_count a s = Some (e, s') -> accounted N s'.
Proof.
  destruct a; simpl; [apply accounted_manager | apply accounted_worker].
Qed.

(** Once every job is settled, no worker step touches the result
    queue. *)
Lemma settled_worker (N : nat) (i : nat) (s : system) (e : event) (s' : system) :
  accounted N s -> settled s -> worker_step func i s = Some (e, s') ->
  output_queue (workpool s') = output_queue (workpool s) /\ settled s'.
Proof.
  unfold accounted, settled, fetched.
  intros (H0 & HN & HM & Hacc & Hp) Hs H.
  apply worker_step_frame in H.
  destruct H as (Hm & Hsc & Hret & Hc & Ht & Hk & Hp' & p & w & at' & self' &
                 Epool & Ew & Ealive & Estep & Ein & Eout & Eact & Epool').
  rewrite Hm, Hret, Ht, Eout. rewrite Epool in Hacc. simpl in Hacc.
  pose proof (in_flight_le (procs p) i w Ew) as Hle.
  assert (output_queue self' = output_queue (workpool s)) as ->.
  { destruct w as [at_ al]; simpl in *; subst al. rewrite in_flight_mk in Hle.
    destruct at_; simpl in Estep; break_step Estep; inversion Estep; subst;
      try reflexivity.
    unfold fetched in *. lia. }
  split; [reflexivity | assumption].
Qed.

End Accounting.

(** ** The shutdown protocol of closePool *)

Section Closing.

Variable func : list pyval -> exn + pyval.
Variable cpu_count : option Z.



Lemma all_dead_not_alive (p : Pool) (i : nat) (w : proc) :
  all_dead p -> procs p !! i = Some w -> alive w = true -> False.
Proof.
  unfold all_dead. intros Hd Hw Ha.
  rewrite Forall_lookup in Hd. specialize (Hd i w Hw). congruence.
Qed.

Lemma teardown_all_dead (p : Pool) : all_dead (teardown p).
Proof.
  unfold all_dead, teardown. simpl. apply Forall_forall.
  intros w Hw. apply list_elem_of_fmap in Hw. destruct Hw as (w0 & -> & _). reflexivity.
Qed.

Lemma staffed_step (a : actor) (s : system) (e : event) (s' : system) :
  staffed s -> step func cpu_count a s = Some (e, s') -> staffed s'.
Proof.
  intros Hst H. destruct a as [| i]; simpl in H.
  - unfold manager_step in H. unfold staffed in *.
    destruct s as [q m sc ret]; simpl in *.
    destruct m as [| job [] | [] | [] | c [] |]; simpl in H;
      unfold get_nowait, startPool, new_Pool in H; break_step H;
      inversion H; subst; clear H; simpl in *;
      repeat match goal with E : pool _ = _ |- _ => rewrite E in * end;
      try assumption; try exact I;
      try (left; apply teardown_all_dead);
      try solve [destruct (pool q); [|exact I]; intuition auto].
    all: try solve [destruct Hst as [Hd | [Hl Hf]]; [left; assumption | contradiction]].
    all: try solve [right; rewrite repeat_length; auto].
    destruct c; simpl; destruct (pool q); intuition auto.
  - pose proof (worker_step_frame func i s e s' H)
      as (Hm & Hsc & Hret & Hc & Ht & Hk & Hp' & p & w & at' & self' &
          Epool & Ew & Ealive & Estep & Ein & Eout & Eact & Epool').
    unfold staffed in *. rewrite Epool', Hm, Hc. rewrite Epool in Hst. simpl.
    destruct Hst as [Hd | [Hl Hf]].
    + exfalso. eapply all_dead_not_alive; eassumption.
    + right. rewrite length_insert. auto.
Qed.


End Closing.

Section Protocol.

Variable func : list pyval -> exn + pyval.
Variable cpu_count : option Z.

Lemma program_invariants (c : option Z) (calls : list call) (s0 : system) :
  program cpu_count c calls = inr s0 ->
  forall sched tr s,
    run func cpu_count sched s0 = Some (tr, s) ->
    staffed s /\ pool (workpool s) <> None.
Proof.
  unfold program. destruct (__init__ cpu_count c) as [x | q] eqn:Hi; [discriminate|].
  intros H sched tr s Hrun. inversion H; subst; clear H.
  destruct (init_sets_pool cpu_count c q Hi)
    as (p & Hp & Hst & Hpr & Hc & _).
  eapply (run_preserves func cpu_count
            (fun s => staffed s /\ pool (workpool s) <> None)); [| |eassumption].
  - intros a s1 e s2 [H1 H2] Hstep. split.
    + eapply staffed_step; eassumption.
    + eapply pool_stays_set; eassumption.
  - split.
    + unfold staffed. simpl. rewrite Hp. right. rewrite Hpr, repeat_length. auto.
    + simpl. rewrite Hp. discriminate.
Qed.


(** A [closePool] on a pool whose processes are all dead, with a core
    count of at least 1, stays in [closePool] for ever. *)
Lemma close_stuck_step (a : actor) (s : system) (e : event) (s' : system) :
  close_stuck s -> step func cpu_count a s = Some (e, s') -> close_stuck s'.
Proof.
  unfold close_stuck. intros (Hd & Hc & Hm) H. destruct a as [| i]; simpl in H.
  - unfold manager_step in H. destruct s as [q m sc ret]; simpl in *.
    destruct m as [| job [] | [] | [] | c [] |]; try contradiction;
      simpl in H; break_step H; inversion H; subst; clear H; simpl in *;
      unfold put; rewrite ?length_app; simpl;
      repeat apply conj; try assumption; try exact I; try lia.
    rewrite Heql. simpl. lia.
  - pose proof (worker_step_frame func i s e s' H)
      as (_ & _ & _ & _ & _ & _ & _ & p & w & _ & _ & Epool & Ew & Ealive & _).
    rewrite Epool in Hd. exfalso. eapply all_dead_not_alive; eassumption.
Qed.

End Protocol.

(** ** updateCoreNumber *)

Section Resize.

Variable func : list pyval -> exn + pyval.
Variable cpu_count : option Z.

(** [updateCoreNumber] run alone on a pool whose active-worker counter is
    not positive: six steps, and a new pool of [n] fresh processes. *)
Lemma updateCoreNumber_alone (n : Z) (self : QueuedPool) (p : Pool) :
  pool self = Some p ->
  SafeValue.value (active_workers self) <= 0 ->
  1 <= n <= INT_MAX ->
  method_solo (updateCoreNumber cpu_count (Some n)) 6 self UpdSetKill =
    ([EvKillSet; EvActiveRead (SafeValue.value (active_workers self));
      EvTeardown; EvKillClear; EvCoresSet n; EvStartPool n],
     mkQueuedPool (SafeValue.mk n) (input_queue self) (output_queue self)
       (Some (mkPool RUN (repeat (mkProc WStart true) (Z.to_nat n))))
       (total_jobs self) (active_workers self) false,
     Return None).
Proof.
  intros Hp Ha Hn.
  assert ((0 <? SafeValue.value (active_workers self)) = false) as Hz by lia.
  assert ((n <? 1) = false) as Hn1 by lia.
  simpl. rewrite Hz. simpl. rewrite Hp. simpl.
  unfold startPool, new_Pool, SafeValue.set. simpl.
  rewrite !(c_int_id n) by (unfold INT_MIN, INT_MAX in *; lia).
  rewrite Hn1. reflexivity.
Qed.

End Resize.

(** ** The core count *)

(** C8, as the code has it.  A core count that is given is never
    replaced, also when it is invalid or not positive: the constructor and
    the resize store it as it is, as a C int, and when that is below 1 the
    pool constructor rejects it, so that the construction, or the resize
    at its last step, ends with a [ValueError].  Only an omitted core
    count is replaced, by the number of processors that the platform
    reports; the pool then has that many cores, 1 at least.  (When the
    platform cannot tell the number, [multiprocessing.cpu_count()] raises
    [NotImplementedError], and so do the constructor and the resize.) *)
Theorem only_an_omitted_core_count_is_replaced (cpu_count : option Z) :
  (forall n,
      __init__ cpu_count (Some n) =
        if c_int n <? 1 then inl ValueError
        else inr (mkQueuedPool (SafeValue.mk (c_int n)) [] []
                    (Some (mkPool RUN (repeat (mkProc WStart true) (Z.to_nat (c_int n)))))
                    (SafeValue.mk 0) (SafeValue.mk 0) false)) /\
  __init__ cpu_count None =
    match cpu_count with
    | Some m => __init__ cpu_count (Some m)
    | None => inl NotImplementedError
    end /\
  (forall q,
      __init__ cpu_count None = inr q ->
      exists m, cpu_count = Some m /\
                SafeValue.value (cores q) = c_int m /\
                1 <= SafeValue.value (cores q) /\
                exists p, pool q = Some p /\
                          length (procs p) = Z.to_nat (c_int m)) /\
  (forall n self,
      updateCoreNumber cpu_count (Some n) self UpdSetCores =
        (EvCoresSet n, with_cores (SafeValue.mk (c_int n)) self, Next UpdStart)) /\
  (forall self,
      updateCoreNumber cpu_count None self UpdSetCores =
        match cpu_count with
        | Some m => (EvCoresSet m, with_cores (SafeValue.mk (c_int m)) self, Next UpdStart)
        | None => (EvRaise NotImplementedError, self, Raise NotImplementedError)
        end) /\
  (forall c self,
      updateCoreNumber cpu_count c self UpdStart =
        if SafeValue.value (cores self) <? 1
        then (EvRaise ValueError, self, Raise ValueError)
        else (EvStartPool (SafeValue.value (cores self)),
              with_pool (Some (mkPool RUN (repeat (mkProc WStart true)
                                             (Z.to_nat (SafeValue.value (cores self))))))
                        self,
              Return None)).
Proof.
  repeat apply conj.
  - intros n. unfold __init__, startPool, new_Pool. simpl.
    destruct (c_int n <? 1); reflexivity.
  - unfold __init__, call_cpu_count. destruct cpu_count; reflexivity.
  - intros q H.
    destruct (init_sets_pool cpu_count None q H) as (p & Hp & _ & Hpr & Hc & _).
    unfold __init__, call_cpu_count, startPool, new_Pool in H.
    destruct cpu_count as [m|]; [|discriminate]. simpl in H.
    exists m. split; [reflexivity|].
    assert (SafeValue.value (cores q) = c_int m) as E.
    { destruct (c_int m <? 1); inversion H; subst; reflexivity. }
    repeat apply conj; try assumption.
    exists p. split; [assumption|]. rewrite Hpr, repeat_length, E. reflexivity.
  - intros n self. reflexivity.
  - intros self. simpl. unfold call_cpu_count. destruct cpu_count; reflexivity.
  - intros c self. simpl. unfold startPool, new_Pool.
    destruct (SafeValue.value (cores self) <? 1); reflexivity.
Qed.

(** The theorem on a platform of 4 processors: with no core count given
    the constructor returns a pool of 4 cores, and a resize stores 4. *)
Lemma only_an_omitted_core_count_is_replaced_witness :
  __init__ (Some 4) None =
    inr (mkQueuedPool (SafeValue.mk 4) [] []
           (Some (mkPool RUN (repeat (mkProc WStart true) 4)))
           (SafeValue.mk 0) (SafeValue.mk 0) false) /\
  (exists m, Some 4 = Some m /\
             SafeValue.value (cores (mkQueuedPool (SafeValue.mk 4) [] []
                                       (Some (mkPool RUN (repeat (mkProc WStart true) 4)))
                                       (SafeValue.mk 0) (SafeValue.mk 0) false)) = c_int m /\
             1 <= 4) /\
  updateCoreNumber (Some 4) None (workpool demo_s0) UpdSetCores =
    (EvCoresSet 4, with_cores (SafeValue.mk 4) (workpool demo_s0), Next UpdStart).
Proof.
  destruct (only_an_omitted_core_count_is_replaced (Some 4))
    as (H1 & H2 & H3 & _ & H5 & _).
  assert (E : __init__ (Some 4) None =
              inr (mkQueuedPool (SafeValue.mk 4) [] []
                     (Some (mkPool RUN (repeat (mkProc WStart true) 4)))
                     (SafeValue.mk 0) (SafeValue.mk 0) false))
    by (rewrite H2; exact (H1 4)).
  split; [exact E|]. split.
  - destruct (H3 _ E) as (m & Hm & Hv & Hpos & _).
    exists m. split; [exact Hm|]. split; [exact Hv | exact Hpos].
  - exact (H5 (workpool demo_s0)).
Defined.

(** ** The pool handle *)

Section Handle.

Variable func : list pyval -> exn + pyval.
Variable cpu_count : option Z.

(** C10.  Construction starts the pool: with a core count whose C int is
    1 or more the constructor returns, and it returns an object whose
    handle is set to a running pool with one process per core, each at the
    start of [_workerFunc], both queues still empty and no job counted.
    (Every construction that returns has done so, also the one with no
    core count given.)  From then on the handle is never [None], whatever
    is called and however the steps interleave.  [closePool] leaves the
    handle set, on the pool it has terminated, and a [closePool] that
    finds such a handle passes its guard and goes on to the poll. *)
Theorem pool_handle_stays_set (n : Z) (calls : list call) :
  1 <= c_int n ->
  (exists q s0,
      __init__ cpu_count (Some n) = inr q /\
      q = mkQueuedPool (SafeValue.mk (c_int n)) [] []
            (Some (mkPool RUN (repeat (mkProc WStart true) (Z.to_nat (c_int n)))))
            (SafeValue.mk 0) (SafeValue.mk 0) false /\
      (1 <= length (repeat (mkProc WStart true) (Z.to_nat (c_int n))))%nat /\
      program cpu_count (Some n) calls = inr s0 /\
      s0 = mkSystem q MIdle calls [] /\
      forall sched tr s,
        run func cpu_count sched s0 = Some (tr, s) ->
        pool (workpool s) <> None) /\
  (forall c q,
      __init__ cpu_count c = inr q ->
      exists p, pool q = Some p /\ pstate p = RUN /\
        procs p = repeat (mkProc WStart true) (Z.to_nat (SafeValue.value (cores q))) /\
        (1 <= length (procs p))%nat /\
        input_queue q = [] /\ output_queue q = [] /\
        SafeValue.value (total_jobs q) = 0) /\
  (forall c calls' s0 sched tr s,
      program cpu_count c calls' = inr s0 ->
      run func cpu_count sched s0 = Some (tr, s) ->
      pool (workpool s) <> None) /\
  (forall self p,
      pool self = Some p ->
      closePool self CloseJoin =
        (EvTeardown, with_pool (Some (teardown p)) self, Return None)) /\
  (forall self p,
      pool self = Some (teardown p) ->
      closePool self CloseGuard = (EvPoolIsNone false, self, Next ClosePoll)).
Proof.
  intros Hn.
  assert ((c_int n <? 1) = false) as Hn1 by lia.
  assert (__init__ cpu_count (Some n) =
          inr (mkQueuedPool (SafeValue.mk (c_int n)) [] []
                 (Some (mkPool RUN (repeat (mkProc WStart true) (Z.to_nat (c_int n)))))
                 (SafeValue.mk 0) (SafeValue.mk 0) false)) as Hinit.
  { unfold __init__, startPool, new_Pool. simpl. rewrite Hn1. reflexivity. }
  split; [|repeat apply conj].
  - eexists. eexists. split; [exact Hinit|]. split; [reflexivity|].
    split; [rewrite repeat_length; lia|].
    assert (program cpu_count (Some n) calls =
            inr (mkSystem (mkQueuedPool (SafeValue.mk (c_int n)) [] []
                   (Some (mkPool RUN (repeat (mkProc WStart true) (Z.to_nat (c_int n)))))
                   (SafeValue.mk 0) (SafeValue.mk 0) false) MIdle calls [])) as Hprog.
    { unfold program. rewrite Hinit. reflexivity. }
    split; [exact Hprog|]. split; [reflexivity|].
    intros sched tr s Hrun.
    apply (program_invariants func cpu_count (Some n) calls _ Hprog sched tr s Hrun).
  - intros c q H. destruct (init_sets_pool cpu_count c q H)
      as (p & Hp & Hst & Hpr & Hc & Hi & Ho & Ht & _).
    exists p. repeat apply conj; try assumption.
    rewrite Hpr, repeat_length. lia.
  - intros c calls' s0 sched tr s Hprog Hrun.
    apply (program_invariants func cpu_count c calls' s0 Hprog sched tr s Hrun).
  - intros self p Hp. simpl. rewrite Hp. reflexivity.
  - intros self p Hp. simpl. rewrite Hp. reflexivity.
Qed.

End Handle.


(** ** The protocol on concrete pools *)


(** A worker that processes the job [[3]] and then meets a pill; and one
    that processes the job [[3]], finds the stop flag set and leaves, with
    the job [[4]] still queued. *)
Lemma workerFunc_follows_loop_witness :
  worker_run square demo_envs WStart =
    Some ([EvActiveIncr; EvGet (PList [PInt 3]); EvCall (PList [PInt 3]) (PInt 9);
           EvResultPut (PInt 9); EvKillIsSet false; EvGet PNone; EvActiveDecr], WDone) /\
  worker_run square flag_envs WStart =
    Some ([EvActiveIncr; EvGet (PList [PInt 3]); EvCall (PList [PInt 3]) (PInt 9);
           EvResultPut (PInt 9); EvKillIsSet true; EvActiveDecr], WDone) /\
  (exists body,
    [EvActiveIncr; EvGet (PList [PInt 3]); EvCall (PList [PInt 3]) (PInt 9);
     EvResultPut (PInt 9); EvKillIsSet false; EvGet PNone; EvActiveDecr]
    = EvActiveIncr :: body ++ [EvActiveDecr] /\ loop_trace square body) /\
  (exists body,
    [EvActiveIncr; EvGet (PList [PInt 3]); EvCall (PList [PInt 3]) (PInt 9);
     EvResultPut (PInt 9); EvKillIsSet true; EvActiveDecr]
    = EvActiveIncr :: body ++ [EvActiveDecr] /\ loop_trace square body).
Proof.
  assert (worker_run square demo_envs WStart =
            Some ([EvActiveIncr; EvGet (PList [PInt 3]); EvCall (PList [PInt 3]) (PInt 9);
                   EvResultPut (PInt 9); EvKillIsSet false; EvGet PNone; EvActiveDecr],
                  WDone)) as H1 by reflexivity.
  assert (worker_run square flag_envs WStart =
            Some ([EvActiveIncr; EvGet (PList [PInt 3]); EvCall (PList [PInt 3]) (PInt 9);
                   EvResultPut (PInt 9); EvKillIsSet true; EvActiveDecr],
                  WDone)) as H2 by reflexivity.
  split; [exact H1|]. split; [exact H2|]. split.
  - exact (proj1 (proj1 (workerFunc_follows_loop square demo_envs _) H1)).
  - exact (proj1 (proj1 (workerFunc_follows_loop square flag_envs _) H2)).
Defined.

(** C5 on the code.  One core, no job, [closePool] at once.  The worker
    pulls its pill; before it decrements the counter of active workers,
    the caller sees the job queue empty and terminates the pool.
    [closePool] has returned, the worker is dead at its decrement, and the
    counter reads 1. *)
Theorem closePool_can_return_with_an_active_worker :
  program (Some 4) (Some 1) [ClosePool] = inr race_s0 /\
  run square (Some 4) race_sched race_s0 = Some race_end /\
  fst race_end =
    [(Worker 0, EvActiveIncr); (Manager, EvBegin ClosePool);
     (Manager, EvPoolIsNone false); (Manager, EvCaughtUp true);
     (Manager, EvJobPut PNone); (Manager, EvRangeDone);
     (Worker 0, EvGet PNone); (Manager, EvInQsize 0); (Manager, EvTeardown)] /\
  mpc (snd race_end) = MIdle /\
  script (snd race_end) = [] /\
  pool (workpool (snd race_end)) = Some (mkPool TERMINATE [mkProc WDecr false]) /\
  SafeValue.value (active_workers (workpool (snd race_end))) = 1.
Proof.
  repeat apply conj; vm_compute; reflexivity.
Qed.

(** C8 as stated fails: with 4 processors, a core count of 0 or of -3 is
    not replaced by 4.  The construction raises; and a resize of the pool
    of [demo_calls], called as soon as the pool is constructed, stores
    the count as it is and raises when it starts the new pool, the old
    one terminated.  (And where the platform cannot tell the number of
    its processors, the construction with no core count raises.) *)
Lemma nonpositive_core_count_is_kept :
  __init__ (Some 4) (Some 0) = inl ValueError /\
  __init__ (Some 4) (Some (-3)) = inl ValueError /\
  __init__ None None = inl NotImplementedError /\
  program (Some 4) (Some 2) demo_calls = inr demo_s0 /\
  method_solo (updateCoreNumber (Some 4) (Some 0)) 6 (workpool demo_s0) UpdSetKill =
    ([EvKillSet; EvActiveRead 0; EvTeardown; EvKillClear; EvCoresSet 0; EvRaise ValueError],
     mkQueuedPool (SafeValue.mk 0) [] []
       (Some (mkPool TERMINATE [mkProc WStart false; mkProc WStart false]))
       (SafeValue.mk 0) (SafeValue.mk 0) false,
     Raise ValueError) /\
  method_solo (updateCoreNumber (Some 4) (Some (-3))) 6 (workpool demo_s0) UpdSetKill =
    ([EvKillSet; EvActiveRead 0; EvTeardown; EvKillClear; EvCoresSet (-3);
      EvRaise ValueError],
     mkQueuedPool (SafeValue.mk (-3)) [] []
       (Some (mkPool TERMINATE [mkProc WStart false; mkProc WStart false]))
       (SafeValue.mk 0) (SafeValue.mk 0) false,
     Raise ValueError).
Proof. repeat apply conj; vm_compute; reflexivity. Qed.

(* ===================================================================== *)
(** * Further properties *)
(* ===================================================================== *)

(** ** SafeValue *)

Lemma c_int_succ_pred (v : Z) :
  INT_MIN <= v <= INT_MAX -> c_int (c_int (v + 1) - 1) = v.
Proof.
  intros H. destruct (Z.eq_dec v INT_MAX) as [-> | Hne].
  - reflexivity.
  - rewrite (c_int_id (v + 1)) by (unfold INT_MIN, INT_MAX in *; lia).
    replace (v + 1 - 1) with v by lia. apply c_int_id. assumption.
Qed.

Lemma c_int_pred_succ (v : Z) :
  INT_MIN <= v <= INT_MAX -> c_int (c_int (v - 1) + 1) = v.
Proof.
  intros H. destruct (Z.eq_dec v INT_MIN) as [-> | Hne].
  - reflexivity.
  - rewrite (c_int_id (v - 1)) by (unfold INT_MIN, INT_MAX in *; lia).
    replace (v - 1 + 1) with v by lia. apply c_int_id. assumption.
Qed.

(** X1.  On a counter whose value is a C int, [increment] and [decrement]
    undo each other, also across the ends of the range: [increment] adds
    one, except at the largest C int, where it wraps to the smallest;
    [decrement] subtracts one, except at the smallest, where it wraps to
    the largest. *)
Theorem SafeValue_increment_decrement_inverse (c : SafeValue.t) :
  INT_MIN <= SafeValue.value c <= INT_MAX ->
  SafeValue.decrement (SafeValue.increment c) = c /\
  SafeValue.increment (SafeValue.decrement c) = c /\
  SafeValue.value (SafeValue.increment c) =
    (if SafeValue.value c =? INT_MAX then INT_MIN else SafeValue.value c + 1) /\
  SafeValue.value (SafeValue.decrement c) =
    (if SafeValue.value c =? INT_MIN then INT_MAX else SafeValue.value c - 1).
Proof.
  destruct c as [v]. unfold SafeValue.decrement, SafeValue.increment, SafeValue.value.
  simpl. intros H. repeat apply conj.
  - f_equal. apply c_int_succ_pred. assumption.
  - f_equal. apply c_int_pred_succ. assumption.
  - destruct (v =? INT_MAX) eqn:E.
    + apply Z.eqb_eq in E. subst. reflexivity.
    + apply Z.eqb_neq in E. apply c_int_id. unfold INT_MIN, INT_MAX in *. lia.
  - destruct (v =? INT_MIN) eqn:E.
    + apply Z.eqb_eq in E. subst. reflexivity.
    + apply Z.eqb_neq in E. apply c_int_id. unfold INT_MIN, INT_MAX in *. lia.
Qed.

(** At the largest C int. *)
Lemma SafeValue_increment_decrement_inverse_witness :
  INT_MIN <= SafeValue.value (SafeValue.mk INT_MAX) <= INT_MAX /\
  SafeValue.increment (SafeValue.mk INT_MAX) = SafeValue.mk INT_MIN /\
  SafeValue.decrement (SafeValue.increment (SafeValue.mk INT_MAX)) = SafeValue.mk INT_MAX.
Proof.
  assert (INT_MIN <= SafeValue.value (SafeValue.mk INT_MAX) <= INT_MAX) as H
    by (unfold INT_MIN, INT_MAX; simpl; lia).
  split; [exact H|]. split; [reflexivity|].
  exact (proj1 (SafeValue_increment_decrement_inverse (SafeValue.mk INT_MAX) H)).
Defined.

(** X2.  Whatever integer is stored in a counter, by the constructor or by
    [set], what [value] reads is a C int: the integer itself exactly when
    it fits, and else the integer brought into the range by a multiple of
    2^32.  [increment] and [decrement] keep the value in the range. *)
Theorem SafeValue_stores_a_C_int (c : SafeValue.t) (n : Z) :
  SafeValue.value (SafeValue.new n) = SafeValue.value (SafeValue.set c n) /\
  INT_MIN <= SafeValue.value (SafeValue.set c n) <= INT_MAX /\
  (SafeValue.value (SafeValue.set c n) = n <-> INT_MIN <= n <= INT_MAX) /\
  (exists k, SafeValue.value (SafeValue.set c n) = n + k * 2 ^ 32) /\
  INT_MIN <= SafeValue.value (SafeValue.increment c) <= INT_MAX /\
  INT_MIN <= SafeValue.value (SafeValue.decrement c) <= INT_MAX.
Proof.
  unfold SafeValue.new, SafeValue.set, SafeValue.increment, SafeValue.decrement,
    SafeValue.value. simpl.
  repeat apply conj; try apply c_int_range; try reflexivity.
  - intros <-. apply c_int_range.
  - apply c_int_id.
  - exists (- ((n + 2 ^ 31) / 2 ^ 32)). unfold c_int.
    rewrite Z.mod_eq by lia. lia.
Qed.

(** ** Jobs and results under any script *)

Section AnyScript.

Variable func : list pyval -> exn + pyval.
Variable cpu_count : option Z.

(** A property of states that every step keeps, and a property of the
    steps taken from such states, hold along every run. *)
Lemma run_trace_preserves (P : system -> Prop) (Q : actor * event -> Prop) :
  (forall a s e s', P s -> step func cpu_count a s = Some (e, s') -> P s' /\ Q (a, e)) ->
  forall sched s tr s',
    P s -> run func cpu_count sched s = Some (tr, s') -> P s' /\ Forall Q tr.
Proof.
  intros Hstep. induction sched as [| a sched IH]; intros s tr s' HP Hrun; simpl in Hrun.
  - inversion Hrun; subst. split; [assumption | constructor].
  - destruct (step func cpu_count a s) as [[e s1]|] eqn:Hs; [|discriminate].
    destruct (run func cpu_count sched s1) as [[tr1 s2]|] eqn:Hr; [|discriminate].
    inversion Hrun; subst. destruct (Hstep a s e s1 HP Hs) as [HP1 HQ].
    destruct (IH s1 tr1 s' HP1 Hr) as [HP' HQ'].
    split; [assumption | constructor; assumption].
Qed.

Lemma program_accounted (c : option Z) (calls : list call) (s0 : system) :
  program cpu_count c calls = inr s0 ->
  Z.of_nat (count_adds calls) <= INT_MAX ->
  accounted (count_adds calls) s0.
Proof.
  unfold program. destruct (__init__ cpu_count c) as [x | q] eqn:Hi; [discriminate|].
  intros H HN. inversion H; subst; clear H.
  destruct (init_sets_pool cpu_count c q Hi)
    as (p & Hp & Hst & Hpr & Hc & Hin & Hout & Ht & Ha & Hk).
  unfold accounted, fetched, pending_put, adds_left, count_adds in *. simpl.
  rewrite Hin, Hout, Hp, Ht. simpl. rewrite Hpr, in_flight_fresh. simpl.
  repeat apply conj; try lia; try discriminate.
Qed.

Lemma short_manager (N : nat) (s : system) (e : event) (s' : system) :
  accounted N s -> short s -> manager_step cpu_count s = Some (e, s') -> short s'.
Proof.
  unfold accounted, short, fetched, pending_put, adds_left, manager_step.
  destruct s as [q m sc ret]; simpl.
  intros (H0 & HN & HM & Hacc & Hp) Hsh H.
  destruct m as [| job [] | [] | [] | c [] |]; simpl in H;
    unfold get_nowait, startPool, new_Pool in H;
    break_step H;
    inversion H; subst; clear H; simpl in *.
  all: repeat match goal with E : _ = _ |- _ => rewrite E end.
  all: unfold SafeValue.value, INT_MAX in *; simpl in *.
  all: rewrite ?length_concat_snoc, ?jobs_queued_put, ?length_app, ?in_flight_killed,
         ?in_flight_fresh, ?wrap_job_is_job; simpl.
  all: try (rewrite c_int_id by (unfold INT_MIN, INT_MAX; lia)).
  all: try assumption; try lia.
  all: destruct c; simpl in *; lia.
Qed.

Lemma short_worker (i : nat) (s : system) (e : event) (s' : system) :
  short s -> worker_step func i s = Some (e, s') -> short s'.
Proof.
  unfold short, pending_put.
  intros Hsh H.
  apply worker_step_frame in H.
  destruct H as (Hm & Hsc & Hret & Hc & Ht & Hk & Hp' & p & w & at' & self' &
                 Epool & Ew & Ealive & Estep & Ein & Eout & Eact & Epool').
  rewrite Hm, Ht, Ein, Eout, Epool'. rewrite Epool in Hsh.
  simpl in *.
  pose proof (sum_list_with_insert in_flight (procs p) i w (mkProc at' true) Ew) as Hsum.
  destruct w as [at_ al]; simpl in *; subst al.
  rewrite !in_flight_mk in Hsum.
  destruct at_; simpl in Estep; break_step Estep; inversion Estep; subst; clear Estep;
    simpl in *;
    repeat match goal with E : input_queue _ = _ |- _ => rewrite E in * end;
    unfold jobs_queued, put in *; simpl in *;
    repeat match goal with E : is_None _ = _ |- _ => unfold is_job in *; rewrite E in * end;
    simpl in *; rewrite ?length_app in *; simpl in *; try lia.
Qed.

Lemma short_step (N : nat) (a : actor) (s : system) (e : event) (s' : system) :
  accounted N s -> short s -> step func cpu_count a s = Some (e, s') -> short s'.
Proof.
  destruct a; simpl; [apply short_manager | intros _; apply short_worker].
Qed.

(** A failing call of the worker function loses its job. *)
Lemma failed_call_short (N : nat) (a : actor) (s : system) (e : event) (s' : system) :
  accounted N s -> step func cpu_count a s = Some (e, s') ->
  is_failed_call (a, e) = true -> short s'.
Proof.
  intros Hacc H Hf. destruct a as [| i]; [discriminate|]. simpl in H.
  unfold accounted, fetched in Hacc. unfold short, pending_put.
  destruct Hacc as (H0 & HN & HM & Hacc & Hp).
  apply worker_step_frame in H.
  destruct H as (Hm & Hsc & Hret & Hc & Ht & Hk & Hp' & p & w & at' & self' &
                 Epool & Ew & Ealive & Estep & Ein & Eout & Eact & Epool').
  rewrite Hm, Ht, Ein, Eout, Epool'. rewrite Epool in Hacc.
  unfold pending_put in Hacc. simpl in *.
  pose proof (sum_list_with_insert in_flight (procs p) i w (mkProc at' true) Ew) as Hsum.
  destruct w as [at_ al]; simpl in *; subst al.
  rewrite !in_flight_mk in Hsum.
  destruct at_; simpl in Estep; break_step Estep; inversion Estep; subst; clear Estep;
    simpl in *; try discriminate; lia.
Qed.

(** Past its poll, [closePool] has seen every result, and none is added
    or taken until it returns. *)
Lemma poll_inv_step (N : nat) (a : actor) (s : system) (e : event) (s' : system) :
  accounted N s -> poll_inv s -> step func cpu_count a s = Some (e, s') -> poll_inv s'.
Proof.
  intros Hacc Hpi H. destruct a as [| i]; simpl in H.
  - unfold poll_inv, caught_up, manager_step in *.
    destruct s as [q m sc ret]; simpl in *.
    destruct m as [| job [] | [] | [] | c [] |]; simpl in H;
      unfold get_nowait, startPool, new_Pool in H;
      break_step H;
      inversion H; subst; clear H; simpl in *; try discriminate; auto.
    + destruct c; simpl; discriminate.
    + intros _. apply Z.eqb_eq. assumption.
  - unfold poll_inv in *.
    pose proof (worker_step_frame func i s e s' H) as (Hm & _).
    rewrite Hm. intros Hpp. specialize (Hpi Hpp).
    assert (settled s) as Hs.
    { unfold settled, fetched, caught_up, accounted in *.
      destruct Hacc as (_ & _ & _ & Hacc & _). unfold fetched in Hacc.
      destruct (mpc s) as [| job a | a | [] | c a |]; simpl in *; try discriminate; lia. }
    destruct (settled_worker func N i s e s' Hacc Hs H) as [Eo _].
    pose proof (worker_step_frame func i s e s' H) as (_ & _ & _ & _ & Ht & _).
    unfold caught_up in *. rewrite Eo, Ht. assumption.
Qed.

Lemma program_reach (c : option Z) (calls : list call) (s0 : system) :
  program cpu_count c calls = inr s0 ->
  Z.of_nat (count_adds calls) <= INT_MAX ->
  forall sched tr s,
    run func cpu_count sched s0 = Some (tr, s) ->
    accounted (count_adds calls) s /\ poll_inv s.
Proof.
  intros Hprog HN sched tr s Hrun.
  eapply (run_preserves func cpu_count
            (fun s => accounted (count_adds calls) s /\ poll_inv s)); [| |eassumption].
  - intros a s1 e s2 [Ha Hp] Hstep. split.
    + eapply accounted_step; eassumption.
    + eapply poll_inv_step; eassumption.
  - split.
    + apply (program_accounted c); assumption.
    + unfold program in Hprog.
      destruct (__init__ cpu_count c); inversion Hprog; subst.
      unfold poll_inv. simpl. discriminate.
Qed.

Lemma no_jobs_only_pills (q : list pyval) :
  jobs_queued q = 0%nat -> Forall (fun x => x = PNone) q.
Proof.
  unfold jobs_queued. induction q as [| x q IH]; intros H; [constructor|].
  simpl in H. destruct x; simpl in H; try discriminate.
  constructor; [reflexivity | auto].
Qed.

(** X3.  Whatever the caller calls and however the steps interleave, the
    counter of submitted jobs counts the calls of [addJob] that have made
    their increment, and every counted job is at most once in the job
    queue, in a worker's hands, in the result queue or with the caller.
    So the results in the result queue and those that [getResults] has
    returned are never more than the jobs submitted.  (The calls of
    [addJob] of the script are within the range of the C int.) *)
Theorem never_more_results_than_jobs
    (c : option Z) (calls : list call) (s0 : system)
    (sched : list actor) (tr : list (actor * event)) (s : system) :
  program cpu_count c calls = inr s0 ->
  Z.of_nat (count_adds calls) <= INT_MAX ->
  run func cpu_count sched s0 = Some (tr, s) ->
  SafeValue.value (total_jobs (workpool s)) =
    Z.of_nat (count_adds calls) - Z.of_nat (adds_left s) /\
  Z.of_nat (jobs_queued (input_queue (workpool s)) +
            pool_in_flight (pool (workpool s)) +
            length (output_queue (workpool s)) +
            length (concat (returned s))) <=
    SafeValue.value (total_jobs (workpool s)) /\
  (length (output_queue (workpool s)) + length (concat (returned s)) <=
   count_adds calls)%nat.
Proof.
  intros Hprog HN Hrun.
  destruct (program_reach c calls s0 Hprog HN sched tr s Hrun) as [Hacc _].
  unfold accounted, fetched in Hacc. destruct Hacc as (H0 & HT & HM & Hacc & _).
  repeat apply conj; lia.
Qed.

(** Once a job is missing, no [closePool] gets past its poll. *)
Lemma short_blocks_close (N : nat) (sched : list actor) :
  forall s tr s',
    accounted N s -> poll_inv s -> short s ->
    run func cpu_count sched s = Some (tr, s') ->
    (accounted N s' /\ poll_inv s' /\ short s') /\
    Forall (fun ae => is_caught_up_event ae = false) tr.
Proof.
  intros s tr s' Hacc Hpi Hsh Hrun.
  eapply (run_trace_preserves
            (fun s => accounted N s /\ poll_inv s /\ short s)
            (fun ae => is_caught_up_event ae = false)); [| |eassumption]; [|auto].
  intros a s1 e s2 (Ha & Hp & Hs) Hstep. split.
  - split; [|split].
    + eapply accounted_step; eassumption.
    + eapply poll_inv_step; eassumption.
    + eapply short_step; eassumption.
  - destruct a as [| i]; [|reflexivity]. simpl in Hstep.
    unfold short, pending_put, manager_step in *.
    destruct s1 as [q m sc ret]; simpl in *.
    destruct m as [| job [] | [] | [] | c0 [] |]; simpl in Hstep;
      unfold get_nowait, startPool, new_Pool in Hstep;
      break_step Hstep;
      inversion Hstep; subst; clear Hstep; simpl in *; try reflexivity.
    apply Z.eqb_eq in Heqb. unfold SafeValue.value in *. lia.
Qed.

Lemma short_not_past_poll (s : system) :
  poll_inv s -> short s -> past_poll (mpc s) = false.
Proof.
  unfold poll_inv, short, caught_up. intros Hpi Hsh.
  destruct (past_poll (mpc s)); [|reflexivity].
  specialize (Hpi eq_refl). lia.
Qed.

(** A [closePool] that cannot get past its poll stays where it is. *)
Lemma short_close_stays (N : nat) (sched : list actor) :
  forall s tr s',
    accounted N s -> poll_inv s -> short s ->
    (exists at_, mpc s = MClosePool at_) ->
    run func cpu_count sched s = Some (tr, s') ->
    exists at_, mpc s' = MClosePool at_.
Proof.
  intros s tr s' Hacc Hpi Hsh Hin Hrun.
  assert ((accounted N s' /\ poll_inv s' /\ short s') /\ exists at_, mpc s' = MClosePool at_)
    as [_ H]; [|exact H].
  eapply (run_preserves func cpu_count
            (fun s => (accounted N s /\ poll_inv s /\ short s) /\
                      exists at_, mpc s = MClosePool at_)); [| |eassumption]; [|auto].
  intros a s1 e s2 [(Ha & Hp & Hs) [at_ Hm]] Hstep. split.
  - split; [|split].
    + eapply accounted_step; eassumption.
    + eapply poll_inv_step; eassumption.
    + eapply short_step; eassumption.
  - pose proof (short_not_past_poll s1 Hp Hs) as Hnp.
    destruct a as [| i]; simpl in Hstep.
    + destruct Ha as (_ & _ & _ & _ & Hpool).
      unfold manager_step in Hstep. rewrite Hm in Hstep, Hnp.
      destruct at_; simpl in Hnp; try discriminate; simpl in Hstep.
      * destruct (pool (workpool s1)); [|contradiction].
        inversion Hstep; subst. simpl. eauto.
      * destruct (Z.of_nat (length (output_queue (workpool s1))) =?
                  SafeValue.value (total_jobs (workpool s1)));
          inversion Hstep; subst; simpl; eauto.
    + pose proof (worker_step_frame func i s1 e s2 Hstep) as (Hm' & _).
      rewrite Hm'. eauto.
Qed.

(** X5.  Once [getResults] has returned a result, no [closePool] gets past
    its poll again, whatever is called and however the steps interleave:
    the counter of submitted jobs is never lowered, so the result queue
    stays shorter than it says.  A [closePool] that is running, or is
    called later, never returns.  (The caller calls from one thread; the
    calls of [addJob] are within the range of the C int.) *)
Theorem closePool_never_returns_after_results_were_fetched
    (c : option Z) (calls : list call) (s0 : system)
    (sched0 : list actor) (tr0 : list (actor * event)) (s : system)
    (sched : list actor) (tr : list (actor * event)) (s' : system) :
  program cpu_count c calls = inr s0 ->
  Z.of_nat (count_adds calls) <= INT_MAX ->
  run func cpu_count sched0 s0 = Some (tr0, s) ->
  concat (returned s) <> [] ->
  run func cpu_count sched s = Some (tr, s') ->
  Forall (fun ae => is_caught_up_event ae = false) tr /\
  past_poll (mpc s') = false /\
  ((exists at_, mpc s = MClosePool at_) -> exists at_, mpc s' = MClosePool at_).
Proof.
  intros Hprog HN Hrun0 Hret Hrun.
  destruct (program_reach c calls s0 Hprog HN sched0 tr0 s Hrun0) as [Hacc Hpi].
  assert (short s) as Hsh.
  { unfold short. unfold accounted, fetched in Hacc.
    destruct Hacc as (_ & _ & _ & Hacc & _).
    assert (length (concat (returned s)) <> 0%nat) as Hl
      by (intros E; apply length_zero_iff_nil in E; contradiction).
    lia. }
  destruct (short_blocks_close _ sched s tr s' Hacc Hpi Hsh Hrun)
    as [(Hacc' & Hpi' & Hsh') Htr].
  repeat apply conj.
  - assumption.
  - apply short_not_past_poll; assumption.
  - intros Hin.
    exact (short_close_stays (count_adds calls) sched s tr s' Hacc Hpi Hsh Hin Hrun).
Qed.

(** A failed call in the trace of a run leaves a job missing. *)
Lemma failed_call_in_run (N : nat) (sched : list actor) :
  forall s tr s',
    accounted N s ->
    run func cpu_count sched s = Some (tr, s') ->
    short s \/ Exists (fun ae => is_failed_call ae = true) tr ->
    short s'.
Proof.
  induction sched as [| a sched IH]; intros s tr s' Hacc Hrun H; simpl in Hrun.
  - inversion Hrun; subst. destruct H as [H | H]; [assumption | inversion H].
  - destruct (step func cpu_count a s) as [[e s1]|] eqn:Hs; [|discriminate].
    destruct (run func cpu_count sched s1) as [[tr1 s2]|] eqn:Hr; [|discriminate].
    inversion Hrun; subst; clear Hrun.
    pose proof (accounted_step func cpu_count N a s e s1 Hacc Hs) as Hacc1.
    apply (IH s1 tr1 s' Hacc1 Hr).
    destruct H as [H | H].
    + left. exact (short_step N a s e s1 Hacc H Hs).
    + inversion H; subst.
      * left. exact (failed_call_short N a s e s1 Hacc Hs ltac:(assumption)).
      * right. assumption.
Qed.

(** X6.  Once the worker function has raised in a worker, no [closePool]
    gets past its poll, whatever is called and however the steps
    interleave: the job of the failed call never gives a result.  A
    [closePool] that is running, or is called later, never returns. *)
Theorem closePool_never_returns_after_a_failed_call
    (c : option Z) (calls : list call) (s0 : system)
    (sched0 : list actor) (tr0 : list (actor * event)) (s : system)
    (sched : list actor) (tr : list (actor * event)) (s' : system) :
  program cpu_count c calls = inr s0 ->
  Z.of_nat (count_adds calls) <= INT_MAX ->
  run func cpu_count sched0 s0 = Some (tr0, s) ->
  Exists (fun ae => is_failed_call ae = true) tr0 ->
  run func cpu_count sched s = Some (tr, s') ->
  Forall (fun ae => is_caught_up_event ae = false) tr /\
  past_poll (mpc s') = false /\
  ((exists at_, mpc s = MClosePool at_) -> exists at_, mpc s' = MClosePool at_).
Proof.
  intros Hprog HN Hrun0 Hfail Hrun.
  destruct (program_reach c calls s0 Hprog HN sched0 tr0 s Hrun0) as [Hacc Hpi].
  assert (short s) as Hsh.
  { apply (failed_call_in_run (count_adds calls) sched0 s0 tr0 s).
    - apply (program_accounted c); assumption.
    - assumption.
    - right. assumption. }
  destruct (short_blocks_close _ sched s tr s' Hacc Hpi Hsh Hrun)
    as [(Hacc' & Hpi' & Hsh') Htr].
  repeat apply conj.
  - assumption.
  - apply short_not_past_poll; assumption.
  - intros Hin.
    exact (short_close_stays (count_adds calls) sched s tr s' Hacc Hpi Hsh Hin Hrun).
Qed.

End AnyScript.

(** ** These properties on concrete pools *)

(** The run of [demo_calls] at the poll of [closePool]: three jobs counted,
    two results queued, the third job in a worker's hands. *)
Lemma never_more_results_than_jobs_witness :
  program (Some 4) (Some 2) demo_calls = inr demo_s0 /\
  Z.of_nat (count_adds demo_calls) <= INT_MAX /\
  run square (Some 4) demo_sched0 demo_s0 = Some demo_mid /\
  SafeValue.value (total_jobs (workpool (snd demo_mid))) = 3 /\
  length (output_queue (workpool (snd demo_mid))) = 2%nat /\
  pool_in_flight (pool (workpool (snd demo_mid))) = 1%nat /\
  (length (output_queue (workpool (snd demo_mid))) +
   length (concat (returned (snd demo_mid))) <= count_adds demo_calls)%nat.
Proof.
  assert (program (Some 4) (Some 2) demo_calls = inr demo_s0) as H1
    by (vm_compute; reflexivity).
  assert (Z.of_nat (count_adds demo_calls) <= INT_MAX) as H2
    by (vm_compute; intros E; discriminate E).
  assert (run square (Some 4) demo_sched0 demo_s0 = Some (fst demo_mid, snd demo_mid)) as H3
    by (vm_compute; reflexivity).
  destruct (never_more_results_than_jobs square (Some 4) (Some 2) demo_calls demo_s0
              demo_sched0 (fst demo_mid) (snd demo_mid) H1 H2 H3) as (_ & _ & H).
  repeat apply conj; try assumption; try reflexivity.
Defined.

(** [getResults] has returned the square of 3; [closePool] polls and stays
    at its poll. *)
Lemma closePool_never_returns_after_results_were_fetched_witness :
  program (Some 4) (Some 1) fetch_calls = inr fetch_s0 /\
  Z.of_nat (count_adds fetch_calls) <= INT_MAX /\
  run square (Some 4) fetch_sched0 fetch_s0 = Some fetch_mid /\
  returned (snd fetch_mid) = [[PInt 9]] /\
  run square (Some 4) fetch_sched1 (snd fetch_mid) = Some fetch_end /\
  mpc (snd fetch_end) = MClosePool ClosePoll /\
  past_poll (mpc (snd fetch_end)) = false.
Proof.
  assert (program (Some 4) (Some 1) fetch_calls = inr fetch_s0) as H1
    by (vm_compute; reflexivity).
  assert (Z.of_nat (count_adds fetch_calls) <= INT_MAX) as H2
    by (vm_compute; intros E; discriminate E).
  assert (run square (Some 4) fetch_sched0 fetch_s0 = Some (fst fetch_mid, snd fetch_mid))
    as H3 by (vm_compute; reflexivity).
  assert (concat (returned (snd fetch_mid)) <> []) as H4 by (simpl; discriminate).
  assert (run square (Some 4) fetch_sched1 (snd fetch_mid) =
          Some (fst fetch_end, snd fetch_end)) as H5 by (vm_compute; reflexivity).
  destruct (closePool_never_returns_after_results_were_fetched square (Some 4) (Some 1)
              fetch_calls fetch_s0 fetch_sched0 (fst fetch_mid) (snd fetch_mid)
              fetch_sched1 (fst fetch_end) (snd fetch_end) H1 H2 H3 H4 H5) as (_ & H & _).
  repeat apply conj; try assumption; try reflexivity.
Defined.

(** [square] has raised on the job ["a"]; [closePool] polls and stays at
    its poll. *)
Lemma closePool_never_returns_after_a_failed_call_witness :
  program (Some 4) (Some 1) fail_calls = inr fail_s0 /\
  Z.of_nat (count_adds fail_calls) <= INT_MAX /\
  run square (Some 4) fail_sched0 fail_s0 = Some fail_mid /\
  Exists (fun ae => is_failed_call ae = true) (fst fail_mid) /\
  run square (Some 4) fail_sched1 (snd fail_mid) = Some fail_end /\
  mpc (snd fail_end) = MClosePool ClosePoll /\
  past_poll (mpc (snd fail_end)) = false.
Proof.
  assert (program (Some 4) (Some 1) fail_calls = inr fail_s0) as H1
    by (vm_compute; reflexivity).
  assert (Z.of_nat (count_adds fail_calls) <= INT_MAX) as H2
    by (vm_compute; intros E; discriminate E).
  assert (run square (Some 4) fail_sched0 fail_s0 = Some (fst fail_mid, snd fail_mid))
    as H3 by (vm_compute; reflexivity).
  assert (Exists (fun ae => is_failed_call ae = true) (fst fail_mid)) as H4
    by (apply Exists_exists; eexists; split; [do 5 right; left; reflexivity | reflexivity]).
  assert (run square (Some 4) fail_sched1 (snd fail_mid) =
          Some (fst fail_end, snd fail_end)) as H5 by (vm_compute; reflexivity).
  destruct (closePool_never_returns_after_a_failed_call square (Some 4) (Some 1)
              fail_calls fail_s0 fail_sched0 (fst fail_mid) (snd fail_mid)
              fail_sched1 (fst fail_end) (snd fail_end) H1 H2 H3 H4 H5) as (_ & H & _).
  repeat apply conj; try assumption; try reflexivity.
Defined.

(** ** updateCoreNumber on an idle pool, and with a rejected core count *)

Section ResizeEdges.

Variable func : list pyval -> exn + pyval.
Variable cpu_count : option Z.

Lemma forallb_insert {A : Type} (f : A -> bool) (l : list A) (i : nat) (x : A) :
  List.forallb f l = true -> f x = true -> List.forallb f (<[i := x]> l) = true.
Proof.
  revert i. induction l as [| y l IH]; intros i Hl Hx; [exact Hl|].
  simpl in Hl. apply andb_prop in Hl. destruct Hl as [Hy Hl].
  destruct i as [| i]; simpl.
  - rewrite Hx, Hl. reflexivity.
  - rewrite Hy. simpl. apply IH; assumption.
Qed.

Lemma forallb_lookup {A : Type} (f : A -> bool) (l : list A) (i : nat) (x : A) :
  List.forallb f l = true -> l !! i = Some x -> f x = true.
Proof.
  revert i. induction l as [| y l IH]; intros i Hl Hx; [destruct i; discriminate|].
  simpl in Hl. apply andb_prop in Hl. destruct Hl as [Hy Hl].
  destruct i as [| i]; simpl in Hx.
  - inversion Hx; subst. assumption.
  - eapply IH; eassumption.
Qed.

Lemma filter_length_insert {A : Type} (f : A -> bool) (l : list A) (i : nat) (x y : A) :
  l !! i = Some x ->
  (length (List.filter f (<[i := y]> l)) + (if f x then 1 else 0) =
   length (List.filter f l) + (if f y then 1 else 0))%nat.
Proof.
  revert i. induction l as [| z l IH]; intros i Hx; [destruct i; discriminate|].
  destruct i as [| i]; simpl in *.
  - inversion Hx; subst. destruct (f x), (f y); simpl; lia.
  - specialize (IH i Hx). destruct (f z); simpl; lia.
Qed.

Lemma idle_resize_step (a : actor) (s : system) (e : event) (s' : system) :
  idle_resize s -> step func cpu_count a s = Some (e, s') -> idle_resize s'.
Proof.
  unfold idle_resize.
  intros ((c & at_ & Hm & Hat) & Hin & p & Hp & Hall & H1 & Hroom) H.
  destruct a as [| i]; simpl in H.
  - unfold manager_step in H. rewrite Hm in H.
    destruct Hat as [-> | ->]; simpl in H.
    + inversion H; subst; clear H. simpl.
      split; [eauto|]. split; [assumption|]. exists p. auto.
    + assert ((0 <? SafeValue.value (active_workers (workpool s))) = true) as Hpos by lia.
      rewrite Hpos in H. inversion H; subst; clear H. simpl.
      split; [eauto|]. split; [assumption|]. exists p. auto.
  - pose proof (worker_step_frame func i s e s' H)
      as (Hm' & _ & _ & _ & _ & _ & _ & p' & w & at' & self' &
          Epool & Ew & Ealive & Estep & Ein & Eout & Eact & Epool').
    rewrite Hp in Epool. inversion Epool; subst p'; clear Epool.
    pose proof (forallb_lookup _ _ _ _ Hall Ew) as Hw.
    pose proof (filter_length_insert is_starting (procs p) i w (mkProc at' true) Ew) as Hf.
    assert (is_starting w = match pc w with WStart => true | _ => false end) as Hsw
      by (unfold is_starting; rewrite Ealive; reflexivity).
    rewrite Hsw in Hf. clear Hsw.
    unfold starting_or_waiting in Hw. rewrite Ealive in Hw. simpl in Hw.
    rewrite Hm', Ein, Eact, Epool'.
    destruct (pc w) eqn:Epc; try discriminate; simpl in Estep.
    + (* a worker starts *)
      inversion Estep; subst; clear Estep.
      change (is_starting (mkProc WGet true)) with false in Hf. simpl in *.
      split; [eauto|]. split; [assumption|].
      eexists. split; [reflexivity|]. simpl.
      split; [apply forallb_insert; [assumption | reflexivity]|].
      assert (c_int (SafeValue.val (active_workers (workpool s)) + 1) =
              SafeValue.val (active_workers (workpool s)) + 1) as ->.
      { apply c_int_id. unfold SafeValue.value, INT_MIN, INT_MAX in *. lia. }
      unfold SafeValue.value in *. lia.
    + (* a worker waits at its pull: the queue is empty *)
      rewrite Hin in Estep. discriminate.
Qed.

(** X7.  [updateCoreNumber] never returns when it is called on a pool
    whose job queue is empty and whose started workers wait for a job: a
    worker tests the stop flag only after a job, so the worker that waits
    never leaves and the counter of active workers stays above 0.  The
    caller stays before the teardown in every run, whatever the workers
    that have still to start do. *)
Theorem updateCoreNumber_never_returns_on_an_idle_pool
    (s : system) (sched : list actor) (tr : list (actor * event)) (s' : system) :
  idle_resize s ->
  run func cpu_count sched s = Some (tr, s') ->
  idle_resize s' /\
  (exists c at_, mpc s' = MUpdateCoreNumber c at_ /\ (at_ = UpdSetKill \/ at_ = UpdWait)) /\
  1 <= SafeValue.value (active_workers (workpool s')) /\
  Forall (fun ae => snd ae <> EvTeardown) tr.
Proof.
  intros Hidle Hrun.
  assert (idle_resize s' /\ Forall (fun ae => snd ae <> EvTeardown) tr) as [H1 H2].
  { eapply (run_trace_preserves func cpu_count idle_resize
              (fun ae => snd ae <> EvTeardown)); [| eassumption | eassumption].
    intros a s1 e s2 Hi Hstep. split; [eapply idle_resize_step; eassumption|].
    simpl. destruct Hi as ((c & at_ & Hm & Hat) & Hin & p & Hp & Hall & Hpos & Hroom).
    destruct a as [| i]; simpl in Hstep.
    - unfold manager_step in Hstep. rewrite Hm in Hstep.
      assert ((0 <? SafeValue.value (active_workers (workpool s1))) = true) as Hz by lia.
      destruct Hat as [-> | ->]; simpl in Hstep; try rewrite Hz in Hstep;
        inversion Hstep; discriminate.
    - pose proof (worker_step_frame func i s1 e s2 Hstep)
        as (_ & _ & _ & _ & _ & _ & _ & p' & w & at' & self' &
            _ & _ & _ & Estep & _).
      destruct (pc w); simpl in Estep; break_step Estep; inversion Estep; discriminate. }
  split; [assumption|]. split; [|split; [|assumption]].
  - apply H1.
  - destruct H1 as (_ & _ & p & _ & _ & H & _). assumption.
Qed.

(** X8.  A resize to a core count that the pool constructor rejects fails
    only at its last step: run alone on a pool whose active-worker counter
    is not positive, [updateCoreNumber] has terminated the old pool,
    cleared the stop flag and stored the count before it raises
    [ValueError].  The pool is left with no live worker, its queues and
    its counter of submitted jobs as they were.  With no count given on a
    platform that cannot tell its number of processors, the
    [NotImplementedError] of [multiprocessing.cpu_count()] leaves the
    method, likewise after the teardown. *)
Theorem updateCoreNumber_fails_after_the_teardown
    (n : Z) (self : QueuedPool) (p : Pool) :
  pool self = Some p ->
  SafeValue.value (active_workers self) <= 0 ->
  c_int n < 1 ->
  method_solo (updateCoreNumber cpu_count (Some n)) 6 self UpdSetKill =
    ([EvKillSet; EvActiveRead (SafeValue.value (active_workers self));
      EvTeardown; EvKillClear; EvCoresSet n; EvRaise ValueError],
     mkQueuedPool (SafeValue.mk (c_int n)) (input_queue self) (output_queue self)
       (Some (teardown p)) (total_jobs self) (active_workers self) false,
     Raise ValueError) /\
  all_dead (teardown p) /\
  (cpu_count = None ->
   method_solo (updateCoreNumber cpu_count None) 6 self UpdSetKill =
     ([EvKillSet; EvActiveRead (SafeValue.value (active_workers self));
       EvTeardown; EvKillClear; EvRaise NotImplementedError],
      mkQueuedPool (cores self) (input_queue self) (output_queue self)
        (Some (teardown p)) (total_jobs self) (active_workers self) false,
      Raise NotImplementedError)).
Proof.
  intros Hp Ha Hn.
  assert ((0 <? SafeValue.value (active_workers self)) = false) as Hz by lia.
  assert ((c_int n <? 1) = true) as Hn1 by lia.
  repeat apply conj.
  - simpl. rewrite Hz. simpl. rewrite Hp. simpl.
    unfold startPool, new_Pool, SafeValue.set. simpl. rewrite Hn1. reflexivity.
  - apply teardown_all_dead.
  - intros ->. simpl. rewrite Hz. simpl. rewrite Hp. reflexivity.
Qed.

End ResizeEdges.

(** Two cores, no job: the first worker waits at its pull when
    [updateCoreNumber(3)] is called; the caller polls the counter of active
    workers, which reads 1 and then 2, and goes on polling. *)
Lemma updateCoreNumber_never_returns_on_an_idle_pool_witness :
  program (Some 4) (Some 2) idle_calls = inr idle_s0 /\
  run square (Some 4) [Worker 0; Manager] idle_s0 = Some idle_mid /\
  idle_resize (snd idle_mid) /\
  run square (Some 4) idle_sched (snd idle_mid) = Some idle_end /\
  mpc (snd idle_end) = MUpdateCoreNumber (Some 3) UpdWait /\
  map snd (fst idle_end) =
    [EvKillSet; EvActiveRead 1; EvActiveIncr; EvActiveRead 2; EvActiveRead 2;
     EvActiveRead 2] /\
  1 <= SafeValue.value (active_workers (workpool (snd idle_end))).
Proof.
  assert (idle_resize (snd idle_mid)) as H1.
  { unfold idle_resize. split; [eexists; eexists; split; [reflexivity | left; reflexivity]|].
    split; [reflexivity|]. eexists. split; [reflexivity|].
    split; [reflexivity|]. split; vm_compute; intros E; discriminate E. }
  assert (run square (Some 4) idle_sched (snd idle_mid) =
          Some (fst idle_end, snd idle_end)) as H2 by (vm_compute; reflexivity).
  destruct (updateCoreNumber_never_returns_on_an_idle_pool square (Some 4)
              (snd idle_mid) idle_sched (fst idle_end) (snd idle_end) H1 H2)
    as (_ & _ & H & _).
  split; [vm_compute; reflexivity|].
  split; [vm_compute; reflexivity|].
  split; [exact H1|].
  split; [exact H2|].
  split; [vm_compute; reflexivity|].
  split; [vm_compute; reflexivity|].
  exact H.
Defined.

(** The pool of [demo_calls] as constructed, on a platform that cannot
    tell its number of processors: resized to 0 cores, and resized with no
    count given. *)
Lemma updateCoreNumber_fails_after_the_teardown_witness :
  pool (workpool demo_s0) =
    Some (mkPool RUN [mkProc WStart true; mkProc WStart true]) /\
  SafeValue.value (active_workers (workpool demo_s0)) <= 0 /\
  c_int 0 < 1 /\
  method_solo (updateCoreNumber None (Some 0)) 6 (workpool demo_s0) UpdSetKill =
    ([EvKillSet; EvActiveRead 0; EvTeardown; EvKillClear; EvCoresSet 0; EvRaise ValueError],
     mkQueuedPool (SafeValue.mk 0) [] []
       (Some (mkPool TERMINATE [mkProc WStart false; mkProc WStart false]))
       (SafeValue.mk 0) (SafeValue.mk 0) false,
     Raise ValueError) /\
  method_solo (updateCoreNumber None None) 6 (workpool demo_s0) UpdSetKill =
    ([EvKillSet; EvActiveRead 0; EvTeardown; EvKillClear; EvRaise NotImplementedError],
     mkQueuedPool (SafeValue.mk 2) [] []
       (Some (mkPool TERMINATE [mkProc WStart false; mkProc WStart false]))
       (SafeValue.mk 0) (SafeValue.mk 0) false,
     Raise NotImplementedError).
Proof.
  assert (pool (workpool demo_s0) =
            Some (mkPool RUN [mkProc WStart true; mkProc WStart true])) as H1 by reflexivity.
  assert (SafeValue.value (active_workers (workpool demo_s0)) <= 0) as H2
    by (vm_compute; intros E; discriminate E).
  assert (c_int 0 < 1) as H3 by reflexivity.
  destruct (updateCoreNumber_fails_after_the_teardown None 0 (workpool demo_s0)
              _ H1 H2 H3) as (H4 & _ & H5).
  split; [exact H1|]. split; [exact H2|]. split; [exact H3|].
  split; [exact H4 | exact (H5 eq_refl)].
Defined.

(** ** Where the results come from *)

Lemma jobs_of_app (l1 l2 : list call) : jobs_of (l1 ++ l2) = jobs_of l1 ++ jobs_of l2.
Proof.
  induction l1 as [| c l1 IH]; simpl; [reflexivity|].
  destruct c; simpl; rewrite IH; reflexivity.
Qed.

Section Outcomes.

Variable func : list pyval -> exn + pyval.
Variable cpu_count : option Z.

Lemma held_killed (l : list proc) : concat (map (held func) (map kill l)) = [].
Proof. induction l as [| w l IH]; simpl; [reflexivity | assumption]. Qed.

Lemma held_fresh (n : nat) :
  concat (map (held func) (repeat (mkProc WStart true) n)) = [].
Proof. induction n as [| n IH]; simpl; [reflexivity | assumption]. Qed.

(** The outcomes held by the workers, around the one of worker [i]. *)
Lemma held_insert (l : list proc) (i : nat) (w w' : proc) :
  l !! i = Some w ->
  exists l1 l2,
    concat (map (held func) l) = l1 ++ held func w ++ l2 /\
    concat (map (held func) (<[i := w']> l)) = l1 ++ held func w' ++ l2 /\
    ((length l <= 1)%nat -> l1 = [] /\ l2 = []).
Proof.
  revert i. induction l as [| x l IH]; intros [| i] H; simpl in *; try discriminate.
  - inversion H; subst. exists [], (concat (map (held func) l)).
    repeat apply conj; try reflexivity.
    intros Hl. destruct l; [split; reflexivity | simpl in Hl; lia].
  - destruct (IH i H) as (l1 & l2 & E1 & E2 & _).
    exists (held func x ++ l1), l2. rewrite E1, E2, <- !app_assoc.
    repeat apply conj; try reflexivity.
    intros Hl. destruct l; [discriminate | simpl in Hl; lia].
Qed.

Ltac owed_norm :=
  repeat first
    [ rewrite concat_app | rewrite List.filter_app | rewrite map_app
    | rewrite held_killed | rewrite held_fresh | rewrite wrap_job_is_job
    | rewrite app_nil_r | rewrite <- app_assoc | progress simpl ].

(** A step of the caller keeps the outcomes in place, in order; it adds
    the job of an [addJob] that begins, and a teardown drops what the
    workers hold. *)
Lemma owed_manager (s : system) (e : event) (s' : system) :
  manager_step cpu_count s = Some (e, s') ->
  exists cs, script s = cs ++ script s' /\
    owed func s' `sublist_of` owed func s ++ map (outcome_of func) (jobs_of cs).
Proof.
  unfold manager_step, owed.
  destruct s as [q m sc ret]; simpl.
  intros H.
  destruct m as [| job [] | [] | [] | c [] |]; simpl in H.
  1: { destruct sc as [| c rest]; [discriminate|]. inversion H; subst; clear H.
       exists [c]. split; [reflexivity|]. simpl.
       destruct c; simpl; rewrite ?app_nil_r; try reflexivity.
       rewrite <- !app_assoc. reflexivity. }
  all: unfold get_nowait, startPool, new_Pool, put in H;
    break_step H; inversion H; subst; clear H; simpl in *.
  all: exists []; split; [reflexivity|]; simpl; rewrite ?app_nil_r.
  all: repeat match goal with E : _ = _ |- _ => rewrite E end.
  all: unfold outcome_of; owed_norm.
  all: try reflexivity.
  all: repeat (apply sublist_app; [reflexivity|]).
  all: apply sublist_inserts_l; reflexivity.
Qed.

(** A step of a worker moves one outcome, from the job queue to the
    worker's hands or from there to the result queue, or drops it when
    the call raises; with one process in the pool the order is kept. *)
Lemma owed_worker (i : nat) (s : system) (e : event) (s' : system) :
  worker_step func i s = Some (e, s') ->
  script s' = script s /\
  owed func s' ⊆+ owed func s /\
  ((forall p, pool (workpool s) = Some p -> (length (procs p) <= 1)%nat) ->
   owed func s' `sublist_of` owed func s).
Proof.
  intros H.
  destruct (worker_step_frame func i s e s' H)
    as (Hm & Hsc & Hret & Hc & Ht & Hk & Hp' & p & w & at' & self' &
        Epool & Ew & Ealive & Estep & Ein & Eout & Eact & Epool').
  split; [assumption|].
  destruct (held_insert (procs p) i w (mkProc at' true) Ew) as (l1 & l2 & E1 & E2 & E3).
  unfold owed. rewrite Hm, Hret, Ein, Eout, Epool', Epool. simpl. rewrite E1, E2.
  clear E1 E2 H Hm Hsc Hret Hc Ht Hk Hp' Epool' Eact Ein Eout.
  destruct w as [at_ al]; simpl in Ealive; subst al.
  unfold held; simpl.
  assert ((forall p0, Some p = Some p0 -> (length (procs p0) <= 1)%nat) ->
          l1 = [] /\ l2 = []) as Hone.
  { intros Hl. apply E3. apply Hl. reflexivity. }
  clear E3.
  destruct at_; simpl in Estep; break_step Estep; inversion Estep; subst; clear Estep;
    simpl in *;
    repeat match goal with E : input_queue _ = _ |- _ => rewrite E in * end;
    unfold put, is_job in *; simpl in *;
    repeat match goal with E : is_None _ = _ |- _ => rewrite E in * end;
    simpl in *.
  all: try (split; [reflexivity | intros _; reflexivity]).
  all: unfold star_call;
    repeat match goal with
           | E : unpack _ = _ |- _ => rewrite E
           | E : func _ = _ |- _ => rewrite E
           end;
    rewrite ?map_app; simpl; rewrite <- ?app_assoc; simpl.
  all: first
    [ (* the call returns *)
      split; [reflexivity | intros _; reflexivity]
    | (* the call raises: the outcome is dropped *)
      split; [apply sublist_submseteq|intros _];
      do 4 (apply sublist_app; [reflexivity|]);
      apply sublist_cons; reflexivity
    | (* a job is pulled, a result is pushed *)
      split;
      [ apply Permutation_submseteq; do 3 (apply Permutation_app_head);
        try apply Permutation_app_head; apply Permutation_middle
      | intros Hl; destruct (Hone Hl) as [-> ->]; reflexivity ] ].
Qed.

(** Along a run the outcomes stay where they are, move towards the caller
    or are dropped; the calls that begin add their jobs. *)
Lemma owed_run (sched : list actor) :
  forall s tr s',
    run func cpu_count sched s = Some (tr, s') ->
    exists cs, script s = cs ++ script s' /\
      owed func s' ⊆+ owed func s ++ map (outcome_of func) (jobs_of cs).
Proof.
  induction sched as [| a sched IH]; intros s tr s' Hrun; simpl in Hrun.
  - inversion Hrun; subst. exists []. simpl. rewrite app_nil_r. split; reflexivity.
  - destruct (step func cpu_count a s) as [[e s1]|] eqn:Hs; [|discriminate].
    destruct (run func cpu_count sched s1) as [[tr1 s2]|] eqn:Hr; [|discriminate].
    inversion Hrun; subst; clear Hrun.
    destruct (IH s1 tr1 s' Hr) as (cs2 & E2 & H2).
    assert (exists cs1, script s = cs1 ++ script s1 /\
              owed func s1 ⊆+ owed func s ++ map (outcome_of func) (jobs_of cs1))
      as (cs1 & E1 & H1).
    { destruct a as [| i]; simpl in Hs.
      - destruct (owed_manager s e s1 Hs) as (cs & E & H).
        exists cs. split; [assumption | apply sublist_submseteq; assumption].
      - destruct (owed_worker i s e s1 Hs) as (E & H & _).
        exists []. simpl. rewrite app_nil_r. split; [symmetry; assumption | assumption]. }
    exists (cs1 ++ cs2). split; [rewrite E1, E2, app_assoc; reflexivity|].
    rewrite jobs_of_app, map_app, app_assoc.
    etransitivity; [exact H2|]. apply submseteq_app; [assumption | reflexivity].
Qed.

Lemma single_step (a : actor) (s : system) (e : event) (s' : system) :
  single cpu_count s -> step func cpu_count a s = Some (e, s') -> single cpu_count s'.
Proof.
  unfold single. intros (Hc & Hp & Hsc & Hm) H.
  destruct a as [| i]; simpl in H.
  - unfold manager_step in H.
    destruct s as [q m sc ret]; simpl in *.
    destruct m as [| job [] | [] | [] | c [] |]; simpl in H.
    1: { destruct sc as [| c rest]; [discriminate|]. inversion H; subst; clear H.
         simpl in *. apply andb_prop in Hsc. destruct Hsc as [H1 H2].
         repeat apply conj; try assumption. destruct c; simpl; auto. }
    all: unfold get_nowait, startPool, new_Pool, put, call_cpu_count in H;
      break_step H; inversion H; subst; clear H; simpl in *.
    all: repeat apply conj; try assumption; try exact I.
    all: try (intros p0 Hp0).
    all: try (apply Hp; congruence).
    all: try (inversion Hp0; subst; simpl; rewrite ?length_map, ?repeat_length).
    all: try (apply Hp; congruence).
    all: unfold SafeValue.value in *; simpl in *; try lia.
    all: repeat match goal with
                | E : inr _ = inr _ |- _ => inversion E; subst; clear E
                | E : cpu_count = _ |- _ => rewrite E in *
                end; lia.
  - destruct (worker_step_frame func i s e s' H)
      as (Hm' & Hsc' & Hret & Hc' & Ht & Hk & Hp' & p & w & at' & self' &
          Epool & Ew & Ealive & Estep & Ein & Eout & Eact & Epool').
    rewrite Hm', Hsc', Hc', Epool'.
    repeat apply conj; try assumption.
    intros p0 Hp0. inversion Hp0; subst; clear Hp0. simpl.
    rewrite length_insert. apply Hp. assumption.
Qed.

(** With one process in the pool the outcomes also keep their order. *)
Lemma owed_run_single (sched : list actor) :
  forall s tr s',
    single cpu_count s ->
    run func cpu_count sched s = Some (tr, s') ->
    exists cs, script s = cs ++ script s' /\
      owed func s' `sublist_of` owed func s ++ map (outcome_of func) (jobs_of cs).
Proof.
  induction sched as [| a sched IH]; intros s tr s' Hone Hrun; simpl in Hrun.
  - inversion Hrun; subst. exists []. simpl. rewrite app_nil_r. split; reflexivity.
  - destruct (step func cpu_count a s) as [[e s1]|] eqn:Hs; [|discriminate].
    destruct (run func cpu_count sched s1) as [[tr1 s2]|] eqn:Hr; [|discriminate].
    inversion Hrun; subst; clear Hrun.
    pose proof (single_step a s e s1 Hone Hs) as Hone1.
    destruct (IH s1 tr1 s' Hone1 Hr) as (cs2 & E2 & H2).
    assert (exists cs1, script s = cs1 ++ script s1 /\
              owed func s1 `sublist_of` owed func s ++ map (outcome_of func) (jobs_of cs1))
      as (cs1 & E1 & H1).
    { destruct a as [| i]; simpl in Hs.
      - apply (owed_manager s e s1 Hs).
      - destruct (owed_worker i s e s1 Hs) as (E & _ & H).
        exists []. simpl. rewrite app_nil_r. split; [symmetry; assumption|].
        apply H. apply Hone. }
    exists (cs1 ++ cs2). split; [rewrite E1, E2, app_assoc; reflexivity|].
    rewrite jobs_of_app, map_app, app_assoc.
    etransitivity; [exact H2|]. apply sublist_app; [assumption | reflexivity].
Qed.

Lemma program_owes_nothing (c : option Z) (calls : list call) (s0 : system) :
  program cpu_count c calls = inr s0 ->
  owed func s0 = [] /\ script s0 = calls.
Proof.
  unfold program. destruct (__init__ cpu_count c) as [x | q] eqn:Hi; [discriminate|].
  intros H. inversion H; subst; clear H.
  destruct (init_sets_pool cpu_count c q Hi)
    as (p & Hp & Hst & Hpr & Hc & Hin & Hout & Ht & Ha & Hk).
  unfold owed. simpl. rewrite Hin, Hout, Hp. simpl. rewrite Hpr, held_fresh.
  split; reflexivity.
Qed.

(** The results that the caller has and those in the result queue are
    among the outcomes, in their order. *)
Lemma results_in_owed (s : system) :
  map inr (concat (returned s) ++ output_queue (workpool s))
    `sublist_of` owed func s.
Proof.
  unfold owed. rewrite map_app.
  apply sublist_app; [reflexivity|].
  apply sublist_inserts_l. apply sublist_inserts_r. reflexivity.
Qed.

(** X9.  Every result that [getResults] has returned, and every result in
    the result queue, is the result of a job that was submitted, and no
    job gives two of them: in every run of every script, the results
    (returned and queued) are, as a multiset, contained in the outcomes of
    the worker function on the jobs of the [addJob] calls that have begun.
    So are, with them, the outcomes that the workers hold and those of
    the jobs in the job queue. *)
Theorem results_come_from_submitted_jobs
    (c : option Z) (calls : list call) (s0 : system)
    (sched : list actor) (tr : list (actor * event)) (s : system) :
  program cpu_count c calls = inr s0 ->
  run func cpu_count sched s0 = Some (tr, s) ->
  exists begun,
    calls = begun ++ script s /\
    owed func s ⊆+ map (outcome_of func) (jobs_of begun) /\
    map inr (concat (returned s) ++ output_queue (workpool s))
      ⊆+ map (outcome_of func) (jobs_of begun).
Proof.
  intros Hprog Hrun.
  destruct (program_owes_nothing c calls s0 Hprog) as [E0 Esc].
  destruct (owed_run sched s0 tr s Hrun) as (cs & E & H).
  rewrite E0 in H. simpl in H. rewrite Esc in E.
  exists cs. repeat apply conj; [assumption | assumption |].
  etransitivity; [apply sublist_submseteq, results_in_owed | assumption].
Qed.

(** X10.  With one worker process the results come in the order of
    submission: when the pool is constructed with one core and no call
    resizes it to more, then in every run of every script the results
    (returned, then queued) are a subsequence of the outcomes of the
    worker function on the jobs of the [addJob] calls that have begun,
    taken in the order of those calls. *)
Theorem one_worker_keeps_the_order_of_submission
    (calls : list call) (s0 : system)
    (sched : list actor) (tr : list (actor * event)) (s : system) :
  program cpu_count (Some 1) calls = inr s0 ->
  forallb (one_core cpu_count) calls = true ->
  run func cpu_count sched s0 = Some (tr, s) ->
  exists begun,
    calls = begun ++ script s /\
    owed func s `sublist_of` map (outcome_of func) (jobs_of begun) /\
    map inr (concat (returned s) ++ output_queue (workpool s))
      `sublist_of` map (outcome_of func) (jobs_of begun).
Proof.
  intros Hprog Hcalls Hrun.
  destruct (program_owes_nothing (Some 1) calls s0 Hprog) as [E0 Esc].
  assert (single cpu_count s0) as Hone.
  { unfold program, __init__, startPool, new_Pool in Hprog. simpl in Hprog.
    inversion Hprog; subst; clear Hprog. unfold single. simpl.
    repeat apply conj; try assumption; try exact I.
    - vm_compute. intros E; discriminate E.
    - intros p Hp. inversion Hp; subst. simpl. lia. }
  destruct (owed_run_single sched s0 tr s Hone Hrun) as (cs & E & H).
  rewrite E0 in H. simpl in H. rewrite Esc in E.
  exists cs. repeat apply conj; [assumption | assumption |].
  etransitivity; [apply results_in_owed | assumption].
Qed.

End Outcomes.

(** The run of [demo_calls] up to the poll of [closePool]. *)
Lemma results_come_from_submitted_jobs_witness :
  program (Some 4) (Some 2) demo_calls = inr demo_s0 /\
  run square (Some 4) demo_sched0 demo_s0 = Some demo_mid /\
  exists begun,
    demo_calls = begun ++ script (snd demo_mid) /\
    owed square (snd demo_mid) ⊆+ map (outcome_of square) (jobs_of begun) /\
    map inr (concat (returned (snd demo_mid)) ++ output_queue (workpool (snd demo_mid)))
      ⊆+ map (outcome_of square) (jobs_of begun).
Proof.
  assert (program (Some 4) (Some 2) demo_calls = inr demo_s0) as H1
    by (vm_compute; reflexivity).
  assert (run square (Some 4) demo_sched0 demo_s0 = Some (fst demo_mid, snd demo_mid)) as H2
    by (vm_compute; reflexivity).
  split; [exact H1|]. split; [exact H2|].
  exact (results_come_from_submitted_jobs square (Some 4) (Some 2) demo_calls demo_s0
           demo_sched0 (fst demo_mid) (snd demo_mid) H1 H2).
Defined.

(** One core and the jobs 3 and 4: the results are 9 and 16, in this
    order. *)
Lemma one_worker_keeps_the_order_of_submission_witness :
  program (Some 4) (Some 1) order_calls = inr order_s0 /\
  forallb (one_core (Some 4)) order_calls = true /\
  run square (Some 4) order_sched order_s0 = Some order_end /\
  concat (returned (snd order_end)) = [PInt 9; PInt 16] /\
  exists begun,
    order_calls = begun ++ script (snd order_end) /\
    owed square (snd order_end) `sublist_of` map (outcome_of square) (jobs_of begun) /\
    map inr (concat (returned (snd order_end)) ++ output_queue (workpool (snd order_end)))
      `sublist_of` map (outcome_of square) (jobs_of begun).
Proof.
  assert (program (Some 4) (Some 1) order_calls = inr order_s0) as H1
    by (vm_compute; reflexivity).
  assert (forallb (one_core (Some 4)) order_calls = true) as H2 by reflexivity.
  assert (run square (Some 4) order_sched order_s0 = Some (fst order_end, snd order_end))
    as H3 by (vm_compute; reflexivity).
  split; [exact H1|]. split; [exact H2|]. split; [exact H3|].
  split; [reflexivity|].
  exact (one_worker_keeps_the_order_of_submission square (Some 4) order_calls order_s0
           order_sched (fst order_end) (snd order_end) H1 H2 H3).
Defined.

(** ** The arguments of the calls of the worker function *)

Lemma unpack_wrap_job (job : pyval) : unpack (wrap_job job) = inr (args_of job).
Proof. destruct job; reflexivity. Qed.

Section Calls.

Variable func : list pyval -> exn + pyval.
Variable cpu_count : option Z.

Lemma calls_killed (jobs : list pyval) (l : list proc) :
  Forall (fun w => forall args, pc w = WCall args -> queued_form_of jobs args) l ->
  Forall (fun w => forall args, pc w = WCall args -> queued_form_of jobs args) (map kill l).
Proof.
  induction 1 as [| w l Hw Hl IH]; simpl; [apply Forall_nil; exact I|].
  apply Forall_cons. split; [exact Hw | exact IH].
Qed.

Lemma calls_fresh (jobs : list pyval) (n : nat) :
  Forall (fun w => forall args, pc w = WCall args -> queued_form_of jobs args)
         (repeat (mkProc WStart true) n).
Proof.
  induction n as [| n IH]; simpl; [apply Forall_nil; exact I|].
  apply Forall_cons. split; [intros args E; discriminate E | exact IH].
Qed.

Lemma jobs_known_step (calls : list call) (a : actor) (s : system) (e : event) (s' : system) :
  jobs_known calls s -> step func cpu_count a s = Some (e, s') ->
  jobs_known calls s' /\ call_of_a_job func (jobs_of calls) (a, e).
Proof.
  unfold jobs_known, call_of_a_job. intros (Hq & Hw & Hsc & Hm) H.
  destruct a as [| i]; simpl in H.
  - unfold manager_step in H.
    destruct s as [q m sc ret]; simpl in *.
    destruct m as [| job [] | [] | [] | c [] |]; simpl in H.
    1: { destruct sc as [| c rest]; [discriminate|]. inversion H; subst; clear H.
         simpl. repeat apply conj; try assumption; try exact I.
         - intros job Hj. apply Hsc. destruct c; simpl; auto.
         - intros job at_ E. apply Hsc. destruct c; simpl in E; inversion E; subst.
           simpl. auto. }
    all: unfold get_nowait, startPool, new_Pool, put in H;
      break_step H; inversion H; subst; clear H; simpl in *.
    all: repeat apply conj; try assumption; try exact I; try discriminate.
    all: try (intros p0 Hp0; inversion Hp0; subst; clear Hp0; simpl).
    all: try (apply Hw; congruence).
    all: try (apply Forall_app; split; [assumption|]; apply Forall_cons; split;
              [| apply Forall_nil; exact I]).
    all: try (left; reflexivity).
    all: try (right; exists job; split; [eapply Hm; reflexivity | reflexivity]).
    all: try (intros job0 at0 E; inversion E; subst; eapply Hm; reflexivity).
    all: try (match goal with E : input_queue _ = _ |- _ => rewrite E; assumption end).
    all: try (apply calls_killed; apply Hw; first [assumption | reflexivity]).
    all: try (apply calls_fresh).
  - destruct (worker_step_frame func i s e s' H)
      as (Hm' & Hsc' & Hret & Hc' & Ht & Hk & Hp' & p & w & at' & self' &
          Epool & Ew & Ealive & Estep & Ein & Eout & Eact & Epool').
    assert (Forall (fun x => x = PNone \/ queued_form_of (jobs_of calls) x)
                   (input_queue self') ->
            (forall args, at' = WCall args -> queued_form_of (jobs_of calls) args) ->
            Forall (fun x => x = PNone \/ queued_form_of (jobs_of calls) x)
                   (input_queue (workpool s')) /\
            (forall p0, pool (workpool s') = Some p0 ->
               Forall (fun w => forall args, pc w = WCall args ->
                                  queued_form_of (jobs_of calls) args) (procs p0)) /\
            (forall job, In job (jobs_of (script s')) -> In job (jobs_of calls)) /\
            (forall job at_, mpc s' = MAddJob job at_ -> In job (jobs_of calls)))
      as Hstate.
    { intros Hq' Hat. rewrite Hm', Hsc', Ein, Epool'. repeat apply conj; try assumption.
      intros p0 E. inversion E; subst; clear E. simpl.
      apply Forall_insert; [apply Hw; assumption | exact Hat]. }
    specialize (Hw p Epool). rewrite Forall_lookup in Hw. specialize (Hw i w Ew).
    clear Hm' Hsc' Hret Hc' Ht Hk Hp' Ein Eout Eact Epool' H.
    destruct (pc w) eqn:Epc; simpl in Estep; break_step Estep;
      inversion Estep; subst; clear Estep; simpl.
    all: repeat match goal with E : input_queue _ = _ |- _ => rewrite E in Hq end.
    all: try (apply Forall_cons in Hq; destruct Hq as [Hx Hq]).
    all: try (destruct (Hw _ eq_refl) as (job & Hj & ->); rewrite unpack_wrap_job in *).
    all: try discriminate.
    all: repeat match goal with E : inr _ = inr _ |- _ => inversion E; subst; clear E end.
    all: split; [apply Hstate; simpl; try assumption | try exact I].
    all: try (intros args E; discriminate E).
    all: try (intros args E; inversion E; subst;
              destruct Hx as [-> | Hx]; [discriminate | assumption]).
    all: try (exists job; auto).
Qed.

(** X14.  The worker function is called on the jobs of the script and on
    nothing else: in every run of every script, each call in a worker is
    the worker function on the arguments of a job given to [addJob] (the
    elements of a list; any other value, also a tuple or a string, as the
    one argument), and an exception in a worker is always raised by the
    worker function itself, never by the unpacking of a job. *)
Theorem workers_call_the_function_on_submitted_jobs_only
    (c : option Z) (calls : list call) (s0 : system)
    (sched : list actor) (tr : list (actor * event)) (s : system) :
  program cpu_count c calls = inr s0 ->
  run func cpu_count sched s0 = Some (tr, s) ->
  Forall (call_of_a_job func (jobs_of calls)) tr /\
  Forall (fun x => x = PNone \/ queued_form_of (jobs_of calls) x)
         (input_queue (workpool s)).
Proof.
  intros Hprog Hrun.
  assert (jobs_known calls s /\ Forall (call_of_a_job func (jobs_of calls)) tr) as [H1 H2].
  { eapply (run_trace_preserves func cpu_count (jobs_known calls)
              (call_of_a_job func (jobs_of calls))); [| | eassumption].
    - intros a s1 e s2. apply jobs_known_step.
    - unfold program in Hprog.
      destruct (__init__ cpu_count c) as [x | q] eqn:Hi; [discriminate|].
      inversion Hprog; subst; clear Hprog.
      destruct (init_sets_pool cpu_count c q Hi)
        as (p & Hp & Hst & Hpr & Hc & Hin & Hout & Ht & Ha & Hk).
      unfold jobs_known. simpl. rewrite Hin, Hp.
      repeat apply conj; try (intros; assumption).
      + apply Forall_nil. exact I.
      + intros p0 E. inversion E; subst; clear E. rewrite Hpr. apply calls_fresh.
      + intros job at_ E. discriminate E. }
  split; [assumption | apply H1].
Qed.

(** ** A resize after a worker was stopped before its decrement *)

Lemma resize_blocked_step (a : actor) (s : system) (e : event) (s' : system) :
  resize_blocked s -> step func cpu_count a s = Some (e, s') ->
  (resize_blocked s' /\
   active_workers (workpool s') = active_workers (workpool s) /\
   pool (workpool s') = pool (workpool s)) /\
  (fun ae : actor * event => fst ae = Manager /\ snd ae <> EvTeardown) (a, e).
Proof.
  unfold resize_blocked.
  intros ((c & at_ & Hm & Hat) & Hpos & p & Hp & Hdead) H.
  destruct a as [| i]; simpl in H.
  - unfold manager_step in H. rewrite Hm in H.
    assert ((0 <? SafeValue.value (active_workers (workpool s))) = true) as Hz by lia.
    destruct Hat as [-> | ->]; simpl in H; try rewrite Hz in H;
      inversion H; subst; clear H; simpl;
      (split; [|split; [reflexivity | discriminate]]);
      repeat apply conj; eauto.
  - exfalso.
    destruct (worker_step_frame func i s e s' H)
      as (_ & _ & _ & _ & _ & _ & _ & p' & w & at' & self' &
          Epool & Ew & Ealive & _).
    rewrite Hp in Epool. inversion Epool; subst p'.
    eapply all_dead_not_alive; eassumption.
Qed.

(** X15.  [updateCoreNumber] never returns on a pool whose processes are
    all stopped while the counter of active workers is above 0, as
    [closePool] leaves it when it stops a worker between its pill and its
    decrement: no process is left to decrement the counter for which the
    resize waits.  In every run from such a state only the caller moves,
    and it stays before the teardown; the counter and the pool stay as
    they are. *)
Theorem updateCoreNumber_never_returns_when_a_stopped_worker_is_counted
    (s : system) (sched : list actor) (tr : list (actor * event)) (s' : system) :
  resize_blocked s ->
  run func cpu_count sched s = Some (tr, s') ->
  (exists c at_, mpc s' = MUpdateCoreNumber c at_ /\ (at_ = UpdSetKill \/ at_ = UpdWait)) /\
  active_workers (workpool s') = active_workers (workpool s) /\
  pool (workpool s') = pool (workpool s) /\
  Forall (fun ae => fst ae = Manager /\ snd ae <> EvTeardown) tr.
Proof.
  intros Hb Hrun.
  assert ((resize_blocked s' /\
           active_workers (workpool s') = active_workers (workpool s) /\
           pool (workpool s') = pool (workpool s)) /\
          Forall (fun ae => fst ae = Manager /\ snd ae <> EvTeardown) tr) as [(H1 & H2 & H3) H4].
  { eapply (run_trace_preserves func cpu_count
              (fun t => resize_blocked t /\
                        active_workers (workpool t) = active_workers (workpool s) /\
                        pool (workpool t) = pool (workpool s))
              (fun ae => fst ae = Manager /\ snd ae <> EvTeardown)); [| | eassumption].
    - intros a s1 e s2 (Hb1 & Ea & Ep) Hstep.
      destruct (resize_blocked_step a s1 e s2 Hb1 Hstep) as [(Hb2 & Ea2 & Ep2) HQ].
      split; [|exact HQ]. split; [exact Hb2 | split; congruence].
    - split; [exact Hb | split; reflexivity]. }
  split; [apply H1|]. split; [exact H2|]. split; [exact H3 | exact H4].
Qed.

End Calls.

(** The run of [demo_calls] to its end: three calls, on [[1]], [[2]] and
    [[3]]. *)
Lemma workers_call_the_function_on_submitted_jobs_only_witness :
  program (Some 4) (Some 2) demo_calls = inr demo_s0 /\
  run square (Some 4) (demo_sched0 ++ demo_sched1 ++ demo_sched2) demo_s0 = Some demo_end /\
  List.filter (fun e => is_EvCall e) (map snd (fst demo_end)) =
    [EvCall (PList [PInt 1]) (PInt 1); EvCall (PList [PInt 2]) (PInt 4);
     EvCall (PList [PInt 3]) (PInt 9)] /\
  Forall (call_of_a_job square (jobs_of demo_calls)) (fst demo_end) /\
  Forall (fun x => x = PNone \/ queued_form_of (jobs_of demo_calls) x)
         (input_queue (workpool (snd demo_end))).
Proof.
  assert (program (Some 4) (Some 2) demo_calls = inr demo_s0) as H1
    by (vm_compute; reflexivity).
  assert (run square (Some 4) (demo_sched0 ++ demo_sched1 ++ demo_sched2) demo_s0 =
          Some (fst demo_end, snd demo_end)) as H2 by (vm_compute; reflexivity).
  split; [exact H1|]. split; [exact H2|]. split; [vm_compute; reflexivity|].
  exact (workers_call_the_function_on_submitted_jobs_only square (Some 4) (Some 2)
           demo_calls demo_s0 _ (fst demo_end) (snd demo_end) H1 H2).
Defined.

(** One core, [closePool] at once with the worker stopped before its
    decrement, then [updateCoreNumber(2)]: the caller reads 1 from the
    counter of active workers, again and again. *)
Lemma updateCoreNumber_never_returns_when_a_stopped_worker_is_counted_witness :
  program (Some 4) (Some 1) blocked_calls = inr blocked_s0 /\
  run square (Some 4) (race_sched ++ [Manager]) blocked_s0 = Some blocked_mid /\
  resize_blocked (snd blocked_mid) /\
  run square (Some 4) (repeat Manager 4) (snd blocked_mid) = Some blocked_end /\
  map snd (fst blocked_end) =
    [EvKillSet; EvActiveRead 1; EvActiveRead 1; EvActiveRead 1] /\
  mpc (snd blocked_end) = MUpdateCoreNumber (Some 2) UpdWait /\
  pool (workpool (snd blocked_end)) = Some (mkPool TERMINATE [mkProc WDecr false]).
Proof.
  assert (resize_blocked (snd blocked_mid)) as H1.
  { unfold resize_blocked.
    split; [eexists; eexists; split; [reflexivity | left; reflexivity]|].
    split; [reflexivity|].
    eexists. split; [reflexivity|].
    unfold all_dead. simpl. apply Forall_cons. split; [reflexivity | apply Forall_nil; exact I]. }
  assert (run square (Some 4) (repeat Manager 4) (snd blocked_mid) =
          Some (fst blocked_end, snd blocked_end)) as H2 by (vm_compute; reflexivity).
  destruct (updateCoreNumber_never_returns_when_a_stopped_worker_is_counted square (Some 4)
              (snd blocked_mid) (repeat Manager 4) (fst blocked_end) (snd blocked_end) H1 H2)
    as (_ & _ & H3 & _).
  split; [vm_compute; reflexivity|].
  split; [vm_compute; reflexivity|].
  split; [exact H1|].
  split; [exact H2|].
  split; [reflexivity|].
  split; [reflexivity|].
  exact H3.
Defined.

(** ** A resize that overtakes a starting worker *)

Section LostJob.

Variable func : list pyval -> exn + pyval.
Variable cpu_count : option Z.

(** A teardown that stops a worker with a job leaves the job missing. *)
Lemma teardown_with_a_job_short (N : nat) (s : system) (c : option Z)
    (e : event) (s1 : system) :
  accounted N s ->
  mpc s = MUpdateCoreNumber c UpdJoin ->
  (0 < pool_in_flight (pool (workpool s)))%nat ->
  manager_step cpu_count s = Some (e, s1) ->
  e = EvTeardown /\ mpc s1 = MUpdateCoreNumber c UpdClear /\ short s1.
Proof.
  unfold accounted, short, fetched, pending_put, manager_step.
  intros (H0 & HN & HM & Hacc & Hp) Hm Hfl H.
  rewrite Hm in *. simpl in H.
  destruct (pool (workpool s)) as [p|] eqn:Epool; [|contradiction].
  inversion H; subst; clear H. simpl in *.
  rewrite in_flight_killed. repeat apply conj; try reflexivity. lia.
Qed.

(** X16.  [updateCoreNumber] waits until the counter of active workers
    reads 0, which it also does before a worker has started.  When its
    teardown then stops a worker that has pulled a job in the meantime,
    the job is lost: whatever is called afterwards and however the steps
    interleave, no [closePool] gets past its poll, and a [closePool] that
    is called never returns. *)
Theorem updateCoreNumber_can_lose_a_job_and_block_closePool
    (c : option Z) (calls : list call) (s0 : system)
    (sched0 : list actor) (tr0 : list (actor * event)) (s : system) (c' : option Z)
    (sched : list actor) (tr : list (actor * event)) (s' : system) :
  program cpu_count c calls = inr s0 ->
  Z.of_nat (count_adds calls) <= INT_MAX ->
  run func cpu_count sched0 s0 = Some (tr0, s) ->
  mpc s = MUpdateCoreNumber c' UpdJoin ->
  (0 < pool_in_flight (pool (workpool s)))%nat ->
  run func cpu_count (Manager :: sched) s = Some (tr, s') ->
  Forall (fun ae => is_caught_up_event ae = false) tr /\
  past_poll (mpc s') = false /\
  forall sched2 tr2 s2,
    run func cpu_count sched2 s' = Some (tr2, s2) ->
    Forall (fun ae => is_caught_up_event ae = false) tr2 /\
    ((exists at_, mpc s' = MClosePool at_) -> exists at_, mpc s2 = MClosePool at_).
Proof.
  intros Hprog HN Hrun0 Hm Hfl Hrun.
  destruct (program_reach func cpu_count c calls s0 Hprog HN sched0 tr0 s Hrun0)
    as [Hacc Hpi].
  simpl in Hrun.
  destruct (manager_step cpu_count s) as [[e s1]|] eqn:Hstep; [|discriminate].
  destruct (run func cpu_count sched s1) as [[tr1 s1']|] eqn:Hrun1; [|discriminate].
  inversion Hrun; subst; clear Hrun.
  destruct (teardown_with_a_job_short _ s c' e s1 Hacc Hm Hfl Hstep) as (-> & Hm1 & Hsh).
  assert (accounted (count_adds calls) s1) as Hacc1
    by (eapply (accounted_step func cpu_count _ Manager); eassumption).
  assert (poll_inv s1) as Hpi1 by (unfold poll_inv; rewrite Hm1; discriminate).
  destruct (short_blocks_close func cpu_count _ sched s1 tr1 s' Hacc1 Hpi1 Hsh Hrun1)
    as [(Hacc' & Hpi' & Hsh') Htr].
  repeat apply conj.
  - apply Forall_cons. split; [reflexivity | assumption].
  - apply short_not_past_poll; assumption.
  - intros sched2 tr2 s2 Hrun2.
    destruct (short_blocks_close func cpu_count _ sched2 s' tr2 s2 Hacc' Hpi' Hsh' Hrun2)
      as [_ Htr2].
    split; [assumption|]. intros Hin.
    exact (short_close_stays func cpu_count _ sched2 s' tr2 s2 Hacc' Hpi' Hsh' Hin Hrun2).
Qed.

End LostJob.

(** One core and one job, then [updateCoreNumber(2)] at once, which reads
    0 from the counter before the worker has started; the worker starts
    and pulls the job, the teardown stops it, and the [closePool] that
    follows polls for ever. *)
Lemma updateCoreNumber_can_lose_a_job_and_block_closePool_witness :
  program (Some 4) (Some 1) lost_calls = inr lost_s0 /\
  run square (Some 4) lost_sched0 lost_s0 = Some lost_mid /\
  map snd (fst lost_mid) =
    [EvBegin (AddJob (PInt 3)); EvTotalIncr; EvJobPut (PList [PInt 3]);
     EvBegin (UpdateCoreNumber (Some 2)); EvKillSet; EvActiveRead 0;
     EvActiveIncr; EvGet (PList [PInt 3])] /\
  mpc (snd lost_mid) = MUpdateCoreNumber (Some 2) UpdJoin /\
  (0 < pool_in_flight (pool (workpool (snd lost_mid))))%nat /\
  run square (Some 4) lost_sched1 (snd lost_mid) = Some lost_end /\
  mpc (snd lost_end) = MClosePool ClosePoll /\
  output_queue (workpool (snd lost_end)) = [] /\
  Forall (fun ae => is_caught_up_event ae = false) (fst lost_end) /\
  past_poll (mpc (snd lost_end)) = false.
Proof.
  assert (program (Some 4) (Some 1) lost_calls = inr lost_s0) as H1
    by (vm_compute; reflexivity).
  assert (Z.of_nat (count_adds lost_calls) <= INT_MAX) as HN
    by (vm_compute; intros E; discriminate E).
  assert (run square (Some 4) lost_sched0 lost_s0 = Some (fst lost_mid, snd lost_mid)) as H2
    by (vm_compute; reflexivity).
  assert (mpc (snd lost_mid) = MUpdateCoreNumber (Some 2) UpdJoin) as H3 by reflexivity.
  assert (0 < pool_in_flight (pool (workpool (snd lost_mid))))%nat as H4
    by (vm_compute; constructor).
  assert (run square (Some 4) (Manager :: repeat Manager 7) (snd lost_mid) =
          Some (fst lost_end, snd lost_end)) as H5 by (vm_compute; reflexivity).
  destruct (updateCoreNumber_can_lose_a_job_and_block_closePool square (Some 4)
              (Some 1) lost_calls lost_s0 lost_sched0 (fst lost_mid) (snd lost_mid) (Some 2)
              (repeat Manager 7) (fst lost_end) (snd lost_end) H1 HN H2 H3 H4 H5)
    as (H6 & H7 & _).
  split; [exact H1|]. split; [exact H2|]. split; [reflexivity|].
  split; [exact H3|]. split; [exact H4|]. split; [exact H5|].
  split; [reflexivity|]. split; [reflexivity|]. split; [exact H6 | exact H7].
Defined.

(** ** closePool and updateCoreNumber on a closed pool *)

Section ClosedPool.

Variable func : list pyval -> exn + pyval.
Variable cpu_count : option Z.

(** The caller has called [closePool] on a pool whose processes are all
    stopped and is at its test of the handle. *)
Lemma closed_pool_close_step (a : actor) (s : system) (e : event) (s' : system) :
  ((exists p, pool (workpool s) = Some p /\ all_dead p) /\
   1 <= SafeValue.value (cores (workpool s)) /\
   mpc s = MClosePool CloseGuard) \/ close_stuck s ->
  step func cpu_count a s = Some (e, s') ->
  ((exists p, pool (workpool s') = Some p /\ all_dead p) /\
   1 <= SafeValue.value (cores (workpool s')) /\
   mpc s' = MClosePool CloseGuard) \/ close_stuck s'.
Proof.
  intros [((p & Hp & Hd) & Hc & Hm) | Hs] H.
  - right. destruct a as [| i]; simpl in H.
    + unfold manager_step in H. rewrite Hm in H. simpl in H. rewrite Hp in H.
      inversion H; subst; clear H. unfold close_stuck. simpl. rewrite Hp. auto.
    + exfalso.
      destruct (worker_step_frame func i s e s' H)
        as (_ & _ & _ & _ & _ & _ & _ & p' & w & _ & _ & Epool & Ew & Ealive & _).
      rewrite Hp in Epool. inversion Epool; subst p'.
      eapply all_dead_not_alive; eassumption.
  - right. eapply close_stuck_step; eassumption.
Qed.

(** C7.  Neither [closePool] nor [updateCoreNumber] guards against a call
    when no pool is running.  In every state that a constructed pool can
    reach, the handle is set, so the one test that [closePool] makes, of
    the handle against [None], lets it pass, and [updateCoreNumber] makes
    no test at all.  On a pool that has been closed (its processes are all
    stopped) both go on and misbehave: [closePool] never returns (with a
    core count of 1 or more it pushes pills that nobody takes, or polls
    for ever); [updateCoreNumber], when the counter of active workers is
    not positive, tears the closed pool down once more and starts a new
    pool, and when the counter is positive it never returns. *)
Theorem no_guard_against_a_closed_pool
    (c : option Z) (calls : list call) (s0 : system)
    (sched : list actor) (tr : list (actor * event)) (s : system) :
  program cpu_count c calls = inr s0 ->
  run func cpu_count sched s0 = Some (tr, s) ->
  exists p,
    pool (workpool s) = Some p /\
    closePool (workpool s) CloseGuard = (EvPoolIsNone false, workpool s, Next ClosePoll) /\
    (forall c',
        updateCoreNumber cpu_count c' (workpool s) UpdSetKill =
          (EvKillSet, with_kill_workers true (workpool s), Next UpdWait)) /\
    (all_dead p ->
     (1 <= SafeValue.value (cores (workpool s)) ->
      mpc s = MClosePool CloseGuard ->
      forall sched' tr' s',
        run func cpu_count sched' s = Some (tr', s') ->
        exists at_, mpc s' = MClosePool at_) /\
     (SafeValue.value (active_workers (workpool s)) <= 0 ->
      forall n, 1 <= n <= INT_MAX ->
        method_solo (updateCoreNumber cpu_count (Some n)) 6 (workpool s) UpdSetKill =
          ([EvKillSet; EvActiveRead (SafeValue.value (active_workers (workpool s)));
            EvTeardown; EvKillClear; EvCoresSet n; EvStartPool n],
           mkQueuedPool (SafeValue.mk n) (input_queue (workpool s))
             (output_queue (workpool s))
             (Some (mkPool RUN (repeat (mkProc WStart true) (Z.to_nat n))))
             (total_jobs (workpool s)) (active_workers (workpool s)) false,
           Return None)) /\
     (0 < SafeValue.value (active_workers (workpool s)) ->
      forall c', mpc s = MUpdateCoreNumber c' UpdSetKill ->
      forall sched' tr' s',
        run func cpu_count sched' s = Some (tr', s') ->
        exists c'' at_, mpc s' = MUpdateCoreNumber c'' at_ /\
                        (at_ = UpdSetKill \/ at_ = UpdWait))).
Proof.
  intros Hprog Hrun.
  pose proof (program_invariants func cpu_count c calls s0 Hprog sched tr s Hrun) as Hset.
  destruct (pool (workpool s)) as [p|] eqn:Hp; [|exfalso; apply Hset; reflexivity].
  exists p. split; [reflexivity|]. split; [simpl; rewrite Hp; reflexivity|].
  split; [intros c'; reflexivity|].
  intros Hd. split; [|split].
  - intros Hc Hm sched' tr' s' Hrun'.
    assert (((exists p, pool (workpool s') = Some p /\ all_dead p) /\
             1 <= SafeValue.value (cores (workpool s')) /\
             mpc s' = MClosePool CloseGuard) \/ close_stuck s') as H.
    { eapply (run_preserves func cpu_count
                (fun t => ((exists p, pool (workpool t) = Some p /\ all_dead p) /\
                           1 <= SafeValue.value (cores (workpool t)) /\
                           mpc t = MClosePool CloseGuard) \/ close_stuck t));
        [| |eassumption].
      - intros a s1 e s2. apply closed_pool_close_step.
      - left. split; [exists p; split; assumption|]. split; assumption. }
    destruct H as [(_ & _ & Hm') | (_ & _ & Hm')]; [eauto|].
    destruct (mpc s') as [| job a | a | a | c0 a |]; try contradiction. eauto.
  - intros Ha n Hn. apply (updateCoreNumber_alone cpu_count n (workpool s) p Hp Ha Hn).
  - intros Ha c' Hm sched' tr' s' Hrun'.
    assert (resize_blocked s') as ((c'' & at_ & H1 & H2) & _).
    { eapply (run_preserves func cpu_count resize_blocked); [| |eassumption].
      - intros a s1 e s2 Hb Hstep.
        apply (resize_blocked_step func cpu_count a s1 e s2 Hb Hstep).
      - unfold resize_blocked. split; [exists c', UpdSetKill; auto|].
        split; [assumption|]. exists p. split; assumption. }
    exists c'', at_. split; assumption.
Qed.

End ClosedPool.

(** One core; the pool is closed, and [closePool] is called again: it
    passes its test, finds the result queue caught up, pushes a pill and
    waits for it to be taken.  [updateCoreNumber(2)] on the closed pool
    starts a new pool.  And on the pool that [closePool] has closed with
    the worker stopped before its decrement, [updateCoreNumber(2)] polls
    the counter. *)
Lemma no_guard_against_a_closed_pool_witness :
  program (Some 4) (Some 1) twice_calls = inr twice_s0 /\
  run square (Some 4) twice_sched twice_s0 = Some twice_mid /\
  pool (workpool (snd twice_mid)) = Some (mkPool TERMINATE [mkProc WDone false]) /\
  mpc (snd twice_mid) = MClosePool CloseGuard /\
  run square (Some 4) (repeat Manager 6) (snd twice_mid) = Some twice_end /\
  map snd (fst twice_end) =
    [EvPoolIsNone false; EvCaughtUp true; EvJobPut PNone; EvRangeDone;
     EvInQsize 1; EvInQsize 1] /\
  mpc (snd twice_end) = MClosePool CloseWait /\
  method_solo (updateCoreNumber (Some 4) (Some 2)) 6 (workpool (snd twice_mid)) UpdSetKill =
    ([EvKillSet; EvActiveRead 0; EvTeardown; EvKillClear; EvCoresSet 2; EvStartPool 2],
     mkQueuedPool (SafeValue.mk 2) [] []
       (Some (mkPool RUN [mkProc WStart true; mkProc WStart true]))
       (SafeValue.mk 0) (SafeValue.mk 0) false,
     Return None) /\
  program (Some 4) (Some 1) blocked_calls = inr blocked_s0 /\
  run square (Some 4) (race_sched ++ [Manager]) blocked_s0 = Some blocked_mid /\
  run square (Some 4) (repeat Manager 4) (snd blocked_mid) = Some blocked_end /\
  mpc (snd blocked_end) = MUpdateCoreNumber (Some 2) UpdWait.
Proof.
  assert (program (Some 4) (Some 1) twice_calls = inr twice_s0) as H1
    by (vm_compute; reflexivity).
  assert (run square (Some 4) twice_sched twice_s0 = Some (fst twice_mid, snd twice_mid))
    as H2 by (vm_compute; reflexivity).
  assert (run square (Some 4) (repeat Manager 6) (snd twice_mid) =
          Some (fst twice_end, snd twice_end)) as H3 by (vm_compute; reflexivity).
  assert (program (Some 4) (Some 1) blocked_calls = inr blocked_s0) as H4
    by (vm_compute; reflexivity).
  assert (run square (Some 4) (race_sched ++ [Manager]) blocked_s0 =
          Some (fst blocked_mid, snd blocked_mid)) as H5 by (vm_compute; reflexivity).
  assert (run square (Some 4) (repeat Manager 4) (snd blocked_mid) =
          Some (fst blocked_end, snd blocked_end)) as H6 by (vm_compute; reflexivity).
  destruct (no_guard_against_a_closed_pool square (Some 4) (Some 1) twice_calls twice_s0
              twice_sched (fst twice_mid) (snd twice_mid) H1 H2)
    as (p & Hp & _ & _ & Hclosed).
  assert (p = mkPool TERMINATE [mkProc WDone false]) as -> by (inversion Hp; reflexivity).
  assert (all_dead (mkPool TERMINATE [mkProc WDone false])) as Hd.
  { unfold all_dead. simpl. apply Forall_cons. split; [reflexivity | apply Forall_nil; exact I]. }
  destruct (Hclosed Hd) as (_ & Hrestart & _).
  assert (SafeValue.value (active_workers (workpool (snd twice_mid))) <= 0) as Ha
    by (vm_compute; intros E; discriminate E).
  assert (1 <= 2 <= INT_MAX) as Hn
    by (split; vm_compute; intros E; discriminate E).
  pose proof (Hrestart Ha 2 Hn) as Hr.
  split; [exact H1|]. split; [exact H2|]. split; [exact Hp|]. split; [reflexivity|].
  split; [exact H3|]. split; [reflexivity|]. split; [reflexivity|].
  split; [exact Hr|].
  split; [exact H4|]. split; [exact H5|]. split; [exact H6 | reflexivity].
Defined.

(** C4 on the code.  One core and one job, then [updateCoreNumber(2)] at
    once.  When the method is called the job is in the job queue.  The
    caller reads 0 from the counter of active workers, because the worker
    has not started yet; the worker starts and pulls the job; the teardown
    stops it.  When [updateCoreNumber] has returned, the job is not in the
    job queue, no result is in the result queue, and the two workers of
    the new pool are at their start: the job was dropped. *)
Theorem updateCoreNumber_can_drop_a_queued_job :
  program (Some 4) (Some 1) lost_calls = inr lost_s0 /\
  run square (Some 4) (repeat Manager 4) lost_s0 = Some drop_start /\
  mpc (snd drop_start) = MUpdateCoreNumber (Some 2) UpdSetKill /\
  input_queue (workpool (snd drop_start)) = [PList [PInt 3]] /\
  run square (Some 4) (lost_sched0 ++ repeat Manager 4) lost_s0 = Some drop_end /\
  fst drop_end =
    [(Manager, EvBegin (AddJob (PInt 3))); (Manager, EvTotalIncr);
     (Manager, EvJobPut (PList [PInt 3]));
     (Manager, EvBegin (UpdateCoreNumber (Some 2))); (Manager, EvKillSet);
     (Manager, EvActiveRead 0);
     (Worker 0, EvActiveIncr); (Worker 0, EvGet (PList [PInt 3]));
     (Manager, EvTeardown); (Manager, EvKillClear); (Manager, EvCoresSet 2);
     (Manager, EvStartPool 2)] /\
  snd drop_end =
    mkSystem
      (mkQueuedPool (SafeValue.mk 2) [] []
         (Some (mkPool RUN [mkProc WStart true; mkProc WStart true]))
         (SafeValue.mk 1) (SafeValue.mk 1) false)
      MIdle [ClosePool] [].
Proof. repeat apply conj; vm_compute; reflexivity. Qed.

(** Two cores and the script [demo_calls]: the construction returns. *)
Lemma pool_handle_stays_set_witness :
  1 <= c_int 2 /\
  exists q s0,
    __init__ (Some 4) (Some 2) = inr q /\
    q = mkQueuedPool (SafeValue.mk (c_int 2)) [] []
          (Some (mkPool RUN (repeat (mkProc WStart true) (Z.to_nat (c_int 2)))))
          (SafeValue.mk 0) (SafeValue.mk 0) false /\
    (1 <= length (repeat (mkProc WStart true) (Z.to_nat (c_int 2))))%nat /\
    program (Some 4) (Some 2) demo_calls = inr s0 /\
    s0 = mkSystem q MIdle demo_calls [] /\
    forall sched tr s,
      run square (Some 4) sched s0 = Some (tr, s) ->
      pool (workpool s) <> None.
Proof.
  assert (1 <= c_int 2) as H by (vm_compute; intros E; discriminate E).
  split; [exact H|].
  exact (proj1 (pool_handle_stays_set square (Some 4) 2 demo_calls H)).
Defined.

(* ===================================================================== *)
(** * The queues as the library has them: properties *)
(* ===================================================================== *)

Lemma wire_run_app (func : list pyval -> exn + pyval) (cpu_count : option Z)
    (sched1 sched2 : list Wire.actor) :
  forall s tr1 s1 tr2 s2,
    Wire.run func cpu_count sched1 s = Some (tr1, s1) ->
    Wire.run func cpu_count sched2 s1 = Some (tr2, s2) ->
    Wire.run func cpu_count (sched1 ++ sched2) s = Some (tr1 ++ tr2, s2).
Proof.
  induction sched1 as [| a sched1 IH]; intros s tr1 s1 tr2 s2 H1 H2; simpl in *.
  - inversion H1; subst. assumption.
  - destruct (Wire.step func cpu_count a s) as [[e s']|]; [|discriminate].
    destruct (Wire.run func cpu_count sched1 s') as [[tr s'']|] eqn:Hr; [|discriminate].
    inversion H1; subst. rewrite (IH _ _ _ _ _ Hr H2). reflexivity.
Qed.

(** ** What the queues count *)

Section WireAccounting.

Variable func : list pyval -> exn + pyval.
Variable cpu_count : option Z.

Lemma wire_run_preserves (P : Wire.system -> Prop) :
  (forall a s e s', P s -> Wire.step func cpu_count a s = Some (e, s') -> P s') ->
  forall sched s tr s',
    P s -> Wire.run func cpu_count sched s = Some (tr, s') -> P s'.
Proof.
  intros Hstep. induction sched as [| a sched IH]; intros s tr s' HP Hrun; simpl in Hrun.
  - inversion Hrun; subst. assumption.
  - destruct (Wire.step func cpu_count a s) as [[e s1]|] eqn:Hs; [|discriminate].
    destruct (Wire.run func cpu_count sched s1) as [[tr1 s2]|] eqn:Hr; [|discriminate].
    inversion Hrun; subst. eapply IH; [|eassumption]. eapply Hstep; eassumption.
Qed.

Lemma wire_in_flight_killed (l : list Wire.proc) :
  sum_list_with Wire.in_flight (map Wire.kill l) = 0%nat.
Proof. induction l as [| w l IH]; simpl; [reflexivity | rewrite IH; reflexivity]. Qed.

Lemma wire_in_flight_fresh (n : nat) :
  sum_list_with Wire.in_flight (repeat (Wire.mkProc WStart true Wire.new_feeder) n) = 0%nat.
Proof. induction n as [| n IH]; simpl; [reflexivity | assumption]. Qed.

Lemma wire_accounted_manager (N : nat) (s : Wire.system) (e : Wire.shown) (s' : Wire.system) :
  Wire.accounted N s -> Wire.manager_step cpu_count s = Some (e, s') -> Wire.accounted N s'.
Proof.
  unfold Wire.accounted, Wire.fetched, Wire.pending_put, Wire.adds_left, Wire.manager_step.
  destruct s as [q m sc ret]; simpl.
  intros (H0 & HN & HM & Hacc & Hp) H.
  destruct m as [| job [] | [] | [] | c [] |]; simpl in H;
    unfold Wire.get, Wire.startPool, Wire.new_Pool in H;
    break_step H;
    inversion H; subst; clear H; simpl in *.
  all: repeat match goal with E : _ = _ |- _ => rewrite E in * end.
  all: unfold SafeValue.value, INT_MAX, Wire.qsize in *; simpl in *.
  all: rewrite ?length_concat_snoc, ?length_app, ?wire_in_flight_killed,
         ?wire_in_flight_fresh; simpl.
  all: try (rewrite c_int_id by (unfold INT_MIN, INT_MAX; lia)).
  all: repeat apply conj; try assumption; try discriminate; try lia.
  all: try (destruct c; simpl in *; lia).
  all: unfold Wire.jobs_waiting, jobs_queued in *; simpl in *.
  all: rewrite ?List.filter_app, ?length_app in *; simpl in *.
  all: rewrite ?wrap_job_is_job; simpl; lia.
Qed.

Lemma wire_in_flight_mk (at_ : wpc) (al : bool) (f : Wire.feeder) :
  Wire.in_flight (Wire.mkProc at_ al f) =
  if al then match at_ with WCall _ | WPut _ => 1%nat | _ => 0%nat end else 0%nat.
Proof. reflexivity. Qed.

Lemma wire_in_flight_le (l : list Wire.proc) (i : nat) (w : Wire.proc) :
  l !! i = Some w -> (Wire.in_flight w <= sum_list_with Wire.in_flight l)%nat.
Proof.
  revert i. induction l as [| x l IH]; intros [| i] H; simpl in *; try discriminate.
  - inversion H; subst. lia.
  - specialize (IH i H). lia.
Qed.

(** What a step of a worker's main thread leaves as it is, and what it
    changes. *)
Lemma wire_worker_step_frame (i : nat) (s : Wire.system) (e : Wire.shown) (s' : Wire.system) :
  Wire.worker_step func i s = Some (e, s') ->
  Wire.mpc s' = Wire.mpc s /\ Wire.script s' = Wire.script s /\
  Wire.returned s' = Wire.returned s /\
  Wire.total_jobs (Wire.workpool s') = Wire.total_jobs (Wire.workpool s) /\
  Wire.input_feeder (Wire.workpool s') = Wire.input_feeder (Wire.workpool s) /\
  exists p w ev at' self' f',
    Wire.pool (Wire.workpool s) = Some p /\ Wire.procs p !! i = Some w /\
    Wire.alive w = true /\
    Wire.process_step func (Wire.is_RUN (Wire.pstate p)) (Wire.workpool s)
      (Wire.out w) (Wire.pc w) = Some (ev, self', f', at') /\
    Wire.input_queue (Wire.workpool s') = Wire.input_queue self' /\
    Wire.output_queue (Wire.workpool s') = Wire.output_queue self' /\
    Wire.pool (Wire.workpool s') =
      Some (Wire.mkPool (Wire.pstate p) (<[i := Wire.mkProc at' true f']> (Wire.procs p))).
Proof.
  unfold Wire.worker_step. intros H.
  destruct (Wire.pool (Wire.workpool s)) as [p|] eqn:Hp; [|discriminate].
  destruct (Wire.procs p !! i) as [w|] eqn:Hw; [|discriminate].
  destruct (Wire.alive w) eqn:Ha; [|discriminate].
  destruct (Wire.process_step func (Wire.is_RUN (Wire.pstate p)) (Wire.workpool s)
              (Wire.out w) (Wire.pc w))
    as [[[[e' self'] f'] at']|] eqn:Hf; [|discriminate].
  inversion H; subst; clear H. simpl.
  assert (Wire.total_jobs self' = Wire.total_jobs (Wire.workpool s) /\
          Wire.input_feeder self' = Wire.input_feeder (Wire.workpool s)) as (Ht & Hif).
  { unfold Wire.process_step in Hf. destruct (Wire.pc w); simpl in Hf;
      unfold Wire.get in Hf; break_step Hf; inversion Hf; subst; auto. }
  repeat apply conj; auto.
  exists p, w. do 4 eexists. repeat apply conj; try eassumption; reflexivity.
Qed.

Lemma wire_accounted_worker (N : nat) (i : nat) (s : Wire.system) (e : Wire.shown)
    (s' : Wire.system) :
  Wire.accounted N s -> Wire.worker_step func i s = Some (e, s') -> Wire.accounted N s'.
Proof.
  unfold Wire.accounted, Wire.fetched, Wire.pending_put, Wire.adds_left.
  intros (H0 & HN & HM & Hacc & Hp) H.
  apply wire_worker_step_frame in H.
  destruct H as (Hm & Hsc & Hret & Ht & Hif & p & w & ev & at' & self' & f' &
                 Epool & Ew & Ealive & Estep & Ein & Eout & Epool').
  rewrite Hm, Hsc, Hret, Ht, Hif, Ein, Eout, Epool'. rewrite Epool in Hacc.
  simpl in *.
  pose proof (sum_list_with_insert Wire.in_flight (Wire.procs p) i w
                (Wire.mkProc at' true f') Ew) as Hsum.
  repeat apply conj; try assumption; try discriminate.
  destruct w as [at_ al f]; simpl in *; subst al.
  rewrite !wire_in_flight_mk in Hsum.
  unfold Wire.qsize in *.
  unfold Wire.process_step in Estep.
  destruct at_; simpl in Estep; unfold Wire.get in Estep;
    break_step Estep; inversion Estep; subst; clear Estep;
    simpl in *;
    unfold Wire.jobs_waiting, jobs_queued in *; simpl in *;
    repeat match goal with E : Wire.pipe _ = _ |- _ => rewrite E in * end;
    simpl in *;
    repeat match goal with E : is_None _ = _ |- _ => unfold is_job in *; rewrite E in * end;
    simpl in *; try lia.
  all: repeat match goal with H : context [is_job ?x] |- _ => destruct (is_job x) end.
  all: simpl in *; lia.
Qed.

(** The feeder threads move items from a buffer to a pipe; what the
    queues count stays as it is. *)
Lemma wire_feed_frame (a : Wire.feed_action) (reader : bool) (q : Wire.Queue)
    (f : Wire.feeder) (x : pyval) (q' : Wire.Queue) (f' : Wire.feeder) :
  Wire._feed a reader q f = Some (x, q', f') ->
  Wire.sem q' = Wire.sem q /\
  map Wire.payload (Wire.pipe q') ++ Wire.buffer f' =
  map Wire.payload (Wire.pipe q) ++ Wire.buffer f.
Proof.
  unfold Wire._feed. intros H.
  destruct a; destruct (Wire.sending f) as [z|];
    destruct (Wire.buffer f) as [| y b]; try discriminate.
  - destruct (Wire.wlock q || Wire.overlong y); [discriminate|].
    inversion H; subst; simpl. rewrite map_app, <- app_assoc. split; reflexivity.
  - destruct (Wire.wlock q || negb (Wire.overlong y)); [discriminate|].
    inversion H; subst; simpl. rewrite map_app, <- app_assoc. split; reflexivity.
  - destruct reader; [|discriminate].
    destruct (Wire.pipe q) as [| [w | w] [| m rest]]; try discriminate.
    inversion H; subst; simpl. split; reflexivity.
  - destruct reader; [|discriminate].
    destruct (Wire.pipe q) as [| [w | w] [| m rest]]; try discriminate.
    inversion H; subst; simpl. split; reflexivity.
Qed.

Lemma wire_accounted_manager_feeder (N : nat) (a : Wire.feed_action) (s : Wire.system)
    (e : Wire.shown) (s' : Wire.system) :
  Wire.accounted N s -> Wire.manager_feeder_step a s = Some (e, s') -> Wire.accounted N s'.
Proof.
  unfold Wire.accounted, Wire.fetched, Wire.pending_put, Wire.adds_left,
    Wire.manager_feeder_step.
  intros (H0 & HN & HM & Hacc & Hp) H.
  destruct (Wire._feed a (Wire.input_reader s) (Wire.input_queue (Wire.workpool s))
              (Wire.input_feeder (Wire.workpool s))) as [[[x q] f]|] eqn:Hf; [|discriminate].
  apply wire_feed_frame in Hf. destruct Hf as [_ Hf].
  inversion H; subst; clear H. simpl.
  unfold Wire.jobs_waiting in *. rewrite Hf.
  repeat apply conj; assumption.
Qed.

Lemma wire_accounted_worker_feeder (N : nat) (i : nat) (a : Wire.feed_action)
    (s : Wire.system) (e : Wire.shown) (s' : Wire.system) :
  Wire.accounted N s -> Wire.worker_feeder_step i a s = Some (e, s') -> Wire.accounted N s'.
Proof.
  unfold Wire.accounted, Wire.fetched, Wire.pending_put, Wire.adds_left,
    Wire.worker_feeder_step.
  intros (H0 & HN & HM & Hacc & Hp) H.
  destruct (Wire.pool (Wire.workpool s)) as [p|] eqn:Epool; [|discriminate].
  destruct (Wire.procs p !! i) as [w|] eqn:Ew; [|discriminate].
  destruct (Wire.alive w) eqn:Ealive; [|discriminate].
  destruct (Wire._feed a (Wire.output_reader s) (Wire.output_queue (Wire.workpool s))
              (Wire.out w)) as [[[x q] f]|] eqn:Hf; [|discriminate].
  apply wire_feed_frame in Hf. destruct Hf as [Hsem _].
  inversion H; subst; clear H. simpl in *.
  pose proof (sum_list_with_insert Wire.in_flight (Wire.procs p) i w
                (Wire.mkProc (Wire.pc w) true f) Ew) as Hsum.
  assert (Wire.in_flight (Wire.mkProc (Wire.pc w) true f) = Wire.in_flight w) as E.
  { destruct w as [at_ al fw]; simpl in *; subst al. reflexivity. }
  unfold Wire.qsize in *. rewrite Hsem.
  repeat apply conj; try assumption; try discriminate. lia.
Qed.

Lemma wire_accounted_step (N : nat) (a : Wire.actor) (s : Wire.system) (e : Wire.shown)
    (s' : Wire.system) :
  Wire.accounted N s -> Wire.step func cpu_count a s = Some (e, s') -> Wire.accounted N s'.
Proof.
  destruct a; simpl;
    [apply wire_accounted_manager | apply wire_accounted_worker
    | apply wire_accounted_manager_feeder | apply wire_accounted_worker_feeder].
Qed.

Lemma wire_poll_inv_step (N : nat) (a : Wire.actor) (s : Wire.system) (e : Wire.shown)
    (s' : Wire.system) :
  Wire.accounted N s -> Wire.poll_inv s ->
  Wire.step func cpu_count a s = Some (e, s') -> Wire.poll_inv s'.
Proof.
  intros Hacc Hpi H. destruct a as [| i | a | i a]; simpl in H.
  - unfold Wire.poll_inv, Wire.manager_step, Wire.qsize in *.
    destruct s as [q m sc ret]; simpl in *.
    destruct m as [| job [] | [] | [] | c [] |]; simpl in H;
      unfold Wire.get, Wire.startPool, Wire.new_Pool in H;
      break_step H;
      inversion H; subst; clear H; simpl in *; try discriminate; auto.
    + destruct c; simpl; discriminate.
    + intros _. apply Z.eqb_eq. assumption.
  - unfold Wire.poll_inv in *.
    pose proof (wire_worker_step_frame i s e s' H)
      as (Hm & _ & _ & Ht & _ & p & w & ev & at' & self' & f' &
          Epool & Ew & Ealive & Estep & _ & Eout & _).
    rewrite Hm, Ht, Eout. intros Hpp. specialize (Hpi Hpp).
    unfold Wire.accounted in Hacc. destruct Hacc as (_ & _ & _ & Hacc & _).
    rewrite Epool in Hacc. simpl in Hacc.
    pose proof (wire_in_flight_le (Wire.procs p) i w Ew) as Hle.
    destruct w as [at_ al f]; simpl in *; subst al. rewrite wire_in_flight_mk in Hle.
    unfold Wire.qsize in *.
    unfold Wire.process_step in Estep.
    destruct at_; simpl in Estep; unfold Wire.get in Estep;
      break_step Estep; inversion Estep; subst; clear Estep; simpl in *;
      try assumption; lia.
  - unfold Wire.poll_inv, Wire.manager_feeder_step in *.
    destruct (Wire._feed a (Wire.input_reader s) (Wire.input_queue (Wire.workpool s))
                (Wire.input_feeder (Wire.workpool s))) as [[[x q] f]|]; [|discriminate].
    inversion H; subst; clear H. simpl. assumption.
  - unfold Wire.poll_inv, Wire.worker_feeder_step in *.
    destruct (Wire.pool (Wire.workpool s)) as [p|]; [|discriminate].
    destruct (Wire.procs p !! i) as [w|]; [|discriminate].
    destruct (Wire.alive w); [|discriminate].
    destruct (Wire._feed a (Wire.output_reader s) (Wire.output_queue (Wire.workpool s))
                (Wire.out w)) as [[[x q] f]|] eqn:Hf; [|discriminate].
    apply wire_feed_frame in Hf. destruct Hf as [Hsem _].
    inversion H; subst; clear H. simpl. unfold Wire.qsize in *. rewrite Hsem. assumption.
Qed.

Lemma wire_program_accounted (c : option Z) (calls : list call) (s0 : Wire.system) :
  Wire.program cpu_count c calls = inr s0 ->
  Z.of_nat (count_adds calls) <= INT_MAX ->
  Wire.accounted (count_adds calls) s0.
Proof.
  unfold Wire.program, Wire.__init__, call_cpu_count, Wire.startPool, Wire.new_Pool.
  intros H HN.
  destruct c as [m|]; [|destruct cpu_count as [m|]; [|discriminate]]; simpl in H.
  all: destruct (c_int m <? 1); [discriminate|].
  all: inversion H; subst; clear H.
  all: unfold Wire.accounted, Wire.fetched, Wire.pending_put, Wire.adds_left, count_adds in *.
  all: simpl; rewrite wire_in_flight_fresh; simpl.
  all: change (c_int 0) with 0.
  all: repeat apply conj; try lia; try discriminate.
Qed.

Lemma wire_program_reach (c : option Z) (calls : list call) (s0 : Wire.system) :
  Wire.program cpu_count c calls = inr s0 ->
  Z.of_nat (count_adds calls) <= INT_MAX ->
  forall sched tr s,
    Wire.run func cpu_count sched s0 = Some (tr, s) ->
    Wire.accounted (count_adds calls) s /\ Wire.poll_inv s.
Proof.
  intros Hprog HN sched tr s Hrun.
  eapply (wire_run_preserves
            (fun s => Wire.accounted (count_adds calls) s /\ Wire.poll_inv s));
    [| |eassumption].
  - intros a s1 e s2 [Ha Hp] Hstep. split.
    + eapply wire_accounted_step; eassumption.
    + eapply wire_poll_inv_step; eassumption.
  - split.
    + apply (wire_program_accounted c); assumption.
    + unfold Wire.program in Hprog.
      destruct (Wire.__init__ cpu_count c); inversion Hprog; subst.
      unfold Wire.poll_inv. simpl. discriminate.
Qed.

(** X4.  Whatever the caller calls and however the threads interleave,
    while [closePool] is past its poll (it puts its pills, waits for them
    to be taken, or is about to terminate the pool) the result queue
    counts one result for every submitted job, no job is waiting in the
    job queue (in its pipe or in the buffer of the caller), no live worker
    is between its pull of a job and its [put] of the result, and
    [getResults] has returned no result so far.  So the teardown of
    [closePool] never stops a worker that holds a job.  (It can stop one
    whose feeder thread holds a result: the queue counts a result from
    its [put] on.) *)
Theorem closePool_terminates_no_worker_with_a_job
    (c : option Z) (calls : list call) (s0 : Wire.system)
    (sched : list Wire.actor) (tr : list (Wire.actor * Wire.shown)) (s : Wire.system) :
  Wire.program cpu_count c calls = inr s0 ->
  Z.of_nat (count_adds calls) <= INT_MAX ->
  Wire.run func cpu_count sched s0 = Some (tr, s) ->
  past_poll (Wire.mpc s) = true ->
  Z.of_nat (Wire.qsize (Wire.output_queue (Wire.workpool s))) =
    SafeValue.value (Wire.total_jobs (Wire.workpool s)) /\
  Forall (fun x => x = PNone)
    (map Wire.payload (Wire.pipe (Wire.input_queue (Wire.workpool s))) ++
     Wire.buffer (Wire.input_feeder (Wire.workpool s))) /\
  Wire.pool_in_flight (Wire.pool (Wire.workpool s)) = 0%nat /\
  concat (Wire.returned s) = [].
Proof.
  intros Hprog HN Hrun Hpp.
  destruct (wire_program_reach c calls s0 Hprog HN sched tr s Hrun) as [Hacc Hpi].
  specialize (Hpi Hpp).
  unfold Wire.accounted, Wire.fetched, Wire.jobs_waiting in Hacc.
  destruct Hacc as (H0 & HT & HM & Hacc & _).
  repeat apply conj.
  - assumption.
  - apply no_jobs_only_pills. lia.
  - lia.
  - apply length_zero_iff_nil. lia.
Qed.

End WireAccounting.

(** The run of [late_calls] at the teardown of [closePool]: the result
    queue counts the one result, which is still in the buffer of the
    worker's process. *)
Lemma closePool_terminates_no_worker_with_a_job_witness :
  Wire.program (Some 4) (Some 1) Wire.late_calls = inr Wire.late_s0 /\
  Z.of_nat (count_adds Wire.late_calls) <= INT_MAX /\
  Wire.run square (Some 4) Wire.late_sched0 Wire.late_s0 = Some Wire.late_to_join /\
  Wire.mpc (snd Wire.late_to_join) = MClosePool CloseJoin /\
  Z.of_nat (Wire.qsize (Wire.output_queue (Wire.workpool (snd Wire.late_to_join)))) =
    SafeValue.value (Wire.total_jobs (Wire.workpool (snd Wire.late_to_join))) /\
  Wire.pipe (Wire.output_queue (Wire.workpool (snd Wire.late_to_join))) = [] /\
  Wire.pool (Wire.workpool (snd Wire.late_to_join)) =
    Some (Wire.mkPool RUN [Wire.mkProc WDone true (Wire.mkFeeder [PInt 9] None)]) /\
  Wire.pool_in_flight (Wire.pool (Wire.workpool (snd Wire.late_to_join))) = 0%nat.
Proof.
  assert (Wire.program (Some 4) (Some 1) Wire.late_calls = inr Wire.late_s0) as H1
    by (vm_compute; reflexivity).
  assert (Z.of_nat (count_adds Wire.late_calls) <= INT_MAX) as H2
    by (vm_compute; intros E; discriminate E).
  assert (Wire.run square (Some 4) Wire.late_sched0 Wire.late_s0 =
          Some (fst Wire.late_to_join, snd Wire.late_to_join)) as H3
    by (vm_compute; reflexivity).
  assert (past_poll (Wire.mpc (snd Wire.late_to_join)) = true) as H4 by reflexivity.
  destruct (closePool_terminates_no_worker_with_a_job square (Some 4) (Some 1)
              Wire.late_calls Wire.late_s0 Wire.late_sched0
              (fst Wire.late_to_join) (snd Wire.late_to_join) H1 H2 H3 H4)
    as (Hq & _ & Hf & _).
  split; [exact H1|]. split; [exact H2|]. split; [exact H3|].
  split; [reflexivity|]. split; [exact Hq|]. split; [reflexivity|].
  split; [reflexivity | exact Hf].
Defined.

(** ** A result that is written in part *)

(** The run of [torn_sched] when the job's result is overlong. *)
Lemma torn_run (x : pyval) :
  Wire.overlong x = true ->
  Wire.run (fun _ => inr x) (Some 4) Wire.torn_sched Wire.late_s0 =
    Some (Wire.torn_trace x, Wire.torn_state x).
Proof.
  intros Hx.
  assert (H0 : Wire.run (fun _ => inr x) (Some 4) Wire.torn_sched0 Wire.late_s0 =
               Some (firstn 9 (Wire.torn_trace x), Wire.torn_mid x))
    by (vm_compute; reflexivity).
  assert (H1 : Wire.run (fun _ => inr x) (Some 4)
                 (Wire.WorkerFeeder 0 Wire.SendBegin :: Wire.torn_sched1) (Wire.torn_mid x) =
               Some (skipn 9 (Wire.torn_trace x), Wire.torn_state x)).
  { assert (Hs : Wire.step (fun _ => inr x) (Some 4) (Wire.WorkerFeeder 0 Wire.SendBegin)
                   (Wire.torn_mid x) =
                 Some (Wire.Wrote Wire.SendBegin x, Wire.torn_begun x)).
    { cbn. rewrite Hx. reflexivity. }
    assert (Hr : Wire.run (fun _ => inr x) (Some 4) Wire.torn_sched1 (Wire.torn_begun x) =
                 Some (skipn 10 (Wire.torn_trace x), Wire.torn_state x))
      by (vm_compute; reflexivity).
    change (Wire.run (fun _ => inr x) (Some 4)
              (Wire.WorkerFeeder 0 Wire.SendBegin :: Wire.torn_sched1) (Wire.torn_mid x))
      with (match Wire.step (fun _ => inr x) (Some 4) (Wire.WorkerFeeder 0 Wire.SendBegin)
                    (Wire.torn_mid x) with
            | None => None
            | Some (e, s') =>
                match Wire.run (fun _ => inr x) (Some 4) Wire.torn_sched1 s' with
                | None => None
                | Some (tr, s'') => Some ((Wire.WorkerFeeder 0 Wire.SendBegin, e) :: tr, s'')
                end
            end).
    rewrite Hs, Hr. reflexivity. }
  exact (wire_run_app _ _ _ _ _ _ _ _ _ H0 H1).
Qed.

(** While the worker lives, an overlong result does arrive: the caller
    waits at its pull until the feeder thread of the worker has written
    the rest. *)
Lemma overlong_result_arrives (x : pyval) :
  Wire.overlong x = true ->
  Wire.program (Some 4) (Some 1) Wire.through_calls = inr Wire.through_s0 /\
  (exists tr, Wire.run (fun _ => inr x) (Some 4) Wire.through_sched0 Wire.through_s0 =
                Some (tr, Wire.through_wait x)) /\
  Wire.step (fun _ => inr x) (Some 4) Wire.Manager (Wire.through_wait x) = None /\
  Wire.run (fun _ => inr x) (Some 4) Wire.through_sched1 (Wire.through_wait x) =
    Some ([(Wire.WorkerFeeder 0 Wire.SendEnd, Wire.Wrote Wire.SendEnd x);
           (Wire.Manager, Wire.Did (EvGetNoWait (inr x)));
           (Wire.Manager, Wire.Did (EvGetNoWait (inl Empty)))],
          Wire.through_end x).
Proof.
  intros Hx. split; [reflexivity|]. split; [|split; [reflexivity | vm_compute; reflexivity]].
  assert (H0 : exists tr s,
             Wire.run (fun _ => inr x) (Some 4) Wire.torn_sched0 Wire.through_s0 =
               Some (tr, s) /\
             Wire.step (fun _ => inr x) (Some 4) (Wire.WorkerFeeder 0 Wire.SendBegin) s =
               Some (Wire.Wrote Wire.SendBegin x,
                     Wire.mkSystem (Wire.workpool (Wire.torn_begun x)) MIdle [GetResults] [])).
  { eexists. eexists. split; [vm_compute; reflexivity|]. cbn. rewrite Hx. reflexivity. }
  destruct H0 as (tr0 & s & H0 & Hs).
  assert (H1 : Wire.run (fun _ => inr x) (Some 4)
                 (Wire.WorkerFeeder 0 Wire.SendBegin :: repeat Wire.Manager 2) s =
               Some ([(Wire.WorkerFeeder 0 Wire.SendBegin, Wire.Wrote Wire.SendBegin x);
                      (Wire.Manager, Wire.Did (EvBegin GetResults));
                      (Wire.Manager, Wire.Did (EvOutEmpty false))],
                     Wire.through_wait x)).
  { change (Wire.run (fun _ => inr x) (Some 4)
              (Wire.WorkerFeeder 0 Wire.SendBegin :: repeat Wire.Manager 2) s)
      with (match Wire.step (fun _ => inr x) (Some 4) (Wire.WorkerFeeder 0 Wire.SendBegin) s
            with
            | None => None
            | Some (e, s') =>
                match Wire.run (fun _ => inr x) (Some 4) (repeat Wire.Manager 2) s' with
                | None => None
                | Some (tr, s'') => Some ((Wire.WorkerFeeder 0 Wire.SendBegin, e) :: tr, s'')
                end
            end).
    rewrite Hs. vm_compute. reflexivity. }
  eexists. exact (wire_run_app _ _ _ _ _ _ _ _ _ H0 H1).
Qed.

(** In [torn_state] no thread has a step. *)
Lemma torn_state_stuck (func : list pyval -> exn + pyval) (x : pyval) :
  Wire.getResults (Wire.workpool (Wire.torn_state x)) (GetLoop []) = None /\
  map (fun a => Wire.step func (Some 4) a (Wire.torn_state x)) Wire.late_actors =
    [None; None; None; None; None; None; None; None].
Proof. split; reflexivity. Qed.

(** Nor has any other thread: the pool has the one process. *)
Lemma torn_state_no_step (func : list pyval -> exn + pyval) (x : pyval) (a : Wire.actor) :
  Wire.step func (Some 4) a (Wire.torn_state x) = None.
Proof.
  destruct a as [| i | a | i a]; [reflexivity | | destruct a; reflexivity |].
  - destruct i; reflexivity.
  - destruct i; destruct a; reflexivity.
Qed.

Lemma late_end_no_step (a : Wire.actor) :
  Wire.step square (Some 4) a (snd Wire.late_end) = None.
Proof.
  destruct a as [| i | a | i a]; [reflexivity | | destruct a; reflexivity |].
  - destruct i; reflexivity.
  - destruct i; destruct a; reflexivity.
Qed.

Lemma long_str_overlong : Wire.overlong (PStr Wire.long_str) = true.
Proof. vm_compute. reflexivity. Qed.

(** C9 as stated fails: [getResults] can wait for ever.  One job, whose
    result is a string as long as the pipe, on a pool of one core; the
    feeder thread of the worker has written a part of the result when
    [closePool] terminates the pool.  [getResults] then finds bytes in the
    pipe and goes into the pull, which waits for the rest of the message;
    no thread is left that has a step, so it is never written.  (And a
    result queue that counts a result is not one in which [getResults]
    finds it: in the run of [late_sched] it returns the empty list, with
    no pull.) *)
Lemma getResults_can_wait_for_ever :
  Wire.program (Some 4) (Some 1) Wire.late_calls = inr Wire.late_s0 /\
  Wire.long_result [PInt 3] = inr (PStr Wire.long_str) /\
  Wire.overlong (PStr Wire.long_str) = true /\
  Wire.run Wire.long_result (Some 4) Wire.torn_sched Wire.late_s0 =
    Some (Wire.torn_trace (PStr Wire.long_str), Wire.torn_state (PStr Wire.long_str)) /\
  Wire.mpc (Wire.torn_state (PStr Wire.long_str)) = MGetResults (GetLoop []) /\
  Wire.returned (Wire.torn_state (PStr Wire.long_str)) = [] /\
  Wire.getResults (Wire.workpool (Wire.torn_state (PStr Wire.long_str))) (GetLoop []) = None /\
  map (fun a => Wire.step Wire.long_result (Some 4) a (Wire.torn_state (PStr Wire.long_str)))
    Wire.late_actors = [None; None; None; None; None; None; None; None] /\
  Wire.run square (Some 4) Wire.late_sched Wire.late_s0 = Some Wire.late_end /\
  Wire.qsize (Wire.output_queue (Wire.workpool (snd Wire.late_end))) = 1%nat /\
  Wire.returned (snd Wire.late_end) = [[]].
Proof.
  split; [reflexivity|]. split; [reflexivity|].
  split; [exact long_str_overlong|].
  split; [exact (torn_run (PStr Wire.long_str) long_str_overlong)|].
  split; [reflexivity|]. split; [reflexivity|].
  destruct (torn_state_stuck Wire.long_result (PStr Wire.long_str)) as [H1 H2].
  split; [exact H1|]. split; [exact H2|].
  repeat apply conj; vm_compute; reflexivity.
Qed.

(** ** getResults *)

Lemma wire_output_same (self : Wire.QueuedPool) :
  Wire.with_output_queue (Wire.output_queue self) self = self.
Proof. destruct self; reflexivity. Qed.

Lemma wire_getResults_loop_run (envs : list Wire.QueuedPool) :
  forall results tr o,
    Wire.getResults_run envs (GetLoop results) = Some (tr, o) ->
    (forall e, o <> Raise e) /\
    (forall v, o = Return v ->
       v = Some (results ++ pulled tr) /\
       exists e, tr = map (fun x => EvGetNoWait (inr x)) (pulled tr) ++ [EvGetNoWait (inl e)]).
Proof.
  induction envs as [| self envs IH]; intros results tr o H; simpl in H.
  - inversion H; subst. split; [intros ? ?; discriminate|]. intros v Hv. discriminate.
  - destruct (Wire.get false (Wire.output_queue self)) as [x q | e q |] eqn:Hg.
    + destruct (Wire.getResults_run envs (GetLoop (results ++ [x]))) as [[tr' o']|] eqn:Hrun;
        [|discriminate].
      inversion H; subst. apply IH in Hrun. destruct Hrun as [Hr Hv].
      split; [assumption|].
      intros v Ho. destruct (Hv v Ho) as [-> [e He]].
      simpl. rewrite <- app_assoc. split; [reflexivity|].
      exists e. simpl. f_equal. assumption.
    + inversion H; subst. split; [intros ? ?; discriminate|].
      intros v Hv. inversion Hv; subst. simpl. rewrite app_nil_r.
      split; [reflexivity | exists e; reflexivity].
    + discriminate.
Qed.

Lemma wire_getResults_solo_S (fuel : nat) (self : Wire.QueuedPool) (at_ : getResults_pc) :
  Wire.getResults_solo (S fuel) self at_ =
    match Wire.getResults self at_ with
    | None => None
    | Some (e, self', Next at') =>
        match Wire.getResults_solo fuel self' at' with
        | None => None
        | Some (tr, self'', o) => Some (e :: tr, self'', o)
        end
    | Some (e, self', o) => Some ([e], self', o)
    end.
Proof. reflexivity. Qed.

(** The pulls of [getResults] alone, on a pipe of whole messages. *)
Lemma wire_getResults_solo_loop (l : list pyval) :
  forall self results n w,
    Wire.output_queue self = Wire.mkQueue (length l + n) (map Wire.Whole l) false w ->
    Wire.getResults_solo (S (length l)) self (GetLoop results) =
      Some (map (fun x => EvGetNoWait (inr x)) l ++ [EvGetNoWait (inl Empty)],
            Wire.with_output_queue (Wire.mkQueue n [] false w) self,
            Return (Some (results ++ l))).
Proof.
  induction l as [| x l IH]; intros self results n w Hq.
  - simpl. rewrite Hq. simpl. rewrite app_nil_r. reflexivity.
  - change (length (x :: l)) with (S (length l)).
    rewrite wire_getResults_solo_S. cbn [Wire.getResults]. rewrite Hq.
    cbn [Wire.get Wire.rlock Wire.pipe Wire.sem Wire.wlock map length Nat.add].
    rewrite (IH (Wire.with_output_queue
                   (Wire.mkQueue (length l + n) (map Wire.Whole l) false w) self)
               (results ++ [x]) n w eq_refl).
    rewrite <- app_assoc. reflexivity.
Qed.

(** The same before a message that is in the pipe in part. *)
Lemma wire_getResults_solo_waits (l : list pyval) :
  forall self results n w x rest fuel,
    Wire.output_queue self =
      Wire.mkQueue (length l + n) (map Wire.Whole l ++ Wire.Part x :: rest) false w ->
    (length l < fuel)%nat ->
    Wire.getResults_solo fuel self (GetLoop results) = None.
Proof.
  induction l as [| y l IH]; intros self results n w x rest fuel Hq Hf.
  - destruct fuel as [| fuel]; [lia|].
    rewrite wire_getResults_solo_S. cbn [Wire.getResults]. rewrite Hq. reflexivity.
  - destruct fuel as [| fuel]; [simpl in Hf; lia|].
    rewrite wire_getResults_solo_S. cbn [Wire.getResults]. rewrite Hq.
    cbn [Wire.get Wire.rlock Wire.pipe Wire.sem Wire.wlock map length Nat.add app].
    rewrite (IH (Wire.with_output_queue
                   (Wire.mkQueue (length l + n)
                      (map Wire.Whole l ++ Wire.Part x :: rest) false w) self)
               (results ++ [y]) n w x rest fuel eq_refl); [reflexivity|].
    simpl in Hf. lia.
Qed.

Lemma pulled_pulls (l : list pyval) (e : exn) :
  pulled (map (fun x => EvGetNoWait (inr x)) l ++ [EvGetNoWait (inl e)]) = l.
Proof. induction l as [| x l IH]; simpl; [reflexivity|]. f_equal. assumption. Qed.

(** C9, as the code has it.  [getResults] never raises, and what it
    returns is a list; but it can wait.  It waits at a pull, and only
    there, when it has the read lock and the first message in the pipe is
    there in part only.  Whatever the other threads do meanwhile: when it
    finds no bytes in the pipe it returns the empty list with no pull,
    whatever the queue counts; otherwise it pulls, keeps what it pulled in
    the order of the pulls, and returns at the first pull that raises,
    whatever it raises (a pull raises [Empty] when the read lock is taken
    or the pipe has no bytes, and [ValueError] when the queue counts
    nothing).  Alone, on a pipe of whole messages, it returns them all, in
    order, within a number of steps bounded by their number, and leaves
    the pipe empty; before a message that is there in part it pulls the
    whole ones and then waits. *)
Theorem getResults_waits_only_for_the_rest_of_a_message :
  (forall self at_,
      Wire.getResults self at_ = None <->
      exists results x rest,
        at_ = GetLoop results /\
        Wire.rlock (Wire.output_queue self) = false /\
        Wire.pipe (Wire.output_queue self) = Wire.Part x :: rest) /\
  (forall envs tr o,
      Wire.getResults_run envs GetEmpty = Some (tr, o) ->
      (forall e, o <> Raise e) /\
      (forall v, o = Return v ->
         v = Some (pulled tr) /\
         (tr = [EvOutEmpty true] \/
          exists e, tr = EvOutEmpty false ::
                      map (fun x => EvGetNoWait (inr x)) (pulled tr) ++
                      [EvGetNoWait (inl e)]))) /\
  (forall self, Wire.pipe (Wire.output_queue self) = [] ->
      Wire.getResults self GetEmpty = Some (EvOutEmpty true, self, Return (Some []))) /\
  (forall self m rest, Wire.pipe (Wire.output_queue self) = m :: rest ->
      Wire.getResults self GetEmpty = Some (EvOutEmpty false, self, Next (GetLoop []))) /\
  (forall self results,
      Wire.rlock (Wire.output_queue self) = true \/ Wire.pipe (Wire.output_queue self) = [] ->
      Wire.getResults self (GetLoop results) =
        Some (EvGetNoWait (inl Empty), self, Return (Some results))) /\
  (forall self results x rest,
      Wire.rlock (Wire.output_queue self) = false ->
      Wire.pipe (Wire.output_queue self) = Wire.Whole x :: rest ->
      Wire.getResults self (GetLoop results) =
        match Wire.sem (Wire.output_queue self) with
        | S n =>
            Some (EvGetNoWait (inr x),
                  Wire.with_output_queue
                    (Wire.mkQueue n rest false (Wire.wlock (Wire.output_queue self))) self,
                  Next (GetLoop (results ++ [x])))
        | O =>
            Some (EvGetNoWait (inl ValueError),
                  Wire.with_output_queue
                    (Wire.mkQueue 0 rest false (Wire.wlock (Wire.output_queue self))) self,
                  Return (Some results))
        end) /\
  (forall self l n w,
      Wire.output_queue self = Wire.mkQueue (length l + n) (map Wire.Whole l) false w ->
      exists tr,
        Wire.getResults_solo (2 + length l) self GetEmpty =
          Some (tr, Wire.with_output_queue (Wire.mkQueue n [] false w) self,
                Return (Some l)) /\
        pulled tr = l) /\
  (forall self l n w x rest fuel,
      Wire.output_queue self =
        Wire.mkQueue (length l + n) (map Wire.Whole l ++ Wire.Part x :: rest) false w ->
      (2 + length l <= fuel)%nat ->
      Wire.getResults_solo fuel self GetEmpty = None).
Proof.
  repeat apply conj.
  - intros self at_. split.
    + destruct at_ as [| results]; simpl.
      * destruct (Wire.empty (Wire.output_queue self)); discriminate.
      * unfold Wire.get.
        destruct (Wire.rlock (Wire.output_queue self)); [discriminate|].
        destruct (Wire.pipe (Wire.output_queue self)) as [| [x | x] rest]; [discriminate| |].
        -- destruct (Wire.sem (Wire.output_queue self)); discriminate.
        -- intros _. exists results, x, rest. repeat split.
    + intros (results & x & rest & -> & Hl & Hp). simpl. unfold Wire.get.
      rewrite Hl, Hp. reflexivity.
  - intros envs tr o H. destruct envs as [| self envs]; simpl in H.
    { inversion H; subst. split; [intros ? ?; discriminate|]. intros v Hv; discriminate. }
    destruct (Wire.empty (Wire.output_queue self)).
    + inversion H; subst. split; [intros ? ?; discriminate|].
      intros v Hv. inversion Hv; subst. split; [reflexivity | left; reflexivity].
    + destruct (Wire.getResults_run envs (GetLoop [])) as [[tr' o']|] eqn:Hrun; [|discriminate].
      inversion H; subst. apply wire_getResults_loop_run in Hrun. destruct Hrun as [Hr Hv].
      split; [assumption|].
      intros v Ho. destruct (Hv v Ho) as [-> [e He]]. simpl.
      split; [reflexivity|]. right. exists e. f_equal. assumption.
  - intros self Hp. simpl. unfold Wire.empty. rewrite Hp. reflexivity.
  - intros self m rest Hp. simpl. unfold Wire.empty. rewrite Hp. reflexivity.
  - intros self results H. simpl. unfold Wire.get.
    destruct (Wire.rlock (Wire.output_queue self)) eqn:Hl.
    + rewrite wire_output_same. reflexivity.
    + destruct H as [H | H]; [discriminate|]. rewrite H, wire_output_same. reflexivity.
  - intros self results x rest Hl Hp. simpl. unfold Wire.get. rewrite Hl, Hp.
    destruct (Wire.sem (Wire.output_queue self)); reflexivity.
  - intros self l n w Hq. destruct l as [| x l].
    + exists [EvOutEmpty true]. simpl. rewrite Hq. split; [|reflexivity].
      simpl in Hq. rewrite <- Hq, wire_output_same. reflexivity.
    + eexists. change (2 + length (x :: l))%nat with (S (S (length (x :: l)))).
      rewrite wire_getResults_solo_S. cbn [Wire.getResults]. rewrite Hq.
      cbn [Wire.empty Wire.pipe map].
      rewrite (wire_getResults_solo_loop (x :: l) self [] n w Hq).
      split; [reflexivity|].
      exact (pulled_pulls (x :: l) Empty).
  - intros self l n w x rest fuel Hq Hf.
    destruct fuel as [| fuel]; [lia|].
    rewrite wire_getResults_solo_S. cbn [Wire.getResults]. rewrite Hq.
    assert (He : Wire.empty
                   (Wire.mkQueue (length l + n) (map Wire.Whole l ++ Wire.Part x :: rest)
                      false w) = false) by (destruct l; reflexivity).
    rewrite He.
    rewrite (wire_getResults_solo_waits l self [] n w x rest fuel Hq); [reflexivity|].
    simpl in Hf. lia.
Qed.

(** The theorem on a pipe of two whole results, alone and before a part
    of a third. *)
Lemma getResults_waits_only_for_the_rest_of_a_message_witness :
  Wire.output_queue (Wire.pulls_pool []) =
    Wire.mkQueue (length [PInt 1; PInt 4] + 1) (map Wire.Whole [PInt 1; PInt 4]) false false /\
  (exists tr,
      Wire.getResults_solo 4 (Wire.pulls_pool []) GetEmpty =
        Some (tr,
              Wire.with_output_queue (Wire.mkQueue 1 [] false false) (Wire.pulls_pool []),
              Return (Some [PInt 1; PInt 4])) /\
      pulled tr = [PInt 1; PInt 4]) /\
  Wire.getResults_solo 4 (Wire.pulls_pool [Wire.Part (PInt 9)]) GetEmpty = None /\
  (Wire.getResults (Wire.pulls_pool []) GetEmpty = None <->
   exists results x rest,
     GetEmpty = GetLoop results /\
     Wire.rlock (Wire.output_queue (Wire.pulls_pool [])) = false /\
     Wire.pipe (Wire.output_queue (Wire.pulls_pool [])) = Wire.Part x :: rest).
Proof.
  destruct getResults_waits_only_for_the_rest_of_a_message
    as (Hnone & _ & _ & _ & _ & _ & Hsolo & Hwait).
  split; [reflexivity|].
  split; [exact (Hsolo (Wire.pulls_pool []) [PInt 1; PInt 4] 1%nat false eq_refl)|].
  split; [|exact (Hnone (Wire.pulls_pool []) GetEmpty)].
  apply (Hwait (Wire.pulls_pool [Wire.Part (PInt 9)]) [PInt 1; PInt 4] 1%nat false
           (PInt 9) [] 4%nat); [reflexivity | simpl; lia].
Defined.

(** ** closePool and the results that are not written yet *)

(** C1 on the code.  One job on a pool of one core, and a worker function
    that does not fail on it.  [closePool] polls the count of the result
    queue, which a [put] raises before the result is written; the worker
    takes its pill and [closePool] terminates the pool while the result is
    still in the buffer of the worker, whose feeder thread dies with it.
    [closePool] has returned, [getResults] has returned the empty list,
    and no later call can return the result: the pipe is empty and no
    thread is left to write to it. *)
Theorem closePool_can_lose_a_result :
  Wire.program (Some 4) (Some 1) Wire.late_calls = inr Wire.late_s0 /\
  square [PInt 3] = inr (PInt 9) /\
  Wire.run square (Some 4) Wire.late_sched Wire.late_s0 = Some Wire.late_end /\
  fst Wire.late_end =
    [(Wire.Manager, Wire.Did (EvBegin (AddJob (PInt 3))));
     (Wire.Manager, Wire.Did EvTotalIncr);
     (Wire.Manager, Wire.Did (EvJobPut (PList [PInt 3])));
     (Wire.ManagerFeeder Wire.SendWhole, Wire.Wrote Wire.SendWhole (PList [PInt 3]));
     (Wire.Worker 0, Wire.Did EvActiveIncr);
     (Wire.Worker 0, Wire.Did (EvGet (PList [PInt 3])));
     (Wire.Worker 0, Wire.Did (EvCall (PList [PInt 3]) (PInt 9)));
     (Wire.Worker 0, Wire.Did (EvResultPut (PInt 9)));
     (Wire.Worker 0, Wire.Did (EvKillIsSet false));
     (Wire.Manager, Wire.Did (EvBegin ClosePool));
     (Wire.Manager, Wire.Did (EvPoolIsNone false));
     (Wire.Manager, Wire.Did (EvCaughtUp true));
     (Wire.Manager, Wire.Did (EvJobPut PNone));
     (Wire.Manager, Wire.Did EvRangeDone);
     (Wire.ManagerFeeder Wire.SendWhole, Wire.Wrote Wire.SendWhole PNone);
     (Wire.Worker 0, Wire.Did (EvGet PNone));
     (Wire.Worker 0, Wire.Did EvActiveDecr);
     (Wire.Manager, Wire.Did (EvInQsize 0));
     (Wire.Manager, Wire.Did EvTeardown);
     (Wire.Manager, Wire.Did (EvBegin GetResults));
     (Wire.Manager, Wire.Did (EvOutEmpty true))] /\
  snd Wire.late_end =
    Wire.mkSystem
      (Wire.late_pool TERMINATE
         (Wire.mkProc WDone false (Wire.mkFeeder [PInt 9] None))
         (Wire.mkQueue 1 [] false false) 0)
      MIdle [] [[]] /\
  Wire.getResults (Wire.workpool (snd Wire.late_end)) GetEmpty =
    Some (EvOutEmpty true, Wire.workpool (snd Wire.late_end), Return (Some [])) /\
  map (fun a => Wire.step square (Some 4) a (snd Wire.late_end)) Wire.late_actors =
    [None; None; None; None; None; None; None; None].
Proof.
  repeat apply conj; vm_compute; reflexivity.
Qed.
